(** * BUFR query engine: target resolution, collection and dense export

    A shallow embedding of [QueryRunner.cpp], [ResultSet.cpp],
    [NcepDataProvider.cpp] and the coefficient converter, with the
    properties of the design document stated over it.

    Conventions of the embedding.
    - [int] and [size_t] values are integers in [Z]; the conversions the
      code performs between them ([static_cast<size_t>], [static_cast<int>],
      implicit narrowing) are written out with [to_size_t] and [to_int].
      Signed arithmetic on [int] is exact: signed overflow is undefined in
      C++, and the model describes the executions that do not overflow.
      A property of an [int] product or sum is stated with the range it
      holds in (below 2^31, see [ResultSet.withinInt]).
    - Container positions ([offset], loop counters, node ids) are [nat].
    - An unchecked container access past the end ([operator[]], [front],
      [back]) is undefined behaviour in C++; the model stops with
      [Fault (OutOfRange _)] naming the access.  A thrown exception is a
      [Fault] as well.
    - [double] is the kernel's binary64 [float]; the code only copies
      doubles, it never computes with them. *)

From Stdlib Require Import PrimFloat ZArith Lia.
From stdpp Require Import gmap strings list pretty.

Open Scope Z_scope.

(** ** Outcomes *)

(** The unchecked accesses of the three files. *)
Inductive access : Set :=
  | Frames_front        (* dataFrames_.front() *)
  | Frames_0            (* dataFrames_[0] *)
  | Dims_0              (* dims[0] where the rows of the data set are counted *)
  | Dims_idx            (* dims[i], allDims[i] and iterators into dims *)
  | FieldAtIdx          (* dataFrame.fieldAtIdx(idx) *)
  | DimPaths_idx        (* dimPaths[dimIdx], dimPaths.back() *)
  | Output_idx          (* output[idxs[i]], output[i * numsPerRow + j] *)
  | Data_idx            (* data[...] in getRawValues *)
  | DataRows_idx        (* dataRows[i][0] *)
  | SrcData_offset      (* srcData[offset] *)
  | OrigCounts_depth    (* origCounts[depth], origCounts.back() *)
  | Filters_depth       (* filters[depth] *)
  | Path_idx            (* targ->path[pathIdx + 1], path.back(), path[pathIdx] *)
  | Queries_0           (* querySet_.queriesFor(name)[0] *)
  | Configs_0           (* configs[0] *)
  | Argv_1.             (* argv[1] *)

(** The exceptions of the coefficient converter. *)
Inductive exception : Set :=
  | AssertionFailed                (* eckit's ASSERT *)
  | BadValue (msg : string)        (* eckit::BadValue thrown by main *)
  | Propagated (what : string).    (* an exception leaving a collaborator *)

Inductive fault : Set :=
  | OutOfRange (a : access)   (* undefined behaviour: access past the end *)
  | BadGet                    (* boost::bad_get *)
  | StdOutOfRange             (* std::out_of_range from vector::at *)
  | LengthError               (* a negative length converted to size_t *)
  | NoTermination             (* a loop whose bound is SIZE_MAX *)
  | Exception (e : exception) (* an exception of the converter *)
  | OutOfFuel.                (* recursion budget of the model exhausted *)

Inductive result (A : Type) : Type :=
  | Ok (a : A)
  | Fault (f : fault).
Arguments Ok {A} a.
Arguments Fault {A} f.

#[global] Instance result_ret : MRet result := fun _ a => Ok a.
#[global] Instance result_bind : MBind result := fun _ _ k m =>
  match m with
  | Ok a => k a
  | Fault f => Fault f
  end.

#[global] Instance result_fmap : FMap result := fun _ _ g m =>
  match m with
  | Ok a => Ok (g a)
  | Fault f => Fault f
  end.

(** [v[i]] with the access named for the fault. *)
Definition at_idx {A} (a : access) (v : list A) (i : nat) : result A :=
  match v !! i with
  | Some x => Ok x
  | None => Fault (OutOfRange a)
  end.

(** [v[i] = x]. *)
Definition set_idx {A} (a : access) (v : list A) (i : nat) (x : A) : result (list A) :=
  if decide (i < length v)%nat then Ok (<[i := x]> v) else Fault (OutOfRange a).

(** A loop body run over the elements of [l] in order, threading the state
    and stopping at the first fault. *)
Fixpoint forM {A S} (l : list A) (body : A → S → result S) (s : S) : result S :=
  match l with
  | [] => Ok s
  | x :: l' =>
      match body x s with
      | Ok s' => forM l' body s'
      | Fault f => Fault f
      end
  end.

(** ** Machine integers *)

Definition SIZE_MAX : Z := 2 ^ 64 - 1.

(** Conversion to [size_t] (64 bits, unsigned). *)
Definition to_size_t (z : Z) : Z := z mod 2 ^ 64.

(** Conversion to [int] (32 bits, two's complement). *)
Definition to_int (z : Z) : Z := (z + 2 ^ 31) mod 2 ^ 32 - 2 ^ 31.

Definition double : Set := float.

(** ** VectorMath.h *)

Module VectorMath.

(** Modelled from the spec: VectorMath.h is not among the sources.
    [max(vec)] is the maximum observed count of a non-empty vector (section 4.4,
    item 1); the callers test [empty()] first. *)
Definition max (v : list Z) : Z :=
  match v with
  | [] => 0
  | x :: v' => foldl Z.max x v'
  end.

(** Modelled from the spec: VectorMath.h is not among the sources.
    [sum(vec)], the leaf count of a count layer (section 3, invariants). *)
Definition sum (v : list Z) : Z := foldr Z.add 0 v.

(** Modelled from the spec: VectorMath.h is not among the sources.
    [product(vec)] and [product<int>(first, last)], the number of elements of
    a block of dimensions (section 4.4, item 3). *)
Definition product (v : list Z) : Z := foldr Z.mul 1 v.

(** [product<int>(v.begin() + a, v.begin() + b)]; the iterators must lie
    within the vector. *)
Definition product_range (v : list Z) (a b : nat) : result Z :=
  if decide (a ≤ b ∧ b ≤ length v)%nat
  then Ok (product (take (b - a) (drop a v)))
  else Fault (OutOfRange Dims_idx).

(** Modelled from the spec: VectorMath.h is not among the sources.
    [scalar - vec * scalar'], element by element. *)
Definition scalar_minus_scaled (p : Z) (v : list Z) (q : Z) : list Z :=
  (λ c, p - c * q) <$> v.

(** Modelled from the spec: VectorMath.h is not among the sources.
    [vec - scalar], element by element. *)
Definition minus_scalar (v : list Z) (k : Z) : list Z := (λ x, x - k) <$> v.

(** Modelled from the spec: VectorMath.h is not among the sources.
    [slice(vec, idxs)] keeps the entries of [vec] at the positions [idxs]. *)
Definition slice (v : list Z) (idxs : list Z) : result (list Z) :=
  mapM (M := result) (λ i, if decide (0 ≤ i) then at_idx Dims_idx v (Z.to_nat i)
               else Fault (OutOfRange Dims_idx)) idxs.

End VectorMath.

(** ** Data shared by the query runner and its collaborators *)

(** [NodeLookupTable::DataVector]: a [boost::variant] over a vector of
    doubles and a vector of strings. *)
Inductive DataVector : Type :=
  | Doubles (v : list double)
  | Strings (v : list string).

(** [std::vector<std::vector<int>>]: per path depth, the repetition counts
    seen at that depth. *)
Abbreviation SeqCounts := (list (list Z)).

(** [NodeLookupTable::NodeData]. *)
Record NodeData : Type := mkNodeData {
  counts : list Z;
  data : DataVector
}.

(** [SubsetVariant]: the key of the target cache. *)
Definition SubsetVariant : Type := (string * nat)%type.

(** A component of a query: the subset selector or one mnemonic of the
    path, with its kept 1-based occurrence indices. *)
Record QueryComponent : Type := mkQueryComponent {
  qc_name : string;
  qc_index : nat;
  isAnySubset : bool;
  filter : list nat
}.

Record Query : Type := mkQuery {
  subset : QueryComponent;
  path : list QueryComponent;
  str : string
}.

(** [Typ], the node kinds of the schema table; the runner names only
    [Typ::Subset] and copies the others. *)
Inductive Typ : Set :=
  | Subset | DelayedRep | FixedRep | DelayedRepStacked | DelayedBinary
  | Sequence | Repeat | StackedRepeat | Number | Character.

Record TargetComponent : Type := mkTargetComponent {
  queryComponent : QueryComponent;
  nodeId : nat;
  parentNodeId : nat;
  parentDimensionNodeId : nat;
  type : Typ;
  fixedRepeatCount : nat
}.

(** [Constants.h] is not among the sources: the missing-value sentinel is a
    parameter of the development. *)
Class Constants : Type := { MissingValue : double }.

Module QueryRunner.

(** [Target]: the resolved binding of one field name.  [TypeInfo] is
    declared in a header that is not among the sources. *)
Record Target (TypeInfo : Type) : Type := mkTarget {
  name : string;
  queryStr : string;
  nodeIdx : nat;
  typeInfo : TypeInfo;
  longStrId : string;
  dimPaths : list Query;
  exportDimIdxs : list Z;
  tpath : list TargetComponent;    (* Target::path *)
  seqPath : list nat
}.
Arguments mkTarget {TypeInfo}.
Arguments name {TypeInfo}.
Arguments queryStr {TypeInfo}.
Arguments nodeIdx {TypeInfo}.
Arguments typeInfo {TypeInfo}.
Arguments longStrId {TypeInfo}.
Arguments dimPaths {TypeInfo}.
Arguments exportDimIdxs {TypeInfo}.
Arguments tpath {TypeInfo}.
Arguments seqPath {TypeInfo}.

(** Declarations of headers that are not among the sources ([BufrNode.h],
    [NodeLookupTable.h], [Query.h], [Target.h]). *)
Class Headers : Type := {
  TypeInfo : Type;
  TypeInfo_default : TypeInfo;                 (* TypeInfo() *)
  isLongString : TypeInfo → bool;
  DataVector_default : DataVector;             (* NodeLookupTable::DataVector() *)
  Query_default : Query;                       (* Query() *)
  TargetComponent_default : TargetComponent;   (* TargetComponent() *)
  setPath : list TargetComponent → Target TypeInfo → Target TypeInfo
                                               (* Target::setPath *)
}.

Abbreviation Targets := (list (Target TypeInfo)).

Section Runner.

Context `{Constants} `{Headers}.

(** The [DataField] of the query runner: the target it was collected for,
    the flat values and the count tree. *)
Record DataField : Type := mkDataField {
  target : option (Target TypeInfo);
  fdata : DataVector;              (* DataField::data *)
  seqCounts : SeqCounts
}.

Local Abbreviation DataFrame := (list DataField).

(** A field of a frame just made by [ResultSet::nextDataFrame]. *)
Definition DataField_new : DataField :=
  {| target := None; fdata := DataVector_default; seqCounts := [] |}.

(** [ResultSet::nextDataFrame]: [dataFrames_.push_back(DataFrame(names_.size()))]. *)
Definition nextDataFrame (nnames : nat) (dataFrames_ : list DataFrame)
    : list DataFrame * DataFrame :=
  let fr := replicate nnames DataField_new in (dataFrames_ ++ [fr], fr).

(** *** _makeFilteredData *)

(** The leaf of the walk: copy [srcData[offset]] unless skipped, then
    advance the offset. *)
Definition leaf (srcData : DataVector) (st : DataVector * nat) (skipResult : bool)
    : result (DataVector * nat) :=
  let '(data, offset) := st in
  data' ← (if negb skipResult then
             match data with
             | Strings d =>
                 match srcData with
                 | Strings s => x ← at_idx SrcData_offset s offset; Ok (Strings (d ++ [x]))
                 | Doubles _ => Fault BadGet
                 end
             | Doubles d =>
                 match srcData with
                 | Doubles s => x ← at_idx SrcData_offset s offset; Ok (Doubles (d ++ [x]))
                 | Strings _ => Fault BadGet
                 end
             end
           else Ok data);
  Ok (data', S offset).

(** The occurrence numbers [1 .. static_cast<size_t>(c)] of one entry of a
    filtered layer. *)
Definition occurrences (c : Z) : result (list nat) :=
  if decide (to_size_t c = SIZE_MAX) then Fault NoTermination
  else Ok (seq 1 (Z.to_nat (to_size_t c))).

Fixpoint _makeFilteredData (fuel : nat) (srcData : DataVector) (origCounts : SeqCounts)
    (filters : list (list nat)) (st : DataVector * nat) (depth : nat)
    (skipResult : bool) : result (DataVector * nat) :=
  match fuel with
  | O => Fault OutOfFuel
  | S fuel' =>
      if decide (to_size_t (Z.of_nat (length origCounts) - 1) < Z.of_nat depth)
      then leaf srcData st skipResult
      else
        layerCounts ← at_idx OrigCounts_depth origCounts depth;
        layerFilter ← at_idx Filters_depth filters depth;
        match layerFilter with
        | [] =>
            forM layerCounts
              (λ _ st, _makeFilteredData fuel' srcData origCounts filters st
                         (depth + 1) skipResult) st
        | _ :: _ =>
            forM layerCounts
              (λ c st,
                 occ ← occurrences c;
                 forM occ
                   (λ count st,
                      let skip :=
                        if negb skipResult then bool_decide (count ∉ layerFilter)
                        else skipResult in
                      _makeFilteredData fuel' srcData origCounts filters st
                        (depth + 1) skip) st) st
        end
  end.

(** [data.reserve(n)]: the capacity is no part of the value of the result,
    but a negative [n], converted to [size_t], is past the largest size of
    a vector and the call throws [std::length_error]. *)
Definition reserve (n : Z) : result unit :=
  if decide (n < 0) then Fault LengthError else Ok ().

(** [makeFilteredData], with the offset the walk ends at.  The capacity of
    the result is reserved from the sum of the last layer of counts; the
    walk then starts at depth 0 with [skipResult] at its default [false]. *)
Definition makeFilteredData_walk (srcData : DataVector) (origCounts : SeqCounts)
    (filter : list (list nat)) : result (DataVector * nat) :=
  _ ← (if decide (origCounts = []) then Fault (OutOfRange OrigCounts_depth)
       else Ok ());                       (* origCounts.back() *)
  _ ← reserve (VectorMath.sum (default [] (last origCounts)));
  _makeFilteredData (S (length origCounts)) srcData origCounts filter
    (DataVector_default, 0%nat) 0 false.

Definition makeFilteredData (srcData : DataVector) (origCounts : SeqCounts)
    (filter : list (list nat)) : result DataVector :=
  st ← makeFilteredData_walk srcData origCounts filter; Ok st.1.

(** *** collectData *)

(** The variables of the loop over the sequence path of one target. *)
Record pathState : Type := mkPathState {
  ps_seqCounts : SeqCounts;          (* dataField.seqCounts *)
  ps_counts : SeqCounts;             (* counts *)
  ps_hasFilter : bool;               (* hasFilter *)
  ps_filters : list (list nat)       (* filters *)
}.

(** One iteration of the loop over [pathIdx].  The positions [pathIdx + 1]
    of [seqCounts], [counts] and [filters] exist: the three vectors have
    [seqPath.size() + 1] entries. *)
Definition pathStep (lookupTable : nat → NodeData) (targ : Target TypeInfo)
    (pathIdx : nat) (s : pathState) : result pathState :=
  pathComponent ← at_idx Path_idx (tpath targ) (pathIdx + 1);
  let flt := filter (queryComponent pathComponent) in
  let nodeCounts := counts (lookupTable (nodeId pathComponent)) in
  let n := length (seqPath targ) in
  match flt with
  | [] =>
      Ok {| ps_seqCounts := <[(pathIdx + 1)%nat := nodeCounts]> (ps_seqCounts s);
            ps_counts := ps_counts s;
            ps_hasFilter := ps_hasFilter s;
            ps_filters := ps_filters s |}
  | _ :: _ =>
      let counts1 :=
        match ps_counts s with [] => replicate (n + 1) [1] | _ => ps_counts s end in
      let filters1 :=
        match ps_filters s with [] => replicate (n + 1) [] | _ => ps_filters s end in
      let filteredCounts :=
        (λ c, Z.max (to_int (Z.of_nat (length flt))) c)
          <$> replicate (length nodeCounts) 1 in
      Ok {| ps_seqCounts := <[(pathIdx + 1)%nat := filteredCounts]> (ps_seqCounts s);
            ps_counts := <[(pathIdx + 1)%nat := nodeCounts]> counts1;
            ps_hasFilter := true;
            ps_filters := <[(pathIdx + 1)%nat := flt]> filters1 |}
  end.

(** [path.back()]. *)
Definition path_back (p : list TargetComponent) : result TargetComponent :=
  match last p with
  | Some c => Ok c
  | None => Fault (OutOfRange Path_idx)
  end.

(** The body of the loop over the targets: what [collectData] stores in
    the data field of one target. *)
Definition collectField (lookupTable : nat → NodeData) (targ : Target TypeInfo)
    (dataField : DataField) : result DataField :=
  if decide (nodeIdx targ = 0%nat) then
    data' ← (if isLongString (typeInfo targ) then
               match fdata dataField with
               | Strings _ => Ok (Strings [EmptyString])
               | Doubles _ => Fault BadGet
               end
             else
               match fdata dataField with
               | Doubles _ => Ok (Doubles [MissingValue])
               | Strings _ => Fault BadGet
               end);
    Ok {| target := Some targ; fdata := data'; seqCounts := [[1]] |}
  else
    let n := length (seqPath targ) in
    let s0 := {| ps_seqCounts := <[0%nat := [1]]> (resize (n + 1) [] (seqCounts dataField));
                 ps_counts := [];
                 ps_hasFilter := false;
                 ps_filters := [] |} in
    s ← forM (seq 0 n) (pathStep lookupTable targ) s0;
    leafComponent ← path_back (tpath targ);
    let srcData := data (lookupTable (nodeId leafComponent)) in
    data' ← (if negb (ps_hasFilter s) then Ok srcData
             else makeFilteredData srcData (ps_counts s) (ps_filters s));
    Ok {| target := Some targ; fdata := data'; seqCounts := ps_seqCounts s |}.

(** [targets.at(targetIdx)]. *)
Definition targets_at (targets : Targets) (i : nat) : result (Target TypeInfo) :=
  match targets !! i with
  | Some t => Ok t
  | None => Fault StdOutOfRange
  end.

(** [collectData]: a new frame of [nnames] fields is appended to the
    result set and filled target by target. *)
Definition collectData (lookupTable : nat → NodeData) (targets : Targets)
    (nnames : nat) (dataFrames_ : list DataFrame) : result (list DataFrame) :=
  let '(_, dataFrame) := nextDataFrame nnames dataFrames_ in
  dataFrame' ← forM (seq 0 (length targets))
    (λ targetIdx dataFrame,
       targ ← targets_at targets targetIdx;
       dataField ← at_idx FieldAtIdx dataFrame targetIdx;
       dataField' ← collectField lookupTable targ dataField;
       Ok (<[targetIdx := dataField']> dataFrame)) dataFrame;
  Ok (dataFrames_ ++ [dataFrame']).

(** *** The number of leaves the filtered walk visits *)

(** Leaves below one occurrence at [depth], following the recursion of
    [_makeFilteredData]: an unfiltered layer descends once per entry of
    the layer, a filtered layer once per occurrence counted by its
    entries. *)
Fixpoint leafVisits (fuel : nat) (origCounts : SeqCounts) (filters : list (list nat))
    (depth : nat) : nat :=
  match fuel with
  | O => 0
  | S fuel' =>
      if decide (to_size_t (Z.of_nat (length origCounts) - 1) < Z.of_nat depth)
      then 1
      else
        match origCounts !! depth, filters !! depth with
        | Some layerCounts, Some [] =>
            (length layerCounts * leafVisits fuel' origCounts filters (depth + 1))%nat
        | Some layerCounts, Some (_ :: _) =>
            (sum_list ((λ c, Z.to_nat (to_size_t c)) <$> layerCounts)
             * leafVisits fuel' origCounts filters (depth + 1))%nat
        | _, _ => 0
        end
  end.

(** *** findTargets *)

(** What [findTargets] reads of a [BufrNode] of the schema table. *)
Record BufrNode : Type := mkBufrNode {
  bn_nodeIdx : nat;
  bn_parentNodeIdx : nat;              (* getParent()->nodeIdx *)
  bn_dimensionParentNodeIdx : nat;     (* getDimensionParent()->nodeIdx *)
  bn_type : Typ;
  bn_fixedRepCount : nat;
  bn_typeInfo : TypeInfo;
  bn_mnemonic : string;
  bn_mnemonicCnt : nat
}.

(** [SubsetTable], built from the data provider for the current message. *)
Record SubsetTable : Type := mkSubsetTable {
  getNodeForPath : list QueryComponent → option BufrNode;   (* nullptr = None *)
  getRoot : BufrNode;
  getPathNodes : BufrNode → list BufrNode
}.

Record QuerySet : Type := mkQuerySet {
  names : list string;
  queriesFor : string → list Query
}.

(** The data provider positioned on one message. *)
Record DataProvider : Type := mkDataProvider {
  getSubsetVariant : SubsetVariant;
  subsetTable : SubsetTable;                     (* SubsetTable(dataProvider_) *)
  nodeLookupTable : Targets → nat → NodeData     (* NodeLookupTable(dataProvider_, targets) *)
}.

(** The members of the runner that change: the target cache, the frames
    of the result set and the warnings written to the log. *)
Record Runner : Type := mkRunner {
  targetCache_ : gmap SubsetVariant Targets;
  names_ : list string;                (* resultSet_.names_ *)
  dataFrames_ : list DataFrame;        (* resultSet_.dataFrames_ *)
  warnings : list (string * SubsetVariant)
}.

(** The loop over the sub-queries of one name: [foundQuery] and
    [tableNode] when it ends. *)
Fixpoint findQuery (table : SubsetTable) (variant : SubsetVariant)
    (queries : list Query) (found : Query * option BufrNode)
    : Query * option BufrNode :=
  match queries with
  | [] => found
  | query :: queries' =>
      if isAnySubset (subset query)
         || (bool_decide (qc_name (subset query) = variant.1)
             && bool_decide (qc_index (subset query) = variant.2))
      then
        match getNodeForPath table (path query) with
        | Some node => (query, Some node)
        | None => findQuery table variant queries' (query, None)
        end
      else findQuery table variant queries' found
  end.

(** [std::make_shared<Target>()]. *)
Definition Target_default : Target TypeInfo :=
  {| name := EmptyString; queryStr := EmptyString; nodeIdx := 0%nat;
     typeInfo := TypeInfo_default; longStrId := EmptyString; dimPaths := [];
     exportDimIdxs := []; tpath := []; seqPath := [] |}.

(** The target components of a found query, root first. *)
Definition makePath (table : SubsetTable) (foundQuery : Query) (tableNode : BufrNode)
    : result (list TargetComponent) :=
  let path0 := replicate (length (path foundQuery) + 1) TargetComponent_default in
  path1 ← set_idx Path_idx path0 0
    {| queryComponent := subset foundQuery;
       nodeId := bn_nodeIdx (getRoot table);
       parentNodeId := 0%nat;
       parentDimensionNodeId := 0%nat;
       type := Subset;
       fixedRepeatCount := fixedRepeatCount TargetComponent_default |};
  let nodes := getPathNodes table tableNode in
  forM (seq 1 (length nodes - 1))
    (λ nodeIdx pth,
       qc ← at_idx Path_idx (path foundQuery) (nodeIdx - 1);
       node ← at_idx Path_idx nodes nodeIdx;
       set_idx Path_idx pth nodeIdx
         {| queryComponent := qc;
            nodeId := bn_nodeIdx node;
            parentNodeId := bn_parentNodeIdx node;
            parentDimensionNodeId := bn_dimensionParentNodeIdx node;
            type := bn_type node;
            fixedRepeatCount := bn_fixedRepCount node |}) path1.

(** The body of the loop over the names of the query set. *)
Definition findTarget (querySet_ : QuerySet) (dataProvider_ : DataProvider)
    (table : SubsetTable) (fieldName : string)
    (st : Targets * list (string * SubsetVariant))
    : result (Targets * list (string * SubsetVariant)) :=
  let '(targets, log) := st in
  let variant := getSubsetVariant dataProvider_ in
  let '(foundQuery, tableNode) :=
    findQuery table variant (queriesFor querySet_ fieldName) (Query_default, None) in
  match tableNode with
  | None =>
      q0 ← at_idx Queries_0 (queriesFor querySet_ fieldName) 0;
      let target :=
        {| name := fieldName; queryStr := str q0; nodeIdx := 0%nat;
           typeInfo := TypeInfo_default;
           longStrId := longStrId Target_default;
           dimPaths := dimPaths Target_default ++ [Query_default];
           exportDimIdxs := [0];
           tpath := tpath Target_default;
           seqPath := seqPath Target_default |} in
      Ok (targets ++ [target], log ++ [(str q0, variant)])
  | Some node =>
      pth ← makePath table foundQuery node;
      let target0 :=
        {| name := fieldName; queryStr := str foundQuery;
           nodeIdx := nodeIdx Target_default;
           typeInfo := typeInfo Target_default;
           longStrId := longStrId Target_default;
           dimPaths := dimPaths Target_default;
           exportDimIdxs := exportDimIdxs Target_default;
           tpath := tpath Target_default;
           seqPath := seqPath Target_default |} in
      let target1 := setPath pth target0 in
      let target :=
        {| name := name target1; queryStr := queryStr target1;
           nodeIdx := bn_nodeIdx node;
           typeInfo := bn_typeInfo node;
           longStrId := bn_mnemonic node +:+ "#" +:+ pretty (bn_mnemonicCnt node);
           dimPaths := dimPaths target1;
           exportDimIdxs := exportDimIdxs target1;
           tpath := tpath target1;
           seqPath := seqPath target1 |} in
      Ok (targets ++ [target], log)
  end.

(** [findTargets(targets)]: the targets of the current subset variant,
    from the cache when it holds them, resolved and cached otherwise. *)
Definition findTargets (querySet_ : QuerySet) (dataProvider_ : DataProvider)
    (r : Runner) (targets : Targets) : result (Runner * Targets) :=
  match targetCache_ r !! getSubsetVariant dataProvider_ with
  | Some cached => Ok (r, cached)
  | None =>
      let table := subsetTable dataProvider_ in
      '(targets', log') ← forM (names querySet_)
         (findTarget querySet_ dataProvider_ table) (targets, warnings r);
      Ok ({| targetCache_ := <[getSubsetVariant dataProvider_ := targets']> (targetCache_ r);
             names_ := names_ r;
             dataFrames_ := dataFrames_ r;
             warnings := log' |}, targets')
  end.

(** [accumulate()]. *)
Definition accumulate (querySet_ : QuerySet) (dataProvider_ : DataProvider)
    (r : Runner) : result Runner :=
  '(r1, targets) ← findTargets querySet_ dataProvider_ r [];
  frames ← collectData (nodeLookupTable dataProvider_ targets) targets
              (length (names_ r1)) (dataFrames_ r1);
  Ok {| targetCache_ := targetCache_ r1; names_ := names_ r1;
        dataFrames_ := frames; warnings := warnings r1 |}.

(** The runner moves on by resolving targets or by accumulating one
    message. *)
Inductive step (querySet_ : QuerySet) : Runner → Runner → Prop :=
  | step_findTargets dataProvider_ r targets r' found :
      findTargets querySet_ dataProvider_ r targets = Ok (r', found) →
      step querySet_ r r'
  | step_accumulate dataProvider_ r r' :
      accumulate querySet_ dataProvider_ r = Ok r' →
      step querySet_ r r'.

End Runner.
End QueryRunner.

(** ** ResultSet.cpp *)

Module ResultSet.

(** The [DataField] the result set reads: flat values, count tree,
    dimension paths, export dimension indices and the unit string. *)
Record DataField : Type := mkDataField {
  data : list double;
  seqCounts : SeqCounts;
  dimPaths : list string;
  exportDims : list Z;
  missing : bool;
  f_unit : string                  (* DataField::unit *)
}.

Record DataFrame : Type := mkDataFrame {
  fields : list DataField
}.

(** [DataFrame.h] is not among the sources: the index of the field of a
    given name is a parameter. *)
Class Headers : Type := {
  fieldIndexForNodeNamed : DataFrame → string → Z
}.

(** The element type of the object [get] makes. *)
Inductive ElementType : Set :=
  | StringElements       (* DataObject<std::string> *)
  | UInt32Elements       (* DataObject<uint32_t> *)
  | FloatElements.       (* DataObject<float> *)

(** What [get] sets on the [DataObjectBase] it returns. *)
Record DataObject : Type := mkDataObject {
  elementType : ElementType;
  o_data : list double;
  o_missing : double;
  o_dims : list Z;
  o_fieldName : string;
  o_groupByFieldName : string;
  o_dimPaths : list string
}.

Section Dense.

Context `{Constants} `{Headers}.

(** [dataFrame.fieldAtIdx(idx)], [idx] an [int]. *)
Definition fieldAtIdx (dataFrame : DataFrame) (idx : Z) : result DataField :=
  if decide (0 ≤ idx) then at_idx FieldAtIdx (fields dataFrame) (Z.to_nat idx)
  else Fault (OutOfRange FieldAtIdx).

(** The literal [10.0e10] that fills [output] in [getRowsForField]. *)
Definition fill_10e10 : double := 1e11%float.

(** *** getRowsForField *)

(** [maxCounts]: the longest count list of the field. *)
Definition maxCounts (seqCounts : SeqCounts) : nat :=
  foldl (λ m c, if decide (m < length c)%nat then length c else m) 0%nat seqCounts.

(** The insert array: per depth, the padding slots each occurrence needs
    to reach the export dimension of that depth. *)
Definition computeInserts (seqCounts : SeqCounts) (dims : list Z) : result (list (list Z)) :=
  forM (seq 0 (length dims `min` length seqCounts))
    (λ repIdx inserts,
       p ← VectorMath.product_range dims repIdx (length dims);
       q ← VectorMath.product_range dims (repIdx + 1) (length dims);
       Ok (<[repIdx := VectorMath.scalar_minus_scaled p (seqCounts !!! repIdx) q]> inserts))
    (replicate (length dims) [0]).

(** One insert of the inflation: every index past [data_idx] moves up by
    [num_inserts]. *)
Definition applyInsert (dims : list Z) (dim_idx : nat) (insert_idx : nat) (ins : Z)
    (idxs : list Z) : result (list Z) :=
  let num_inserts := to_size_t ins in
  if decide (0 < num_inserts) then
    p ← VectorMath.product_range dims dim_idx (length dims);
    let data_idx := to_int (p * Z.of_nat insert_idx + p - num_inserts - 1) in
    Ok ((λ i, if decide (data_idx < to_int i) then to_size_t (i + num_inserts) else i)
          <$> idxs)
  else Ok idxs.

(** The destination index of every source value. *)
Definition inflate (inserts : list (list Z)) (dims : list Z) (idxs : list Z)
    : result (list Z) :=
  forM (reverse (seq 0 (length dims)))
    (λ dim_idx idxs,
       forM (imap (λ insert_idx ins, (insert_idx, ins)) (inserts !!! dim_idx))
         (λ '(insert_idx, ins) idxs, applyInsert dims dim_idx insert_idx ins idxs) idxs)
    idxs.

(** [std::vector<double>(n, x)] for an [int] or [size_t] count [n]. *)
Definition make_vector {A} (n : Z) (x : A) : result (list A) :=
  if decide (0 ≤ n) then Ok (replicate (Z.to_nat n) x) else Fault LengthError.

(** The padded block of one frame: [output] before the group-by step. *)
Definition inflateField (targetField : DataField) (dims : list Z) : result (list double) :=
  let idxs0 := Z.of_nat <$> seq 0 (length (data targetField)) in
  inserts ← computeInserts (seqCounts targetField) dims;
  idxs ← inflate inserts dims idxs0;
  output0 ← make_vector (VectorMath.product dims) fill_10e10;
  forM (zip idxs (data targetField))
    (λ '(i, v) output, set_idx Output_idx output (Z.to_nat i) v) output0.

(** [getRowsForField]; [dataRows] is empty on entry, as its caller
    passes it. *)
Definition getRowsForField (targetField : DataField) (dims : list Z) (groupbyIdx : Z)
    : result (list (list double)) :=
  output ← inflateField targetField dims;
  if decide (0 < groupbyIdx) then
    if decide (to_int (Z.of_nat (length (seqCounts targetField))) < groupbyIdx) then
      let numRows := Z.to_nat (to_size_t (VectorMath.product dims)) in
      let dataRows0 :=
        replicate (numRows * maxCounts (seqCounts targetField)) [MissingValue] in
      forM (seq 0 numRows)
        (λ i dataRows,
           match output with
           | [] => Ok dataRows
           | o0 :: _ =>
               row ← at_idx DataRows_idx dataRows i;
               row' ← set_idx DataRows_idx row 0 o0;
               Ok (<[i := row']> dataRows)
           end) dataRows0
    else
      p ← VectorMath.product_range dims 0 (Z.to_nat groupbyIdx);
      let numRows := Z.to_nat (to_size_t p) in
      let rowDims := drop (Z.to_nat groupbyIdx) dims in
      let numsPerRow := Z.to_nat (to_size_t (VectorMath.product rowDims)) in
      mapM (M := result)
        (λ i, mapM (M := result)
                (λ j, at_idx Output_idx output (i * numsPerRow + j))
                (seq 0 numsPerRow))
        (seq 0 numRows)
  else Ok [output].

(** *** getRawValues *)

(** The variables of the loop over the frames that finds the dimensions. *)
Record scanState : Type := mkScanState {
  sc_dimsList : list Z;
  sc_exportDims : list Z;
  sc_dimPaths : list string;
  sc_groupbyIdx : Z;
  sc_totalGroupbyElements : Z
}.

(** The loop over [cntIdx]: each depth keeps the largest count seen. *)
Definition updateDimsList (seqCounts : SeqCounts) (dimsList : list Z) : list Z :=
  foldl (λ dimsList cntIdx,
           match seqCounts !!! cntIdx with
           | [] => dimsList
           | c :: cs =>
               <[cntIdx := Z.max (dimsList !!! cntIdx) (VectorMath.max (c :: cs))]> dimsList
           end)
        dimsList (seq 0 (length seqCounts)).

(** [groupbyElementsForFrame]. *)
Definition groupbyElementsForFrame (seqCounts : SeqCounts) : Z :=
  foldl (λ n seqCount,
           match seqCount with
           | [] => n
           | _ :: _ => n * VectorMath.max seqCount
           end) 1 seqCounts.

(** The body of the loop over the frames. *)
Definition scanFrame (targetFieldIdx groupByFieldIdx : Z) (groupByField : string)
    (dataFrame : DataFrame) (s : scanState) : result scanState :=
  targetField ← fieldAtIdx dataFrame targetFieldIdx;
  let '(dimPaths1, exportDims1) :=
    if negb (bool_decide (dimPaths targetField = []))
       && bool_decide (length (sc_dimPaths s) < length (dimPaths targetField))%nat
    then (dimPaths targetField, exportDims targetField)
    else (sc_dimPaths s, sc_exportDims s) in
  let dimsLen := length (seqCounts targetField) in
  let dimsList0 :=
    if decide (length (sc_dimsList s) < dimsLen)%nat
    then resize dimsLen 0 (sc_dimsList s) else sc_dimsList s in
  let dimsList1 := updateDimsList (seqCounts targetField) dimsList0 in
  if bool_decide (groupByField ≠ EmptyString) then
    groupByFld ← fieldAtIdx dataFrame groupByFieldIdx;
    let groupbyIdx1 :=
      Z.max (sc_groupbyIdx s) (to_int (Z.of_nat (length (seqCounts groupByFld)))) in
    if decide (to_int (Z.of_nat (length dimsList1)) < groupbyIdx1) then
      lastPath ← match last (dimPaths groupByFld) with
                 | Some p => Ok p
                 | None => Fault (OutOfRange DimPaths_idx)
                 end;
      Ok {| sc_dimsList := dimsList1;
            sc_exportDims := exportDims1;
            sc_dimPaths := [lastPath];
            sc_groupbyIdx := groupbyIdx1;
            sc_totalGroupbyElements :=
              Z.max (sc_totalGroupbyElements s)
                    (groupbyElementsForFrame (seqCounts groupByFld)) |}
    else
      let first :=
        Z.to_nat (to_size_t (Z.of_nat (length (exportDims groupByFld)) - 1)) in
      Ok {| sc_dimsList := dimsList1;
            sc_exportDims := exportDims1;
            sc_dimPaths := drop first (dimPaths targetField);
            sc_groupbyIdx := groupbyIdx1;
            sc_totalGroupbyElements := sc_totalGroupbyElements s |}
  else
    Ok {| sc_dimsList := dimsList1;
          sc_exportDims := exportDims1;
          sc_dimPaths := dimPaths1;
          sc_groupbyIdx := sc_groupbyIdx s;
          sc_totalGroupbyElements := sc_totalGroupbyElements s |}.

(** The field indices, read from the first frame when there is one. *)
Definition fieldIndices (dataFrames_ : list DataFrame) (fieldName groupByField : string)
    : Z * Z :=
  match dataFrames_ with
  | [] => (0, 0)
  | frame0 :: _ =>
      (fieldIndexForNodeNamed frame0 fieldName,
       if bool_decide (groupByField ≠ EmptyString)
       then fieldIndexForNodeNamed frame0 groupByField else 0)
  end.

(** The dimensions found over all frames; [dimPaths] is empty on entry, as
    [get] passes it. *)
Definition scanFrames (dataFrames_ : list DataFrame) (fieldName groupByField : string)
    : result scanState :=
  let '(targetFieldIdx, groupByFieldIdx) :=
    fieldIndices dataFrames_ fieldName groupByField in
  s0 ← match dataFrames_ with
       | [] => Ok (mkScanState [] [] [] 0 0)
       | _ :: _ =>
           frame0 ← at_idx Frames_0 dataFrames_ 0;
           targetField ← fieldAtIdx frame0 targetFieldIdx;
           Ok (mkScanState [] (exportDims targetField) (dimPaths targetField) 0 0)
       end;
  forM dataFrames_ (scanFrame targetFieldIdx groupByFieldIdx groupByField) s0.

(** Every dimension holds at least one element. *)
Definition atLeastOne (dimsList : list Z) : list Z :=
  (λ d, if decide (d = 0) then 1 else d) <$> dimsList.

(** The shape of one frame, before the frames are stacked. *)
Record frameShape : Type := mkFrameShape {
  sh_dims : list Z;          (* dims *)
  sh_allDims : list Z;       (* allDims *)
  sh_exportDims : list Z;    (* exportDims *)
  sh_dimPaths : list string; (* dimPaths *)
  sh_groupbyIdx : Z          (* groupbyIdx *)
}.

(** [exportDims] after the group-by levels are taken off. *)
Definition groupedExportDims (exportDims : list Z) (groupbyIdx : Z) : list Z :=
  let shifted := VectorMath.minus_scalar exportDims (groupbyIdx - 1) in
  let filteredExportDims := base.filter (λ d, 0 ≤ d) shifted in
  match filteredExportDims with
  | [] => [0]
  | d :: _ => if decide (d ≠ 0) then 0 :: filteredExportDims else filteredExportDims
  end.

(** The dimensions of one frame: all depths without a group-by, the
    group-by elements when the group-by field lies deeper than the
    target, the leading depths folded into a row axis otherwise.
    [dims] is empty on entry, as [get] passes it. *)
Definition exportShape (dataFrames_ : list DataFrame) (fieldName groupByField : string)
    : result frameShape :=
  s ← scanFrames dataFrames_ fieldName groupByField;
  let dimsList := sc_dimsList s in
  let groupbyIdx := sc_groupbyIdx s in
  let allDims := atLeastOne dimsList in
  if decide (0 < groupbyIdx) then
    if decide (to_int (Z.of_nat (length dimsList)) < groupbyIdx) then
      let dims := resize 1 (sc_totalGroupbyElements s) [] in
      Ok (mkFrameShape dims dims [0] (sc_dimPaths s) groupbyIdx)
    else
      let dims0 :=
        resize (Z.to_nat (to_size_t (Z.of_nat (length dimsList) - groupbyIdx + 1))) 1 [] in
      dims1 ← forM (seq 0 (Z.to_nat groupbyIdx))
        (λ dimIdx dims,
           d0 ← at_idx Dims_idx dims 0;
           a ← at_idx Dims_idx allDims dimIdx;
           Ok (<[0%nat := d0 * a]> dims)) dims0;
      dims2 ← forM (seq (Z.to_nat groupbyIdx) (length allDims - Z.to_nat groupbyIdx))
        (λ dimIdx dims,
           a ← at_idx Dims_idx allDims dimIdx;
           set_idx Dims_idx dims (dimIdx - Z.to_nat groupbyIdx + 1) a) dims1;
      Ok (mkFrameShape dims2 allDims (groupedExportDims (sc_exportDims s) groupbyIdx)
            (sc_dimPaths s) groupbyIdx)
  else
    Ok (mkFrameShape allDims allDims (sc_exportDims s) (sc_dimPaths s) groupbyIdx).

(** The rows of one frame copied into the dense array. *)
Definition storeRows (rowLength : Z) (dataRowIdx : Z) (frameData : list (list double))
    (data : list double) : result (list double) :=
  forM (imap (λ rowIdx row, (rowIdx, row)) frameData)
    (λ '(rowIdx, row) data,
       forM (imap (λ colIdx v, (colIdx, v)) row)
         (λ '(colIdx, v) data,
            set_idx Data_idx data
              (Z.to_nat (to_size_t (dataRowIdx * rowLength
                                    + Z.of_nat rowIdx * Z.of_nat (length row)
                                    + Z.of_nat colIdx))) v) data) data.

(** [getRawValues]: the dense array, its dimensions and the dimension
    paths.  [data], [dims] and [dimPaths] are empty on entry, as [get]
    passes them. *)
Definition getRawValues (dataFrames_ : list DataFrame) (fieldName groupByField : string)
    : result (list double * list Z * list string) :=
  sh ← exportShape dataFrames_ fieldName groupByField;
  let dims := sh_dims sh in
  let '(targetFieldIdx, _) := fieldIndices dataFrames_ fieldName groupByField in
  d0 ← at_idx Dims_0 dims 0;
  let totalRows := to_size_t (d0 * Z.of_nat (length dataFrames_)) in
  let rowLength := VectorMath.product (drop 1 dims) in
  let data0 := resize (Z.to_nat (to_size_t (totalRows * rowLength))) MissingValue [] in
  data ← forM (imap (λ frameIdx dataFrame, (frameIdx, dataFrame)) dataFrames_)
    (λ '(frameIdx, dataFrame) data,
       targetField ← fieldAtIdx dataFrame targetFieldIdx;
       if negb (missing targetField) then
         frameData ← getRowsForField targetField (sh_allDims sh) (sh_groupbyIdx sh);
         storeRows rowLength (to_size_t (d0 * Z.of_nat frameIdx)) frameData data
       else Ok data) data0;
  let dims' := <[0%nat := to_int totalRows]> dims in
  dims'' ← (if decide (1 < length dataFrames_)%nat
            then VectorMath.slice dims' (sh_exportDims sh) else Ok dims');
  Ok (data, dims'', sh_dimPaths sh).

(** *** unit and get *)

(** [ResultSet::unit]. *)
Definition unit (dataFrames_ : list DataFrame) (fieldName : string) : result string :=
  frame0 ← match dataFrames_ with
           | [] => Fault (OutOfRange Frames_front)
           | frame0 :: _ => Ok frame0
           end;
  field ← fieldAtIdx frame0 (fieldIndexForNodeNamed frame0 fieldName);
  Ok (f_unit field).

(** The characters [" \t\n\r\f\v"]. *)
Definition is_ws (c : Ascii.ascii) : bool :=
  bool_decide (Ascii.nat_of_ascii c ∈ [32; 9; 10; 13; 12; 11]%nat).

(** [path_str.erase(path_str.find_last_not_of(ws) + 1)]. *)
Fixpoint trim_right (s : string) : string :=
  match s with
  | EmptyString => EmptyString
  | String c s' =>
      match trim_right s' with
      | EmptyString => if is_ws c then EmptyString else String c EmptyString
      | r => String c r
      end
  end.

(** The object type chosen from the unit string. *)
Definition objectTypeFor (u : string) : ElementType :=
  if bool_decide (u = "CCITT IA5") then StringElements
  else if bool_decide (u = "CODE TABLE") || bool_decide (u = "FLAG TABLE")
          || bool_decide (u = "NUMERIC") then UInt32Elements
  else FloatElements.

(** [ResultSet::get]. *)
Definition get (dataFrames_ : list DataFrame) (fieldName groupByFieldName : string)
    : result DataObject :=
  '(data, dims, dimPaths) ← getRawValues dataFrames_ fieldName groupByFieldName;
  u ← unit dataFrames_ fieldName;
  paths ← mapM (M := result)
    (λ dimIdx, path_str ← at_idx DimPaths_idx dimPaths dimIdx; Ok (trim_right path_str))
    (seq 0 (length dims));
  Ok {| elementType := objectTypeFor u;
        o_data := data;
        o_missing := MissingValue;
        o_dims := dims;
        o_fieldName := fieldName;
        o_groupByFieldName := groupByFieldName;
        o_dimPaths := paths |}.

End Dense.

(** *** The export shape in the words of the design *)

(** The largest count one frame records for the field at depth [d], when
    it records any. *)
Definition frameMax (field : DataField) (d : nat) : option Z :=
  match seqCounts field !! d with
  | Some (c :: cs) => Some (VectorMath.max (c :: cs))
  | _ => None
  end.

(** One frame's contribution to the maximum at depth [d]. *)
Definition stepMax (m : Z) (field : DataField) (d : nat) : Z :=
  match frameMax field d with Some x => Z.max m x | None => m end.

(** The maximum count observed at depth [d] across the frames, 0 when no
    frame records a count there. *)
Definition observedMax (fieldOfFrame : list DataField) (d : nat) : Z :=
  foldl (λ m field, stepMax m field d) 0 fieldOfFrame.

(** The entry of a dimension list at depth [d], 0 past its end. *)
Definition get0 (dl : list Z) (d : nat) : Z := default 0 (dl !! d).

(** The deepest count tree among the frames. *)
Definition observedDepth (fieldOfFrame : list DataField) : nat :=
  foldl (λ n field, Nat.max n (length (seqCounts field))) 0%nat fieldOfFrame.

(** The export dimension of depth [d]: the observed maximum, raised to 1
    when it is 0. *)
Definition exportDimension (fieldOfFrame : list DataField) (d : nat) : Z :=
  let m := observedMax fieldOfFrame d in if decide (m = 0) then 1 else m.

(** The unit classification of the design: text, coded (code table, flag
    table or numeric), or anything else. *)
Inductive UnitClass : Set := TextUnit | CodedUnit | OtherUnit.

Definition classifyUnit (u : string) : UnitClass :=
  if bool_decide (u = "CCITT IA5") then TextUnit
  else if bool_decide (u ∈ ["CODE TABLE"; "FLAG TABLE"; "NUMERIC"]) then CodedUnit
  else OtherUnit.

Definition elementTypeOf (c : UnitClass) : ElementType :=
  match c with
  | TextUnit => StringElements
  | CodedUnit => UInt32Elements
  | OtherUnit => FloatElements
  end.




(** *** The range of [int] *)

(** The counts lie within the dimensions: at every depth that has a
    dimension, each count is between 0 and the dimension. *)
Definition countsWithin (seqCounts : SeqCounts) (dims : list Z) : Prop :=
  Forall (λ level, Forall (λ c, 0 ≤ c ≤ level.2) level.1) (zip seqCounts dims).

(** The [int] arithmetic of [getRowsForField] on a field and dimensions
    does not overflow: every dimension is at least 1, the product of the
    dimensions is below 2^31 and the counts lie within the dimensions, so
    that every product of dimensions and every count times such a product
    is between 0 and the product of all dimensions. *)
Definition withinInt (seqCounts : SeqCounts) (dims : list Z) : Prop :=
  Forall (λ d, 1 ≤ d) dims
  ∧ VectorMath.product dims < 2 ^ 31
  ∧ countsWithin seqCounts dims.

End ResultSet.

(** ** GsiAircraftBiasConverter.cc *)

Module GsiAircraftBiasConverter.

(** [GsiAircraftBiasReader.h] is not among the sources: the number of
    predictors of the GSI file is a parameter. *)
Class ReaderHeader : Type := { gsi_npredictors : nat }.

(** The outcome of a call into eckit, ioda or the coefficient reader. *)
Inductive ext (A : Type) : Type :=
  | Returned (a : A)
  | Raised (what : string).
Arguments Returned {A} a.
Arguments Raised {A} what.

Definition call {A} (e : ext A) : result A :=
  match e with
  | Returned a => Ok a
  | Raised what => Fault (Exception (Propagated what))
  end.

(** One entry of the [output] list of the YAML file. *)
Record LocalConfiguration : Type := mkLocalConfiguration {
  getString_output_file : ext string;               (* getString("output file") *)
  getStringVector_predictors : ext (list string)    (* getStringVector("predictors") *)
}.

Record YAMLConfiguration : Type := mkYAMLConfiguration {
  getString_input_coeff_file : ext string;          (* getString("input coeff file") *)
  getSubConfigurations_output : ext (list LocalConfiguration)
}.

(** The collaborators of [main].  [makeObsBiasObject] writes through the
    ioda library and is kept as one call on the group just created. *)
Record World : Type := mkWorld {
  Group : Type;
  YAMLConfiguration_open : string → ext YAMLConfiguration;
  findTailIds : string → ext (list string);
  findDatetimes : string → ext (list Z);
  createFile : string → ext Group;
  makeObsBiasObject :
    Group → string → list string → list Z → list string → ext ()
}.

Section Main.

Context `{ReaderHeader}.

Definition predictorsError : string :=
  "Number of predictors specified in yaml must be " +:+ pretty gsi_npredictors
  +:+ " (same as number of predictors in GSI aircraft bias file)".

(** What [main] does once the predictors are read: the length check,
    then the output file and the bias object. *)
Definition checkAndWrite (w : World) (coeffile : string) (tailIds : list string)
    (lastCycleUpdatedYYYYMM : list Z) (output_filename : string)
    (predictors : list string) : result Z :=
  if decide (length predictors ≠ gsi_npredictors) then
    Fault (Exception (BadValue predictorsError))
  else
    group ← call (createFile w output_filename);
    _ ← call (makeObsBiasObject w group coeffile tailIds lastCycleUpdatedYYYYMM predictors);
    Ok 0.

Definition main (w : World) (argc : Z) (argv : list string) : result Z :=
  _ ← (if decide (2 ≤ argc) then Ok () else Fault (Exception AssertionFailed));
  configfile ← at_idx Argv_1 argv 1;
  config ← call (YAMLConfiguration_open w configfile);
  coeffile ← call (getString_input_coeff_file config);
  tailIds ← call (findTailIds w coeffile);
  lastCycleUpdatedYYYYMM ← call (findDatetimes w coeffile);
  configs ← call (getSubConfigurations_output config);
  config0 ← at_idx Configs_0 configs 0;
  output_filename ← call (getString_output_file config0);
  predictors ← call (getStringVector_predictors config0);
  checkAndWrite w coeffile tailIds lastCycleUpdatedYYYYMM output_filename predictors.

End Main.
End GsiAircraftBiasConverter.

(** ** What the filtered walk keeps

    Reference functions for the properties of [makeFilteredData]; they are
    not code of the program. *)

Module Filtering.

(** The values of one occurrence of the filtered sequence whose 1-based
    position is among the kept indices. *)
Definition keptOfOccurrence {A} (flt : list nat) (block : list A) : list A :=
  snd <$> base.filter (λ p, p.1 ∈ flt) (zip (seq 1 (length block)) block).

(** The values kept of a flat sequence made of consecutive occurrences of
    [counts] values each. *)
Fixpoint keptValues {A} (flt : list nat) (counts : list nat) (vs : list A) : list A :=
  match counts with
  | [] => []
  | c :: counts' =>
      keptOfOccurrence flt (take c vs) ++ keptValues flt counts' (drop c vs)
  end.

End Filtering.

(** ** The loop over the sequence path

    What the loop of [collectData] over the sequences of a path leaves in
    its variables, as functions of the path: reference functions for the
    properties of [collectField]. *)

Module PathLoop.
Import QueryRunner.
Section Defs.
Context `{Constants} `{Headers}.

(** The sequence components of a target: the components of its path after
    the subset, as many as [seqPath] has entries. *)
Definition seqComponents (targ : Target TypeInfo) : list TargetComponent :=
  take (length (seqPath targ)) (drop 1 (tpath targ)).

(** The counts recorded for one sequence component: the node's counts, or,
    under a filter, the filter's size for every occurrence. *)
Definition recordedCounts (lookupTable : nat → NodeData) (c : TargetComponent) : list Z :=
  match filter (queryComponent c) with
  | [] => counts (lookupTable (nodeId c))
  | flt => replicate (length (counts (lookupTable (nodeId c))))
             (Z.max (to_int (Z.of_nat (length flt))) 1)
  end.

(** The counts handed to the filtered walk for one sequence component. *)
Definition walkCounts (lookupTable : nat → NodeData) (c : TargetComponent) : list Z :=
  match filter (queryComponent c) with
  | [] => [1]
  | _ => counts (lookupTable (nodeId c))
  end.

Definition hasFilter (cs : list TargetComponent) : bool :=
  bool_decide (Exists (λ c, filter (queryComponent c) ≠ []) cs).

End Defs.
End PathLoop.

(** ** Resolution of the sub-queries

    The test and the values [findTargets] builds, named so that its
    properties can be stated. *)

Module Resolution.
Import QueryRunner.
Section Defs.
Context `{Constants} `{Headers}.

(** The test [findTargets] makes on the subset of a sub-query. *)
Definition matchesVariant (variant : SubsetVariant) (query : Query) : bool :=
  isAnySubset (subset query)
  || (bool_decide (qc_name (subset query) = variant.1)
      && bool_decide (qc_index (subset query) = variant.2)).

(** A sub-query that applies to the variant and whose path the table holds. *)
Definition resolves (table : SubsetTable) (variant : SubsetVariant) (query : Query) : bool :=
  matchesVariant variant query
  && bool_decide (is_Some (getNodeForPath table (path query))).

(** The target made for a name none of whose sub-queries resolves. *)
Definition unresolvedTarget (querySet_ : QuerySet) (fieldName : string) : Target TypeInfo :=
  {| name := fieldName;
     queryStr := default EmptyString (str <$> head (queriesFor querySet_ fieldName));
     nodeIdx := 0%nat;
     typeInfo := TypeInfo_default;
     longStrId := EmptyString;
     dimPaths := [Query_default];
     exportDimIdxs := [0];
     tpath := [];
     seqPath := [] |}.

(** The component [findTargets] makes for the subset of a found query. *)
Definition subsetComponent (table : SubsetTable) (foundQuery : Query) : TargetComponent :=
  {| queryComponent := subset foundQuery;
     nodeId := bn_nodeIdx (getRoot table);
     parentNodeId := 0%nat;
     parentDimensionNodeId := 0%nat;
     type := Subset;
     fixedRepeatCount := fixedRepeatCount TargetComponent_default |}.

(** The component made of a query component and the table node it names. *)
Definition nodeComponent (qc : QueryComponent) (node : BufrNode) : TargetComponent :=
  {| queryComponent := qc;
     nodeId := bn_nodeIdx node;
     parentNodeId := bn_parentNodeIdx node;
     parentDimensionNodeId := bn_dimensionParentNodeIdx node;
     type := bn_type node;
     fixedRepeatCount := bn_fixedRepCount node |}.

End Defs.
End Resolution.

(** ** Trailing whitespace

    Predicates for the properties of the trimming in [get]. *)

Module Trimming.

(** The last character of a string is one of [" \t\n\r\f\v"]. *)
Fixpoint ends_ws (s : string) : bool :=
  match s with
  | EmptyString => false
  | String c EmptyString => ResultSet.is_ws c
  | String _ s' => ends_ws s'
  end.

(** Every character of a string is one of [" \t\n\r\f\v"]. *)
Fixpoint all_ws (s : string) : bool :=
  match s with
  | EmptyString => true
  | String c s' => ResultSet.is_ws c && all_ws s'
  end.

End Trimming.

(** ** Rows filled up to the export width

    Reference functions for the padded block of [getRowsForField]; they
    are not code of the program. *)

Module RowPadding.

(** The destination positions of the values of consecutive occurrences,
    each occurrence starting [width] after the one before. *)
Fixpoint idxsFrom (width base : nat) (counts : list nat) : list nat :=
  match counts with
  | [] => []
  | c :: counts' => seq base c ++ idxsFrom width (base + width) counts'
  end.

(** The occurrences of a flat sequence, each filled up to [width] with
    [fill]. *)
Fixpoint padded {A} (width : nat) (fill : A) (counts : list nat) (vs : list A) : list A :=
  match counts with
  | [] => []
  | c :: counts' =>
      take c vs ++ replicate (width - c) fill ++ padded width fill counts' (drop c vs)
  end.

End RowPadding.

(** ** NcepDataProvider *)

Module NcepDataProvider.

(** [TableData]: the arrays of the schema table of one subset. *)
Record TableData : Type := mkTableData {
  isc : list Z;
  link : list Z;
  itp : list Z;
  typ : list Typ;
  tag : list string;
  jmpb : list Z
}.

(** What the Fortran interface hands out for the table the library holds:
    for [get_typ_f] and [get_tag_f] the [size] words of [strLen]
    characters. *)
Record BufrInterface : Type := mkBufrInterface {
  get_isc_f : list Z;
  get_link_f : list Z;
  get_itp_f : list Z;
  get_typ_f : list string;
  get_tag_f : list string;
  get_jmpb_f : list Z
}.

(** The members [updateTable] changes; a null [shared_ptr] is [None].
    The calls of [deleteData], of [DataProvider.h], are counted. *)
Record Provider : Type := mkProvider {
  tableCache_ : gmap string (option TableData);
  currentTableData_ : option TableData;
  deleteData_calls : nat
}.

(** [DataProvider.h] is not among the sources: the map from the type
    words to [Typ] and the three accessors of the condition are
    parameters. *)
Class Header : Type := {
  TypMap : string → option Typ;              (* TypMap.at(typ) throws on None *)
  getInode : Provider → Z;
  numTags : Provider → Z;
  getTag : Provider → Z → string
}.

(** The character [' ']. *)
Definition is_blank (c : Ascii.ascii) : bool :=
  bool_decide (Ascii.nat_of_ascii c = 32%nat).

(** [tag.substr(0, tag.find_first_of(' '))]. *)
Fixpoint before_space (s : string) : string :=
  match s with
  | EmptyString => EmptyString
  | String c s' =>
      if is_blank c then EmptyString else String c (before_space s')
  end.

(** A string holds a blank. *)
Fixpoint has_space (s : string) : bool :=
  match s with
  | EmptyString => false
  | String c s' => is_blank c || has_space s'
  end.

(** A string is empty or starts with a blank. *)
Definition at_blank (s : string) : bool :=
  match s with
  | EmptyString => true
  | String c _ => is_blank c
  end.

Section Provider.
Context `{Header}.

(** The table read through the interface. *)
Definition loadTable (f : BufrInterface) : result TableData :=
  typs ← mapM (M := result)
    (λ w, match TypMap w with
          | Some t => Ok t
          | None => Fault StdOutOfRange
          end) (get_typ_f f);
  Ok {| isc := get_isc_f f;
        link := get_link_f f;
        itp := get_itp_f f;
        typ := typs;
        tag := before_space <$> get_tag_f f;
        jmpb := get_jmpb_f f |}.

(** [updateTable(subset)].  [tableCache_[subset]] makes a null entry when
    the cache has none; the assignment inside the first condition leaves
    that entry in [currentTableData_].  An exception of [TypMap.at] ends
    the call with a fault; the state it leaves behind is not described. *)
Definition updateTable (f : BufrInterface) (subset : string) (p : Provider)
    : result Provider :=
  let entry := default None (tableCache_ p !! subset) in
  let p1 := {| tableCache_ := <[subset := entry]> (tableCache_ p);
               currentTableData_ := entry;
               deleteData_calls := deleteData_calls p |} in
  match entry with
  | Some _ => Ok p1
  | None =>
      if negb (bool_decide (is_Some (currentTableData_ p1)))
         || bool_decide (numTags p1 < getInode p1)
         || negb (bool_decide (getTag p1 (getInode p1) = subset))
      then
        table ← loadTable f;
        Ok {| tableCache_ := <[subset := Some table]> (tableCache_ p1);
              currentTableData_ := Some table;
              deleteData_calls := S (deleteData_calls p1) |}
      else
        Ok {| tableCache_ := <[subset := currentTableData_ p1]> (tableCache_ p1);
              currentTableData_ := currentTableData_ p1;
              deleteData_calls := deleteData_calls p1 |}
  end.

(** The provider moves on by one call of [updateTable], for any subset
    and any content of the library's table. *)
Inductive step : Provider → Provider → Prop :=
  | step_updateTable f subset p p' :
      updateTable f subset p = Ok p' → step p p'.

End Provider.
End NcepDataProvider.

(** ** makeObsBiasObject *)

Module GsiAircraftBiasObject.
Import GsiAircraftBiasConverter.

(** The unchecked accesses of [makeObsBiasObject]. *)
Inductive unchecked : Set :=
  | Dates_itime (itime : nat)      (* lastCycleUpdatedYYYYMM[itime] *)
  | Predictors_i (i : nat)         (* predictors[i] *)
  | Biascoeffs_col (c : nat).      (* biascoeffs.col(c) *)

(** How a run ends: with a value, at an access outside its container
    (undefined behaviour in C++) or with an exception of a collaborator. *)
Inductive outcome (A : Type) : Type :=
  | Done (a : A)
  | OutOfBounds (u : unchecked)
  | Thrown (what : string).
Arguments Done {A} a.
Arguments OutOfBounds {A} u.
Arguments Thrown {A} what.

#[global] Instance outcome_ret : MRet outcome := fun _ a => Done a.
#[global] Instance outcome_bind : MBind outcome := fun _ _ k m =>
  match m with
  | Done a => k a
  | OutOfBounds u => OutOfBounds u
  | Thrown what => Thrown what
  end.
#[global] Instance outcome_fmap : FMap outcome := fun _ _ g m =>
  match m with
  | Done a => Done (g a)
  | OutOfBounds u => OutOfBounds u
  | Thrown what => Thrown what
  end.

Definition called {A} (e : ext A) : outcome A :=
  match e with
  | Returned a => Done a
  | Raised what => Thrown what
  end.

Definition elem {A} (u : unchecked) (v : list A) (i : nat) : outcome A :=
  match v !! i with
  | Some x => Done x
  | None => OutOfBounds u
  end.

(** What the function writes into the group: the variables by name.  The
    columns of [biascoeffs] hold [numIds] single-precision values each;
    the function only copies them, and they stand here as kernel floats. *)
Record ObsGroup : Type := mkObsGroup {
  stationIdentification : list string;
  Variables : list string;
  lastUpdateTime : list Z;
  BiasCoefficients : list (string * list double);       (* by predictor *)
  BiasCoefficientErrors : list (string * list double);  (* by predictor *)
  numberObservationsUsed : list double
}.

(** The collaborators: [util::DateTime] with the difference to the
    reference time in seconds, and the coefficient reader, which is given
    an array of [rows] by [cols] and returns its columns. *)
Record Library : Type := mkLibrary {
  secondsSince1970 : Z → Z → ext Z;
    (* (DateTime(year, month, 1, 0, 0, 0) - refTime).toSeconds() *)
  readObsBiasCoefficients : string → nat → nat → ext (list (list double))
}.

(** [makeObsBiasObject].  The calls that create and write the variables
    are taken to succeed. *)
Definition makeObsBiasObject (lib : Library) (coeffile : string)
    (tailIds : list string) (lastCycleUpdatedYYYYMM : list Z)
    (predictors : list string) : outcome ObsGroup :=
  let numPreds := length predictors in
  let numIds := length tailIds in
  lastCycleUpdated ← mapM (M := outcome)
    (λ itime,
       v ← elem (Dates_itime itime) lastCycleUpdatedYYYYMM itime;
       let year := Z.quot v 100 in
       let month := Z.rem v 100 in
       called (secondsSince1970 lib year month))
    (seq 0 numIds);
  biascoeffs ← called (readObsBiasCoefficients lib coeffile numIds (numPreds * 3));
  vars ← mapM (M := outcome)
    (λ i,
       subVar ← elem (Biascoeffs_col i) biascoeffs i;
       predictor ← elem (Predictors_i i) predictors i;
       subVarBkgError ← elem (Biascoeffs_col (i + 6)) biascoeffs (i + 6);
       Done ((predictor, subVar), (predictor, subVarBkgError)))
    (seq 0 numPreds);
  numObs ← elem (Biascoeffs_col 3) biascoeffs 3;
  Done {| stationIdentification := tailIds;
          Variables := ["airTemperature"];
          lastUpdateTime := lastCycleUpdated;
          BiasCoefficients := fst <$> vars;
          BiasCoefficientErrors := snd <$> vars;
          numberObservationsUsed := numObs |}.

End GsiAircraftBiasObject.

(** ** Concrete inputs *)

Module Scenarios.

#[export] Instance constants : Constants := {| MissingValue := 1e11%float |}.

Definition anyComponent : QueryComponent := mkQueryComponent EmptyString 0 false [].
Definition noQuery : Query := mkQuery anyComponent [] EmptyString.

(** The type-info of the scenarios only says whether the field is a long
    string; [setPath] stores the components and takes the nodes between
    the subset and the leaf as the sequence path. *)
#[export] Instance headers : QueryRunner.Headers :=
  {| QueryRunner.TypeInfo := bool;
     QueryRunner.TypeInfo_default := false;
     QueryRunner.isLongString := λ b, b;
     QueryRunner.DataVector_default := Doubles [];
     QueryRunner.Query_default := noQuery;
     QueryRunner.TargetComponent_default :=
       mkTargetComponent anyComponent 0 0 0 Subset 1;
     QueryRunner.setPath := λ p t,
       QueryRunner.mkTarget (QueryRunner.name t) (QueryRunner.queryStr t)
         (QueryRunner.nodeIdx t) (QueryRunner.typeInfo t) (QueryRunner.longStrId t)
         (QueryRunner.dimPaths t) (QueryRunner.exportDimIdxs t) p
         (nodeId <$> drop 1 (removelast p)) |}.

(** A subset [NC001001] whose sequence [SEQA] (node 2) repeats, holding
    the sequence [SEQB] (node 3) with the leaf [TMDB] (node 4). *)
Definition seqA (flt : list nat) : TargetComponent :=
  mkTargetComponent (mkQueryComponent "SEQA" 0 false flt) 2 1 1 DelayedRep 1.
Definition seqB (flt : list nat) : TargetComponent :=
  mkTargetComponent (mkQueryComponent "SEQB" 0 false flt) 3 2 2 DelayedRep 1.
Definition root : TargetComponent :=
  mkTargetComponent (mkQueryComponent "NC001001" 0 false []) 1 0 0 Subset 1.
Definition leafTMDB (flt : list nat) : TargetComponent :=
  mkTargetComponent (mkQueryComponent "TMDB" 0 false flt) 4 3 3 Number 1.

Definition nested (fltA fltB fltLeaf : list nat) : QueryRunner.Target bool :=
  QueryRunner.mkTarget "temperature" "*/SEQA/SEQB/TMDB" 4 false "TMDB#1" [] [0; 1; 2]
    [root; seqA fltA; seqB fltB; leafTMDB fltLeaf] [2; 3]%nat.

(** A message with two occurrences of [SEQA], each with three of [SEQB]. *)
Definition message_2x3 (node : nat) : NodeData :=
  match node with
  | 2%nat => mkNodeData [2] (Doubles [])
  | 3%nat => mkNodeData [3; 3] (Doubles [])
  | 4%nat => mkNodeData [3; 3] (Doubles [10; 11; 12; 20; 21; 22]%float)
  | _ => mkNodeData [] (Doubles [])
  end.

(** A message with two occurrences of [SEQA], each with one of [SEQB]. *)
Definition message_2x1 (node : nat) : NodeData :=
  match node with
  | 2%nat => mkNodeData [2] (Doubles [])
  | 3%nat => mkNodeData [1; 1] (Doubles [])
  | 4%nat => mkNodeData [1; 1] (Doubles [10; 20]%float)
  | _ => mkNodeData [] (Doubles [])
  end.

(** A field name that resolves nowhere. *)
Definition absent : QueryRunner.Target bool :=
  QueryRunner.mkTarget "pressure" "*/PRLC" 0 false EmptyString [noQuery] [0] [] [].

(** The schema table of [NC001001]: the path SEQA/SEQB/TMDB resolves, no
    other does. *)
Definition node (idx parent : nat) (typ : Typ) (mnemonic : string) : QueryRunner.BufrNode :=
  QueryRunner.mkBufrNode idx parent parent typ 1 false mnemonic 1.

Definition table : QueryRunner.SubsetTable :=
  QueryRunner.mkSubsetTable
    (λ p, if bool_decide (qc_name <$> p = ["SEQA"; "SEQB"; "TMDB"])
          then Some (node 4 3 Number "TMDB") else None)
    (node 1 0 Subset "NC001001")
    (λ _, [node 1 0 Subset "NC001001"; node 2 1 DelayedRep "SEQA";
           node 3 2 DelayedRep "SEQB"; node 4 3 Number "TMDB"]).

Definition querySet : QueryRunner.QuerySet :=
  QueryRunner.mkQuerySet ["temperature"; "pressure"]
    (λ n, if bool_decide (n = "temperature")
          then [mkQuery (mkQueryComponent "*" 0 true [])
                  [mkQueryComponent "SEQA" 0 false []; mkQueryComponent "SEQB" 0 false [];
                   mkQueryComponent "TMDB" 0 false []] "*/SEQA/SEQB/TMDB"]
          else [mkQuery (mkQueryComponent "*" 0 true [])
                  [mkQueryComponent "PRLC" 0 false []] "*/PRLC"]).

(** Two messages of the variant [NC001001], and one of another variant. *)
Definition message1 : QueryRunner.DataProvider :=
  QueryRunner.mkDataProvider ("NC001001", 0%nat) table (λ _, message_2x3).
Definition message2 : QueryRunner.DataProvider :=
  QueryRunner.mkDataProvider ("NC001001", 0%nat) table (λ _, message_2x1).
Definition message3 : QueryRunner.DataProvider :=
  QueryRunner.mkDataProvider ("NC002001", 0%nat) table (λ _, message_2x1).

Definition runner0 : QueryRunner.Runner :=
  QueryRunner.mkRunner ∅ ["temperature"; "pressure"] [] [].

(** The first resolution of [NC001001], and the runner one message of the
    other variant later. *)
Definition resolvedRunner : QueryRunner.Runner :=
  match QueryRunner.findTargets querySet message1 runner0 [] with
  | Ok (r, _) => r
  | Fault _ => runner0
  end.
Definition resolvedTargets : list (QueryRunner.Target bool) :=
  match QueryRunner.findTargets querySet message1 runner0 [] with
  | Ok (_, found) => found
  | Fault _ => []
  end.
Definition laterRunner : QueryRunner.Runner :=
  match QueryRunner.accumulate querySet message3 resolvedRunner with
  | Ok r => r
  | Fault _ => resolvedRunner
  end.

(** *** Frames of the result set *)

(** A field, and the frame made of it alone, holding [values] with the
    count tree [counts] below the root level. *)
Definition fieldOf (values : list double) (counts : SeqCounts) : ResultSet.DataField :=
  ResultSet.mkDataField values ([1] :: counts) ["*"; "*/SEQA"] [0; 1] false "K".

Definition frameOf (values : list double) (counts : SeqCounts) : ResultSet.DataFrame :=
  ResultSet.mkDataFrame [fieldOf values counts].

(** The same frame with the count tree as given, without a root level. *)
Definition bareFrameOf (values : list double) (counts : SeqCounts) : ResultSet.DataFrame :=
  ResultSet.mkDataFrame
    [ResultSet.mkDataField values counts ["*/SEQA"] [0] false "K"].

(** A frame with a target field nested two levels deep and a group-by
    field at the first level. *)
Definition groupedFrame (values : list double) : ResultSet.DataFrame :=
  ResultSet.mkDataFrame
    [ResultSet.mkDataField values [[1]; [2]; [2; 2]] ["*"; "*/SEQA"; "*/SEQA/SEQB"]
       [0; 1; 2] false "K";
     ResultSet.mkDataField [1; 2]%float [[1]; [2]] ["*"; "*/SEQA"] [0; 1] false "NUMERIC"].

(** The field index of the scenarios: the group-by field [groupId] is the
    second field of a frame, every other name the first. *)
#[export] Instance frameHeaders : ResultSet.Headers :=
  {| ResultSet.fieldIndexForNodeNamed := λ _ n, if bool_decide (n = "groupId") then 1 else 0 |}.

(** Three frames with 3, 5 and 2 occurrences, and the object [get] makes
    of them. *)
Definition paddedFrames : list ResultSet.DataFrame :=
  [frameOf [1; 2; 3]%float [[3]]; frameOf [4; 5; 6; 7; 8]%float [[5]];
   frameOf [9; 10]%float [[2]]].

Definition paddedObject : ResultSet.DataObject :=
  match ResultSet.get paddedFrames "temperature" "" with
  | Ok object => object
  | Fault _ => ResultSet.mkDataObject ResultSet.StringElements [] 0%float [] "" "" []
  end.

(** *** A run of the coefficient converter *)

#[export] Instance reader : GsiAircraftBiasConverter.ReaderHeader :=
  {| GsiAircraftBiasConverter.gsi_npredictors := 6 |}.

Definition sixPredictors : list string :=
  ["constant"; "ascent"; "ascentSquared"; "p4"; "p5"; "p6"].

Definition outputConfig (predictors : list string)
    : GsiAircraftBiasConverter.LocalConfiguration :=
  GsiAircraftBiasConverter.mkLocalConfiguration
    (GsiAircraftBiasConverter.Returned "abias.nc4")
    (GsiAircraftBiasConverter.Returned predictors).

Definition yaml (predictors : list string) : GsiAircraftBiasConverter.YAMLConfiguration :=
  GsiAircraftBiasConverter.mkYAMLConfiguration
    (GsiAircraftBiasConverter.Returned "abias_air")
    (GsiAircraftBiasConverter.Returned [outputConfig predictors]).

(** A world in which every collaborator returns; the group of a file is
    its name. *)
Definition world (predictors : list string) : GsiAircraftBiasConverter.World :=
  GsiAircraftBiasConverter.mkWorld string
    (λ _, GsiAircraftBiasConverter.Returned (yaml predictors))
    (λ _, GsiAircraftBiasConverter.Returned ["TAIL0001"; "TAIL0002"])
    (λ _, GsiAircraftBiasConverter.Returned [202301; 202302])
    (λ file, GsiAircraftBiasConverter.Returned file)
    (λ _ _ _ _ _, GsiAircraftBiasConverter.Returned ()).




(** Two grouped frames and what the scan over them finds. *)
Definition groupedFrames : list ResultSet.DataFrame :=
  [groupedFrame [1; 2; 3; 4]%float; groupedFrame [5; 6; 7; 8]%float].

Definition groupedScan : ResultSet.scanState :=
  match ResultSet.scanFrames groupedFrames "temperature" "groupId" with
  | Ok s => s
  | Fault _ => ResultSet.mkScanState [] [] [] 0 0
  end.

End Scenarios.

(** ** Further inputs *)

Module Examples.
Import Scenarios.

(** The sub-queries of the scenarios' query set. *)
Definition temperatureQuery : Query :=
  mkQuery (mkQueryComponent "*" 0 true [])
    [mkQueryComponent "SEQA" 0 false []; mkQueryComponent "SEQB" 0 false [];
     mkQueryComponent "TMDB" 0 false []] "*/SEQA/SEQB/TMDB".
Definition pressureQuery : Query :=
  mkQuery (mkQueryComponent "*" 0 true []) [mkQueryComponent "PRLC" 0 false []] "*/PRLC".

(** A query set that only asks for the pressure, which the table of
    [NC001001] does not hold. *)
Definition pressureOnly : QueryRunner.QuerySet :=
  QueryRunner.mkQuerySet ["pressure"] (λ _, [pressureQuery]).

(** The field collected for the temperature with the second occurrence of
    [SEQB] kept. *)
Definition secondOfSEQB : QueryRunner.DataField :=
  match QueryRunner.collectField message_2x3 (nested [] [2%nat] []) QueryRunner.DataField_new with
  | Ok field => field
  | Fault _ => QueryRunner.DataField_new
  end.

End Examples.

Module DenseExamples.
Import Scenarios.

(** A frame whose target field is marked missing. *)
Definition missingFrame : ResultSet.DataFrame :=
  ResultSet.mkDataFrame [ResultSet.mkDataField [7%float] [[1]] ["*"] [0] true "K"].

(** A frame whose dimension paths end in blanks, and the object [get]
    makes of it. *)
Definition spacedFrames : list ResultSet.DataFrame :=
  [ResultSet.mkDataFrame
     [ResultSet.mkDataField [1; 2]%float [[1]; [2]] ["* "; "*/SEQA  "] [0; 1] false "K"]].

Definition spacedObject : ResultSet.DataObject :=
  match ResultSet.get spacedFrames "temperature" "" with
  | Ok object => object
  | Fault _ => ResultSet.mkDataObject ResultSet.StringElements [] 0%float [] "" "" []
  end.

(** The shape of one of the three frames with 3, 5 and 2 occurrences. *)
Definition paddedShape : ResultSet.frameShape :=
  ResultSet.mkFrameShape [1; 5] [1; 5] [0; 1] ["*"; "*/SEQA"] 0.

End DenseExamples.

Module PaddingExamples.

(** A field nested two sequences deep, with two occurrences of the outer
    sequence holding two and one occurrences of the inner one. *)
Definition raggedField : ResultSet.DataField :=
  ResultSet.mkDataField [1; 2; 3]%float [[1]; [2]; [2; 1]]
    ["*"; "*/SEQA"; "*/SEQA/SEQB"] [0; 1; 2] false "K".

End PaddingExamples.

Module ProviderExamples.
Import NcepDataProvider.

(** An instance for the examples: three type words, and accessors that
    read the current table. *)
#[export] Instance ncepHeader : Header :=
  {| TypMap := λ w,
       if bool_decide (w = "SUB") then Some Subset
       else if bool_decide (w = "DRP") then Some DelayedRep
       else if bool_decide (w = "NUM") then Some Number
       else None;
     getInode := λ _, 1;
     numTags := λ p, Z.of_nat (length (default [] (tag <$> currentTableData_ p)));
     getTag := λ p i, default EmptyString
                        (default [] (tag <$> currentTableData_ p) !! Z.to_nat (i - 1)) |}.

(** The table of [NC001001] as the library hands it out, and a later
    state of the library with another table. *)
Definition libraryTable : BufrInterface :=
  mkBufrInterface [1; 2; 3] [0; 0; 0] [0; 0; 2] ["SUB"; "DRP"; "NUM"]
    ["NC001001  "; "SEQA      "; "TMDB      "] [0; 1; 2].
Definition otherTable : BufrInterface :=
  mkBufrInterface [1; 2] [0; 0] [0; 2] ["SUB"; "NUM"]
    ["NC002001  "; "PRLC      "] [0; 1].
Definition brokenTable : BufrInterface :=
  mkBufrInterface [1; 2] [0; 0] [0; 2] ["SUB"; "XYZ"]
    ["NC003001  "; "PRLC      "] [0; 1].

Definition loaded : TableData :=
  mkTableData [1; 2; 3] [0; 0; 0] [0; 0; 2] [Subset; DelayedRep; Number]
    ["NC001001"; "SEQA"; "TMDB"] [0; 1; 2].
Definition otherLoaded : TableData :=
  mkTableData [1; 2] [0; 0] [0; 2] [Subset; Number] ["NC002001"; "PRLC"] [0; 1].

Definition provider0 : Provider := mkProvider ∅ None 0.
Definition provider1 : Provider :=
  mkProvider (<["NC001001" := Some loaded]> ∅) (Some loaded) 1.
Definition provider2 : Provider :=
  mkProvider (<["NC002001" := Some otherLoaded]> (<["NC001001" := Some loaded]> ∅))
    (Some otherLoaded) 2.

End ProviderExamples.

Module BiasExamples.
Import GsiAircraftBiasConverter GsiAircraftBiasObject.

(** A library whose dates count months of thirty days and whose reader
    fills column [c] of the array with the value [c]. *)
Definition monthsOf30Days (year month : Z) : Z :=
  ((year - 1970) * 12 + (month - 1)) * 30 * 86400.

Definition columns (rows cols : nat) : list (list double) :=
  (λ c, replicate rows
          (default 0%float ([0; 1; 2; 3; 4; 5; 6; 7; 8; 9; 10; 11]%float !! c)))
    <$> seq 0 cols.

Definition library : Library :=
  mkLibrary (λ year month, Returned (monthsOf30Days year month))
    (λ _ rows cols, Returned (columns rows cols)).

Definition secondsOf (yyyymm : Z) : Z :=
  monthsOf30Days (Z.quot yyyymm 100) (Z.rem yyyymm 100).

Definition fourPredictors : list string := ["constant"; "ascent"; "ascentSquared"; "p4"].

Definition fourPredictorGroup : ObsGroup :=
  match makeObsBiasObject library "abias_air" ["TAIL0001"; "TAIL0002"] [202301; 202302]
          fourPredictors with
  | Done group => group
  | _ => mkObsGroup [] [] [] [] [] []
  end.

End BiasExamples.

(** * Properties *)

(** ** Loops and outcomes *)

Lemma bind_Ok {A B} (m : result A) (k : A → result B) b :
  m ≫= k = Ok b → ∃ a, m = Ok a ∧ k a = Ok b.
Proof. destruct m as [a|f]; simpl; [eauto | discriminate]. Qed.

Lemma bind_Ok_l {A B} (a : A) (k : A → result B) : Ok a ≫= k = k a.
Proof. reflexivity. Qed.

Lemma at_idx_Ok {A} a (v : list A) i x : at_idx a v i = Ok x ↔ v !! i = Some x.
Proof. unfold at_idx. destruct (v !! i); split; intros E; by inversion E. Qed.

Lemma at_idx_Fault {A} a (v : list A) i f : at_idx a v i = Fault f → f = OutOfRange a.
Proof. unfold at_idx. destruct (v !! i); intros E; by inversion E. Qed.

Lemma forM_cons {A S} x (l : list A) (body : A → S → result S) s :
  forM (x :: l) body s = body x s ≫= forM l body.
Proof. simpl. destruct (body x s); reflexivity. Qed.

Lemma forM_app {A S} (l1 l2 : list A) (body : A → S → result S) s :
  forM (l1 ++ l2) body s = forM l1 body s ≫= forM l2 body.
Proof.
  revert s. induction l1 as [|x l1 IH]; intros s; simpl.
  - reflexivity.
  - destruct (body x s); simpl; [apply IH | reflexivity].
Qed.

(** A loop stops with a fault only when its body does. *)
Lemma forM_Fault {A S} (l : list A) (body : A → S → result S) s f :
  forM l body s = Fault f → ∃ x s', x ∈ l ∧ body x s' = Fault f.
Proof.
  revert s. induction l as [|x l IH]; intros s Hrun; [discriminate|].
  simpl in Hrun. destruct (body x s) as [s1|f1] eqn:E.
  - destruct (IH _ Hrun) as (y & s' & Hy & Hbody). exists y, s'. split; [|done].
    by apply list_elem_of_further.
  - inversion Hrun; subst f1. exists x, s. split; [apply list_elem_of_here|done].
Qed.

Lemma bind_Fault {A B} (m : result A) (k : A → result B) f :
  m ≫= k = Fault f → m = Fault f ∨ ∃ a, m = Ok a ∧ k a = Fault f.
Proof. destruct m as [a|f1]; intros E; [eauto|]. left. by inversion E. Qed.

(** A quantity that every iteration raises by [k x] is raised by the loop by
    the sum of the [k x]. *)
Lemma forM_measure {A S} (mu : S → nat) (k : A → nat) (l : list A)
  (body : A → S → result S) :
  (∀ x s s', body x s = Ok s' → mu s' = (mu s + k x)%nat) →
  ∀ s s', forM l body s = Ok s' → mu s' = (mu s + sum_list (k <$> l))%nat.
Proof.
  intros Hbody. induction l as [|x l IH]; intros s s' Hrun.
  - inversion Hrun. simpl. lia.
  - rewrite forM_cons in Hrun. apply bind_Ok in Hrun as (s1 & E & Hrun).
  apply Hbody in E. apply IH in Hrun. csimpl. lia.
Qed.

Lemma sum_list_const {A} (l : list A) (v : nat) :
  sum_list ((λ _, v) <$> l) = (length l * v)%nat.
Proof. induction l as [|x l IH]; csimpl; lia. Qed.

Lemma sum_list_scaled {A} (f : A → nat) (l : list A) (v : nat) :
  sum_list ((λ x, f x * v)%nat <$> l) = (sum_list (f <$> l) * v)%nat.
Proof. induction l as [|x l IH]; csimpl; lia. Qed.

(** ** The query runner *)

Module QueryRunnerProofs.
Import QueryRunner.

Section Proofs.

Context `{Constants} `{Headers}.

Lemma leaf_offset srcData st skipResult st' :
  leaf srcData st skipResult = Ok st' → st'.2 = S st.2.
Proof.
  destruct st as [d off]. unfold leaf. intros Hl.
  apply bind_Ok in Hl as (d' & _ & Hd). by inversion Hd.
Qed.

Lemma _makeFilteredData_S fuel srcData origCounts filters st depth skipResult :
  _makeFilteredData (S fuel) srcData origCounts filters st depth skipResult =
  if decide (to_size_t (Z.of_nat (length origCounts) - 1) < Z.of_nat depth)
  then leaf srcData st skipResult
  else
    layerCounts ← at_idx OrigCounts_depth origCounts depth;
    layerFilter ← at_idx Filters_depth filters depth;
    match layerFilter with
    | [] =>
        forM layerCounts
          (λ _ st, _makeFilteredData fuel srcData origCounts filters st
                     (depth + 1) skipResult) st
    | _ :: _ =>
        forM layerCounts
          (λ c st,
             occ ← occurrences c;
             forM occ
               (λ count st,
                  let skip :=
                    if negb skipResult then bool_decide (count ∉ layerFilter)
                    else skipResult in
                  _makeFilteredData fuel srcData origCounts filters st
                    (depth + 1) skip) st) st
    end.
Proof. reflexivity. Qed.

Lemma leafVisits_S fuel origCounts filters depth :
  leafVisits (S fuel) origCounts filters depth =
  if decide (to_size_t (Z.of_nat (length origCounts) - 1) < Z.of_nat depth)
  then 1%nat
  else
    match origCounts !! depth, filters !! depth with
    | Some layerCounts, Some [] =>
        (length layerCounts * leafVisits fuel origCounts filters (depth + 1))%nat
    | Some layerCounts, Some (_ :: _) =>
        (sum_list ((λ c, Z.to_nat (to_size_t c)) <$> layerCounts)
         * leafVisits fuel origCounts filters (depth + 1))%nat
    | _, _ => 0%nat
    end.
Proof. reflexivity. Qed.

(** The offset moves once per leaf visited, whatever is skipped: it ends
    [leafVisits] past where it started, for every filter content. *)
Lemma _makeFilteredData_offset fuel srcData origCounts filters :
  ∀ st depth skipResult st',
    _makeFilteredData fuel srcData origCounts filters st depth skipResult = Ok st' →
    st'.2 = (st.2 + leafVisits fuel origCounts filters depth)%nat.
Proof.
  induction fuel as [|fuel IH]; intros st depth skipResult st'; [discriminate|].
  rewrite _makeFilteredData_S, leafVisits_S. case_decide.
  - intros Hl%leaf_offset. lia.
  - intros Hrun.
    apply bind_Ok in Hrun as (layerCounts & ->%at_idx_Ok & Hrun).
    apply bind_Ok in Hrun as (layerFilter & ->%at_idx_Ok & Hrun).
    destruct layerFilter as [|i layerFilter].
    + eapply (forM_measure snd (λ _, leafVisits fuel origCounts filters (depth + 1)))
        in Hrun; [|intros ? ? ? Hx; exact (IH _ _ _ _ Hx)].
      by rewrite sum_list_const in Hrun.
    + eapply (forM_measure snd
                (λ c, Z.to_nat (to_size_t c)
                      * leafVisits fuel origCounts filters (depth + 1))%nat)
        in Hrun.
      * by rewrite sum_list_scaled in Hrun.
      * intros c s s' Hc. apply bind_Ok in Hc as (occ & Hocc & Hc).
        unfold occurrences in Hocc. case_decide; [discriminate|].
        inversion Hocc; subst occ; clear Hocc.
        eapply (forM_measure snd (λ _, leafVisits fuel origCounts filters (depth + 1)))
          in Hc; [|intros ? ? ? Hx; exact (IH _ _ _ _ Hx)].
        rewrite sum_list_const, length_seq in Hc. done.
Qed.

(** The recursion budget [makeFilteredData] starts with is enough: the walk
    descends one level per call and stops below the last layer. *)
Lemma _makeFilteredData_fuel srcData origCounts filters fuel :
  ∀ st depth skipResult,
    (depth ≤ length origCounts < fuel + depth)%nat →
    _makeFilteredData fuel srcData origCounts filters st depth skipResult
    ≠ Fault OutOfFuel.
Proof.
  induction fuel as [|fuel IH]; intros st depth skipResult Hfuel; [lia|].
  rewrite _makeFilteredData_S. case_decide as Hleaf.
  - destruct st as [d off]. unfold leaf. intros E.
    apply bind_Fault in E as [E|(d' & _ & E)]; [|discriminate].
    destruct skipResult, d, srcData; simpl in E; try discriminate.
    all: apply bind_Fault in E as [E|(x & _ & E)]; [|discriminate].
    all: by apply at_idx_Fault in E.
  - intros E.
    apply bind_Fault in E as [E|(layerCounts & Hlc%at_idx_Ok & E)];
      [by apply at_idx_Fault in E|].
    apply bind_Fault in E as [E|(layerFilter & _ & E)];
      [by apply at_idx_Fault in E|].
    apply lookup_lt_Some in Hlc.
    destruct layerFilter as [|i layerFilter].
    + apply forM_Fault in E as (c & s' & _ & E). revert E. apply IH. lia.
    + apply forM_Fault in E as (c & s' & _ & E).
      apply bind_Fault in E as [E|(occ & _ & E)].
      { unfold occurrences in E. case_decide; discriminate. }
      apply forM_Fault in E as (count & s'' & _ & E). revert E. apply IH. lia.
Qed.

Lemma makeFilteredData_walk_fuel srcData origCounts filters :
  makeFilteredData_walk srcData origCounts filters ≠ Fault OutOfFuel.
Proof.
  unfold makeFilteredData_walk. intros E.
  apply bind_Fault in E as [E|(u & _ & E)]; [case_decide; discriminate|].
  apply bind_Fault in E as [E|(u' & _ & E)];
    [unfold reserve in E; case_decide; discriminate|].
  revert E. apply _makeFilteredData_fuel. lia.
Qed.

(** *** Collection into a frame *)

(** The loop over the targets fills the fields of its range and leaves
    the others as they were. *)
Lemma collectData_loop lookupTable (targets : Targets) m :
  ∀ k (fr fr' : list DataField),
    forM (seq k m)
      (λ targetIdx dataFrame,
         targ ← targets_at targets targetIdx;
         dataField ← at_idx FieldAtIdx dataFrame targetIdx;
         dataField' ← collectField lookupTable targ dataField;
         Ok (<[targetIdx := dataField']> dataFrame)) fr = Ok fr' →
    length fr' = length fr
    ∧ (∀ i, (i < k ∨ k + m ≤ i)%nat → fr' !! i = fr !! i)
    ∧ (∀ i targ, (k ≤ i < k + m)%nat → targets !! i = Some targ →
         ∃ df0 df, fr !! i = Some df0
                   ∧ collectField lookupTable targ df0 = Ok df
                   ∧ fr' !! i = Some df).
Proof.
  induction m as [|m IH]; intros k fr fr' Hrun.
  - inversion Hrun; subst. split; [done|]. split; [done|]. intros; lia.
  - rewrite <- cons_seq, forM_cons in Hrun.
    apply bind_Ok in Hrun as (fr1 & Hbody & Hrun).
    apply bind_Ok in Hbody as (targ & Htarg & Hbody).
    apply bind_Ok in Hbody as (df0 & Hdf0%at_idx_Ok & Hbody).
    apply bind_Ok in Hbody as (df & Hdf & Hbody).
    inversion Hbody; subst fr1; clear Hbody.
    unfold targets_at in Htarg.
    destruct (targets !! k) as [t|] eqn:Ek; inversion Htarg; subst t; clear Htarg.
    apply IH in Hrun as (Hlen & Hout & Hin).
    rewrite length_insert in Hlen.
    assert (k < length fr)%nat as Hk by (by eapply lookup_lt_Some).
    split; [done|]. split.
    + intros i Hi. rewrite Hout by lia. apply list_lookup_insert_ne. lia.
    + intros i targ' Hi Hti. destruct (decide (i = k)) as [->|Hne].
      * rewrite Ek in Hti. inversion Hti; subst targ'.
        exists df0, df. split; [done|]. split; [done|].
        rewrite Hout by lia. by apply list_lookup_insert_eq.
      * destruct (Hin i targ') as (d0 & d & Hd0 & Hc & Hd); [lia|done|].
        rewrite list_lookup_insert_ne in Hd0 by lia. eauto.
Qed.

(** When [collectData] returns, the new frame holds, for each target, the
    field [collectField] makes of a fresh field. *)
Lemma collectData_frame lookupTable (targets : Targets) nnames
    (frames frames' : list (list DataField)) :
  collectData lookupTable targets nnames frames = Ok frames' →
  ∃ frame', frames' = frames ++ [frame']
    ∧ length frame' = nnames
    ∧ ∀ i targ, targets !! i = Some targ →
        ∃ df, collectField lookupTable targ DataField_new = Ok df
              ∧ frame' !! i = Some df.
Proof.
  unfold collectData, nextDataFrame. intros Hrun.
  apply bind_Ok in Hrun as (frame' & Hloop & Hret). inversion Hret; subst frames'.
  apply collectData_loop in Hloop as (Hlen & _ & Hin).
  exists frame'. rewrite length_replicate in Hlen. split; [done|]. split; [done|].
  intros i targ Hi.
  destruct (Hin i targ) as (d0 & d & Hd0 & Hc & Hd);
    [split; [lia | by eapply lookup_lt_Some] | done |].
  apply lookup_replicate in Hd0 as [-> _]. eauto.
Qed.

(** C5. A sentinel target (node id 0) that is not a long string gives, in
    every message, a data field with exactly one missing value and the
    count tree [[1]]: [collectField] returns it for a fresh field, and it
    is the field of that target in the frame [collectData] appends.  The
    fresh field's variant holds doubles, so that [boost::get] on it does
    not throw. *)
Theorem collectData_sentinel lookupTable (targ : Target TypeInfo) v :
  nodeIdx targ = 0%nat →
  isLongString (typeInfo targ) = false →
  DataVector_default = Doubles v →
  let sentinelField :=
    {| target := Some targ; fdata := Doubles [MissingValue]; seqCounts := [[1]] |} in
  collectField lookupTable targ DataField_new = Ok sentinelField
  ∧ ∀ (targets : Targets) nnames frames frames' i,
      targets !! i = Some targ →
      collectData lookupTable targets nnames frames = Ok frames' →
      ∃ frame', frames' = frames ++ [frame'] ∧ frame' !! i = Some sentinelField.
Proof.
  intros Hnode Hlong Hdef sentinelField.
  assert (collectField lookupTable targ DataField_new = Ok sentinelField) as Hfield.
  { unfold collectField. rewrite decide_True by done.
    rewrite Hlong. unfold DataField_new; simpl. by rewrite Hdef. }
  split; [done|].
  intros targets nnames frames frames' i Hi Hrun.
  apply collectData_frame in Hrun as (frame' & -> & _ & Hall).
  destruct (Hall i targ Hi) as (df & Hdf & Hlook).
  rewrite Hfield in Hdf. inversion Hdf; subst df. eauto.
Qed.

(** The count tree [collectField] records is never empty. *)
Lemma collectField_seqCounts_nonempty lookupTable (targ : Target TypeInfo) df0 df :
  collectField lookupTable targ df0 = Ok df → seqCounts df ≠ [].
Proof.
  unfold collectField. case_decide.
  - intros Hrun. apply bind_Ok in Hrun as (d & _ & Hret). by inversion Hret.
  - intros Hrun. apply bind_Ok in Hrun as (s & Hloop & Hrun).
    apply bind_Ok in Hrun as (c & _ & Hrun).
    apply bind_Ok in Hrun as (d & _ & Hret). inversion Hret; subst df; simpl.
    assert (∀ l k (s0 s1 : pathState),
              forM (seq k l) (pathStep lookupTable targ) s0 = Ok s1 →
              length (ps_seqCounts s1) = length (ps_seqCounts s0)) as Hlen.
    { clear. induction l as [|l IH]; intros k s0 s1 Hrun.
      - by inversion Hrun.
      - rewrite <- cons_seq, forM_cons in Hrun.
        apply bind_Ok in Hrun as (s' & Hstep & Hrun). apply IH in Hrun. rewrite Hrun.
        unfold pathStep in Hstep.
        apply bind_Ok in Hstep as (pc & _ & Hstep).
        destruct (filter (queryComponent pc)); inversion Hstep; simpl;
          by rewrite length_insert. }
    apply Hlen in Hloop. simpl in Hloop.
    rewrite length_insert, length_resize in Hloop.
    intros E. rewrite E in Hloop. simpl in Hloop. lia.
Qed.

(** *** The target cache *)

(** A variant the cache holds is answered from the cache, with the runner
    unchanged. *)
Lemma findTargets_hit querySet_ dataProvider_ r (targets cached : Targets) :
  targetCache_ r !! getSubsetVariant dataProvider_ = Some cached →
  findTargets querySet_ dataProvider_ r targets = Ok (r, cached).
Proof. intros Hc. unfold findTargets. by rewrite Hc. Qed.

(** Whatever path [findTargets] takes, the targets it returns are the ones
    the cache holds for the variant afterwards. *)
Lemma findTargets_cached querySet_ dataProvider_ r (targets found : Targets) r' :
  findTargets querySet_ dataProvider_ r targets = Ok (r', found) →
  targetCache_ r' !! getSubsetVariant dataProvider_ = Some found.
Proof.
  unfold findTargets.
  destruct (targetCache_ r !! getSubsetVariant dataProvider_) as [cached|] eqn:Ec.
  - intros E. inversion E; subst. done.
  - intros Hrun. apply bind_Ok in Hrun as ([targets' log'] & _ & Hret).
    inversion Hret; subst; simpl. apply lookup_insert_eq.
Qed.

(** [findTargets] never replaces an entry of the cache. *)
Lemma findTargets_keeps querySet_ dataProvider_ r (targets found kept : Targets) r' v :
  findTargets querySet_ dataProvider_ r targets = Ok (r', found) →
  targetCache_ r !! v = Some kept →
  targetCache_ r' !! v = Some kept.
Proof.
  unfold findTargets.
  destruct (targetCache_ r !! getSubsetVariant dataProvider_) as [cached|] eqn:Ec.
  - intros E. by inversion E; subst.
  - intros Hrun Hv. apply bind_Ok in Hrun as ([targets' log'] & _ & Hret).
    inversion Hret; subst; simpl.
    rewrite lookup_insert_ne; [done|]. intros <-. congruence.
Qed.

Lemma step_keeps querySet_ r r' v (kept : Targets) :
  step querySet_ r r' →
  targetCache_ r !! v = Some kept →
  targetCache_ r' !! v = Some kept.
Proof.
  intros [dataProvider_ r0 targets r1 found Hfind | dataProvider_ r0 r1 Hacc] Hv.
  - by eapply findTargets_keeps.
  - unfold accumulate in Hacc.
    apply bind_Ok in Hacc as ([r2 targets] & Hfind & Hacc).
    apply bind_Ok in Hacc as (frames & _ & Hret).
    inversion Hret; subst; simpl. by eapply findTargets_keeps.
Qed.

(** C7. Once a variant's targets are resolved (built and cached on the
    miss path), every later resolution for that variant, after any number
    of further messages of any variants, returns exactly those targets
    from the cache and leaves the runner as it is. *)
Theorem findTargets_cache_hit_eq_miss querySet_ dataProvider_ r (targets found : Targets) r1 :
  targetCache_ r !! getSubsetVariant dataProvider_ = None →
  findTargets querySet_ dataProvider_ r targets = Ok (r1, found) →
  ∀ r2 dataProvider' (targets' : Targets),
    rtc (step querySet_) r1 r2 →
    getSubsetVariant dataProvider' = getSubsetVariant dataProvider_ →
    findTargets querySet_ dataProvider' r2 targets' = Ok (r2, found).
Proof.
  intros _ Hfirst r2 dataProvider' targets' Hlater Hv.
  apply findTargets_hit. rewrite Hv.
  apply findTargets_cached in Hfirst.
  induction Hlater as [r1|r1 r1' r2 Hstep _ IH]; [done|].
  apply IH. by eapply step_keeps.
Qed.

End Proofs.

Import Scenarios.

(** C1. On the target [*/SEQA[1]/SEQB/TMDB] and a message with two
    occurrences of SEQA of three SEQB each, the filtered walk visits two
    leaves: it ends at offset 2 and copies one value, where the source
    holds six values and the recorded count tree ends in [3; 3]. *)
Theorem makeFilteredData_consumption_nested :
  let targ := Scenarios.nested [1%nat] [] [] in
  collectField Scenarios.message_2x3 targ DataField_new
    = Ok {| target := Some targ; fdata := Doubles [10%float];
            seqCounts := [[1]; [1]; [3; 3]] |}
  ∧ makeFilteredData_walk (data (Scenarios.message_2x3 4)) [[1]; [2]; [1]]
      [[]; [1%nat]; []] = Ok (Doubles [10%float], 2%nat)
  ∧ VectorMath.sum (counts (Scenarios.message_2x3 4)) = 6.
Proof. repeat split; vm_compute; reflexivity. Qed.

(** C4. On the target [*/SEQA[1,2]/SEQB[1]/TMDB[1]], whose filters are the
    full index sets of a message with two occurrences of SEQA of one SEQB
    and one TMDB each, the filtered walk visits four leaves and reads past the two
    source values, while the unfiltered collection returns both values
    with the count tree [[1]; [2]; [1; 1]]. *)
Theorem collectData_full_filter_nested :
  let filtered := Scenarios.nested [1; 2]%nat [1%nat] [1%nat] in
  let unfiltered := Scenarios.nested [] [] [] in
  collectField Scenarios.message_2x1 filtered DataField_new
    = Fault (OutOfRange SrcData_offset)
  ∧ leafVisits 4 [[1]; [2]; [1; 1]] [[]; [1; 2]%nat; [1%nat]] 0 = 4%nat
  ∧ collectField Scenarios.message_2x1 unfiltered DataField_new
    = Ok {| target := Some unfiltered; fdata := Doubles [10; 20]%float;
            seqCounts := [[1]; [2]; [1; 1]] |}.
Proof. repeat split; vm_compute; reflexivity. Qed.

(** The sentinel of the scenarios, in a message of two targets. *)
Lemma collectData_sentinel_witness :
  let sentinelField :=
    {| target := Some absent; fdata := Doubles [MissingValue]; seqCounts := [[1]] |} in
  collectField message_2x3 absent DataField_new = Ok sentinelField
  ∧ ∀ (targets : Targets) nnames frames frames' i,
      targets !! i = Some absent →
      collectData message_2x3 targets nnames frames = Ok frames' →
      ∃ frame', frames' = frames ++ [frame'] ∧ frame' !! i = Some sentinelField.
Proof.
  apply (@collectData_sentinel constants headers message_2x3 absent []); reflexivity.
Defined.

(** The first message of [NC001001] resolves its targets; after a message
    of another variant the second message of [NC001001] gets the same
    targets from the cache. *)
Lemma findTargets_cache_hit_eq_miss_witness :
  findTargets querySet message1 runner0 [] = Ok (resolvedRunner, resolvedTargets)
  ∧ length resolvedTargets = 2%nat
  ∧ findTargets querySet message2 laterRunner [] = Ok (laterRunner, resolvedTargets).
Proof.
  split; [vm_compute; reflexivity|]. split; [vm_compute; reflexivity|].
  apply (@findTargets_cache_hit_eq_miss constants headers querySet message1 runner0 []
           resolvedTargets resolvedRunner).
  - vm_compute; reflexivity.
  - vm_compute; reflexivity.
  - apply rtc_once. apply (step_accumulate querySet message3).
    vm_compute; reflexivity.
  - reflexivity.
Defined.

End QueryRunnerProofs.

(** ** The result set *)

Module ResultSetProofs.
Import ResultSet.

Section Padding.

Context `{Constants} `{Headers}.
Variables a0 a1 a2 b0 b1 b2 b3 b4 c0 c1 : double.

(** C3. Three frames whose field has the counts [3], [5] and [2] and no
    group-by: the export dimension is 5 per frame; the row of frame 1 holds
    its values at 0-2 and the missing value at 3-4, the row of frame 3 its
    values at 0-1 and the missing value at 2-4.  Stated for count trees
    with the root level [1] that [collectData] records, and for the bare
    count trees [[3]], [[5]], [[2]].  The padding cells are written with
    the literal 10.0e10, the missing value of [Constants.h]. *)
Theorem getRawValues_padding_3_5_2 :
  MissingValue = fill_10e10 →
  (∀ frame, fieldIndexForNodeNamed frame "temperature" = 0) →
  let rooted := [Scenarios.frameOf [a0; a1; a2] [[3]];
                 Scenarios.frameOf [b0; b1; b2; b3; b4] [[5]];
                 Scenarios.frameOf [c0; c1] [[2]]] in
  let bare := [Scenarios.bareFrameOf [a0; a1; a2] [[3]];
               Scenarios.bareFrameOf [b0; b1; b2; b3; b4] [[5]];
               Scenarios.bareFrameOf [c0; c1] [[2]]] in
  let padded := [a0; a1; a2; MissingValue; MissingValue;
                 b0; b1; b2; b3; b4;
                 c0; c1; MissingValue; MissingValue; MissingValue] in
  (sh_dims <$> exportShape rooted "temperature" "") = Ok [1; 5]
  ∧ getRawValues rooted "temperature" "" = Ok (padded, [3; 5], ["*"; "*/SEQA"])
  ∧ (sh_dims <$> exportShape bare "temperature" "") = Ok [5]
  ∧ getRawValues bare "temperature" "" = Ok (padded, [15], ["*/SEQA"]).
Proof.
  intros Hmissing Hidx rooted bare padded. subst padded. rewrite Hmissing.
  unfold getRawValues, exportShape, scanFrames, fieldIndices, rooted, bare.
  rewrite !Hidx. clear Hidx Hmissing.
  repeat split; vm_compute; reflexivity.
Qed.

End Padding.

Section Shape.

Context `{Constants} `{Headers}.

Lemma updateDimsList_prefix (sc : SeqCounts) (dl : list Z) n :
  (n ≤ length sc)%nat → (length sc ≤ length dl)%nat →
  let dl' := foldl (λ dimsList cntIdx,
                      match sc !!! cntIdx with
                      | [] => dimsList
                      | c :: cs =>
                          <[cntIdx := Z.max (dimsList !!! cntIdx)
                                        (VectorMath.max (c :: cs))]> dimsList
                      end) dl (seq 0 n) in
  length dl' = length dl
  ∧ ∀ d, dl' !! d =
         if decide (d < n)%nat
         then (λ x, match sc !! d with
                    | Some (c :: cs) => Z.max x (VectorMath.max (c :: cs))
                    | _ => x
                    end) <$> dl !! d
         else dl !! d.
Proof.
  intros Hn Hlen. induction n as [|n IH]; cbv zeta.
  - split; [done|]. intros d. case_decide; [lia|done].
  - rewrite seq_S, foldl_snoc. cbv zeta in IH.
    destruct IH as [IHlen IHlook]; [lia|]. rewrite Nat.add_0_l.
    set (dl1 := foldl _ dl (seq 0 n)) in *.
    destruct (lookup_lt_is_Some_2 sc n) as [cnts Hcnts]; [lia|].
    rewrite (list_lookup_total_correct _ _ _ Hcnts).
    destruct (lookup_lt_is_Some_2 dl1 n) as [y Hy]; [lia|].
    pose proof (IHlook n) as Hn1. rewrite decide_False in Hn1 by lia.
    destruct cnts as [|c cs].
    + split; [done|]. intros d. rewrite IHlook.
      repeat case_decide; try lia; try done.
      assert (d = n) as -> by lia. rewrite Hcnts. by destruct (dl !! n).
    + rewrite (list_lookup_total_correct _ _ _ Hy).
      split; [by rewrite length_insert|]. intros d.
      destruct (decide (d = n)) as [->|Hne].
      * rewrite list_lookup_insert_eq by lia. rewrite decide_True by lia.
        rewrite Hcnts, <- Hn1, Hy. done.
      * rewrite list_lookup_insert_ne by done. rewrite IHlook.
        repeat case_decide; try lia; done.
Qed.

(** After the loop over [cntIdx] each depth holds the larger of its old
    entry and the frame's maximum there. *)
Lemma updateDimsList_get0 (field : DataField) (dl : list Z) :
  (length (seqCounts field) ≤ length dl)%nat →
  length (updateDimsList (seqCounts field) dl) = length dl
  ∧ ∀ d, get0 (updateDimsList (seqCounts field) dl) d = stepMax (get0 dl d) field d.
Proof.
  intros Hlen.
  destruct (updateDimsList_prefix (seqCounts field) dl (length (seqCounts field)))
    as [Hl Hlook]; [done..|].
  split; [exact Hl|]. intros d. unfold get0, stepMax, frameMax, updateDimsList.
  rewrite Hlook. case_decide as Hd.
  - destruct (lookup_lt_is_Some_2 dl d) as [x ->]; [lia|]. simpl.
    by destruct (seqCounts field !! d) as [[|c cs]|].
  - rewrite (proj2 (lookup_ge_None (seqCounts field) d)) by lia. done.
Qed.

Lemma get0_resize (dl : list Z) n d :
  (length dl ≤ n)%nat → get0 (resize n 0 dl) d = get0 dl d.
Proof.
  intros Hn. unfold get0.
  destruct (decide (d < length dl)%nat) as [Hd|Hd].
  - by rewrite lookup_resize by lia.
  - rewrite (proj2 (lookup_ge_None dl d)) by lia.
    destruct (decide (d < n)%nat).
    + by rewrite lookup_resize_new by lia.
    + by rewrite lookup_resize_old by lia.
Qed.

(** Without a group-by field a frame only raises the dimension list. *)
Lemma scanFrame_noGroup targetFieldIdx groupByFieldIdx frame field s :
  fieldAtIdx frame targetFieldIdx = Ok field →
  ∃ s', scanFrame targetFieldIdx groupByFieldIdx EmptyString frame s = Ok s'
    ∧ sc_groupbyIdx s' = sc_groupbyIdx s
    ∧ length (sc_dimsList s') = Nat.max (length (sc_dimsList s)) (length (seqCounts field))
    ∧ ∀ d, get0 (sc_dimsList s') d = stepMax (get0 (sc_dimsList s) d) field d.
Proof.
  intros Hfield. unfold scanFrame. rewrite Hfield; simpl.
  destruct (updateDimsList_get0 field
              (if decide (length (sc_dimsList s) < length (seqCounts field))%nat
               then resize (length (seqCounts field)) 0 (sc_dimsList s)
               else sc_dimsList s)) as [Hl Hg];
    [case_decide; [by rewrite length_resize | lia] |].
  destruct (_ && _); (eexists; split; [reflexivity|]; simpl; split; [done|]).
  all: rewrite Hl; split;
    [case_decide; rewrite ?length_resize; lia
    | intros d; rewrite Hg; case_decide; rewrite ?get0_resize by lia; done].
Qed.

Lemma scanFrames_noGroup targetFieldIdx groupByFieldIdx frames fieldOfFrame :
  Forall2 (λ frame field, fieldAtIdx frame targetFieldIdx = Ok field) frames fieldOfFrame →
  ∀ s0, ∃ s,
    forM frames (scanFrame targetFieldIdx groupByFieldIdx EmptyString) s0 = Ok s
    ∧ sc_groupbyIdx s = sc_groupbyIdx s0
    ∧ length (sc_dimsList s)
      = foldl (λ n field, Nat.max n (length (seqCounts field)))
              (length (sc_dimsList s0)) fieldOfFrame
    ∧ ∀ d, get0 (sc_dimsList s) d
           = foldl (λ m field, stepMax m field d) (get0 (sc_dimsList s0) d) fieldOfFrame.
Proof.
  induction 1 as [|frame field frames fieldOfFrame Hfield _ IH]; intros s0.
  - exists s0. by repeat split.
  - destruct (scanFrame_noGroup targetFieldIdx groupByFieldIdx frame field s0 Hfield)
      as (s1 & Hstep & Hg1 & Hl1 & Hd1).
    destruct (IH s1) as (s & Hrun & Hg & Hl & Hd).
    exists s. rewrite forM_cons, Hstep. simpl.
    split; [exact Hrun|]. split; [congruence|]. split.
    + by rewrite Hl, Hl1.
    + intros d. by rewrite Hd, Hd1.
Qed.

Lemma observedMax_nonneg fieldOfFrame d : 0 ≤ observedMax fieldOfFrame d.
Proof.
  unfold observedMax.
  assert (∀ m0 m, m0 ≤ m →
            m0 ≤ foldl (λ m field, stepMax m field d) m fieldOfFrame) as Hle.
  { intros m0. induction fieldOfFrame as [|field fs IH]; intros m Hm; simpl; [done|].
    apply IH. unfold stepMax. destruct (frameMax field d); lia. }
  apply Hle. lia.
Qed.

(** C2. For a non-empty list of frames and no group-by field, the shape
    [getRawValues] works with has one dimension per repetition depth of
    the deepest count tree, and the dimension of depth [d] is the maximum
    count observed at [d] (the maximum of each frame's count list, then the
    maximum across the frames), raised to 1 when it is 0; so every export
    dimension is at least 1. *)
Theorem exportShape_observed_maximum frame0 rest fieldName fieldOfFrame :
  Forall2 (λ frame field,
             fieldAtIdx frame (fieldIndexForNodeNamed frame0 fieldName) = Ok field)
          (frame0 :: rest) fieldOfFrame →
  ∃ sh, exportShape (frame0 :: rest) fieldName EmptyString = Ok sh
    ∧ sh_dims sh = exportDimension fieldOfFrame <$> seq 0 (observedDepth fieldOfFrame)
    ∧ sh_allDims sh = sh_dims sh
    ∧ Forall (λ n, 1 ≤ n) (sh_dims sh).
Proof.
  intros Hfields.
  assert (∃ field0, fieldAtIdx frame0 (fieldIndexForNodeNamed frame0 fieldName)
                    = Ok field0) as [field0 Hfield0].
  { inversion Hfields; subst. eauto. }
  destruct (scanFrames_noGroup _ 0 _ _ Hfields
              (mkScanState [] (exportDims field0) (dimPaths field0) 0 0))
    as (s & Hrun & Hg & Hl & Hd).
  simpl in Hg, Hl.
  assert (sc_dimsList s = observedMax fieldOfFrame <$> seq 0 (observedDepth fieldOfFrame))
    as Hdims.
  { apply list_eq. intros d. rewrite list_lookup_fmap.
    destruct (decide (d < observedDepth fieldOfFrame)%nat) as [Hlt|Hge].
    - rewrite lookup_seq_lt by done. simpl.
      destruct (lookup_lt_is_Some_2 (sc_dimsList s) d) as [x Hx];
        [unfold observedDepth in Hlt; lia|].
      rewrite Hx. f_equal. specialize (Hd d). unfold get0 in Hd.
      rewrite Hx in Hd. simpl in Hd. exact Hd.
    - rewrite lookup_seq_ge by lia. simpl.
      apply lookup_ge_None. unfold observedDepth in Hge. lia. }
  exists (mkFrameShape (atLeastOne (sc_dimsList s)) (atLeastOne (sc_dimsList s))
            (sc_exportDims s) (sc_dimPaths s) (sc_groupbyIdx s)).
  split; [|split; [|split]].
  - unfold exportShape, scanFrames, fieldIndices. cbv beta iota zeta.
    rewrite bool_decide_eq_false_2 by (by intros []).
    rewrite (proj2 (at_idx_Ok Frames_0 (frame0 :: rest) 0 frame0)) by done.
    rewrite bind_Ok_l, Hfield0, !bind_Ok_l, Hrun, bind_Ok_l.
    rewrite Hg. rewrite decide_False by lia. done.
  - simpl. rewrite Hdims. unfold atLeastOne. rewrite <- list_fmap_compose.
    apply list_fmap_ext. intros i d _. done.
  - done.
  - simpl. unfold atLeastOne. rewrite Hdims, <- list_fmap_compose.
    apply Forall_fmap, Forall_forall. intros d _. simpl.
    pose proof (observedMax_nonneg fieldOfFrame d). case_decide; lia.
Qed.

End Shape.

Section Bounds.

Context `{Constants} `{Headers}.



















(** A property of the loop state that every iteration keeps is kept by
    the loop. *)
Lemma forM_invariant {A S} (P : S → Prop) (l : list A) (body : A → S → result S) :
  (∀ x s s', body x s = Ok s' → P s → P s') →
  ∀ s s', forM l body s = Ok s' → P s → P s'.
Proof.
  intros Hbody. induction l as [|x l IH]; intros s s' Hrun Hs.
  - by inversion Hrun; subst.
  - rewrite forM_cons in Hrun. apply bind_Ok in Hrun as (s1 & Hx & Hrun).
    eapply IH; [done|]. by eapply Hbody.
Qed.



Lemma fieldAtIdx_elem_of frame idx field :
  fieldAtIdx frame idx = Ok field → field ∈ fields frame.
Proof.
  unfold fieldAtIdx. case_decide; [|discriminate].
  intros Hf%at_idx_Ok. by eapply list_elem_of_lookup_2.
Qed.



End Bounds.

Section GroupBy.

Context `{Constants} `{Headers}.

Lemma to_int_small z : - 2 ^ 31 ≤ z < 2 ^ 31 → to_int z = z.
Proof. intros Hz. unfold to_int. rewrite Z.mod_small; lia. Qed.

Lemma to_size_t_small z : 0 ≤ z < 2 ^ 64 → to_size_t z = z.
Proof. intros Hz. unfold to_size_t. by rewrite Z.mod_small. Qed.

Lemma product_app l1 l2 :
  VectorMath.product (l1 ++ l2) = VectorMath.product l1 * VectorMath.product l2.
Proof.
  unfold VectorMath.product. induction l1 as [|x l1 IH]; simpl.
  - by destruct (foldr Z.mul 1 l2).
  - rewrite IH. lia.
Qed.

Lemma product_ge1 l : Forall (λ d, 1 ≤ d) l → 1 ≤ VectorMath.product l.
Proof.
  unfold VectorMath.product. induction 1 as [|x l Hx _ IH]; simpl; [done|]. nia.
Qed.

(** The first loop of the group-by branch multiplies the leading
    dimensions into [dims[0]]. *)
Lemma groupby_rows_loop (allDims : list Z) d tl g :
  (g ≤ length allDims)%nat →
  forM (seq 0 g)
    (λ dimIdx dims,
       d0 ← at_idx Dims_idx dims 0;
       a ← at_idx Dims_idx allDims dimIdx;
       Ok (<[0%nat := d0 * a]> dims)) (d :: tl)
  = Ok (d * VectorMath.product (take g allDims) :: tl).
Proof.
  induction g as [|g IH]; intros Hg.
  - rewrite take_0. unfold VectorMath.product; simpl. by rewrite Z.mul_1_r.
  - rewrite seq_S, forM_app, IH by lia. rewrite bind_Ok_l, Nat.add_0_l.
    destruct (lookup_lt_is_Some_2 allDims g) as [a Ha]; [lia|].
    rewrite forM_cons.
    rewrite (proj2 (at_idx_Ok Dims_idx (_ :: tl) 0 _)) by reflexivity.
    rewrite bind_Ok_l, (proj2 (at_idx_Ok Dims_idx allDims g a)) by done.
    rewrite !bind_Ok_l. simpl.
    rewrite (take_S_r _ _ _ Ha), product_app. unfold VectorMath.product at 3; simpl.
    do 2 f_equal. lia.
Qed.

(** The second loop copies the trailing dimensions behind it. *)
Lemma groupby_elements_loop (allDims : list Z) p g k :
  (g + k ≤ length allDims)%nat →
  forM (seq g k)
    (λ dimIdx dims,
       a ← at_idx Dims_idx allDims dimIdx;
       set_idx Dims_idx dims (dimIdx - g + 1) a)
    (p :: replicate (length allDims - g) 1)
  = Ok (p :: take k (drop g allDims) ++ replicate (length allDims - g - k) 1).
Proof.
  induction k as [|k IH]; intros Hk.
  - rewrite take_0, Nat.sub_0_r. done.
  - rewrite seq_S, forM_app, IH by lia. rewrite bind_Ok_l, forM_cons.
    destruct (lookup_lt_is_Some_2 allDims (g + k)) as [a Ha]; [lia|].
    rewrite (proj2 (at_idx_Ok Dims_idx allDims (g + k) a)) by done.
    rewrite bind_Ok_l. unfold set_idx.
    assert (length (take k (drop g allDims)) = k) as Hlen
      by (rewrite length_take, length_drop; lia).
    rewrite decide_True
      by (simpl; rewrite length_app, Hlen, length_replicate; lia).
    rewrite bind_Ok_l. simpl. f_equal.
    replace (g + k - g + 1)%nat with (S k) by lia. simpl. f_equal.
    replace (length allDims - g - k)%nat with (S (length allDims - g - S k)) by lia.
    rewrite replicate_S.
    rewrite <- Hlen at 1. rewrite <- (Nat.add_0_r (length (take k (drop g allDims)))).
    rewrite insert_app_r. simpl.
    rewrite (take_S_r _ _ a) by (by rewrite lookup_drop).
    by rewrite <- app_assoc.
Qed.

(** Every entry of the dimension list stays non-negative. *)
Lemma updateDimsList_nonneg (sc : SeqCounts) (dl : list Z) :
  Forall (λ d, 0 ≤ d) dl → Forall (λ d, 0 ≤ d) (updateDimsList sc dl).
Proof.
  unfold updateDimsList. generalize (seq 0 (length sc)) as idxs.
  intros idxs. revert dl. induction idxs as [|i idxs IH]; intros dl Hdl; simpl; [done|].
  apply IH. destruct (sc !!! i) as [|c cs]; [done|].
  destruct (decide (i < length dl)%nat) as [Hi|Hi].
  - apply Forall_insert; [done|].
    destruct (lookup_lt_is_Some_2 dl i Hi) as [x Hx].
    rewrite (list_lookup_total_correct _ _ _ Hx).
    rewrite Forall_forall in Hdl. pose proof (Hdl x (list_elem_of_lookup_2 _ _ _ Hx)). lia.
  - by rewrite list_insert_ge by lia.
Qed.

Lemma scanFrame_nonneg targetFieldIdx groupByFieldIdx groupByField frame s s' :
  scanFrame targetFieldIdx groupByFieldIdx groupByField frame s = Ok s' →
  Forall (λ d, 0 ≤ d) (sc_dimsList s) → Forall (λ d, 0 ≤ d) (sc_dimsList s').
Proof.
  unfold scanFrame. intros Hrun Hs.
  apply bind_Ok in Hrun as (field & Hfield & Hrun).
  set (dl1 := updateDimsList (seqCounts field) _) in Hrun.
  assert (Forall (λ d, 0 ≤ d) dl1) as Hdl1.
  { unfold dl1. apply updateDimsList_nonneg.
    destruct (decide (length (sc_dimsList s) < length (seqCounts field))%nat); [|done].
    by apply Forall_resize. }
  clearbody dl1.
  destruct (_ && _); destruct (bool_decide (groupByField ≠ "")).
  all: try (inversion Hrun; subst s'; exact Hdl1).
  all: apply bind_Ok in Hrun as (groupByFld & _ & Hrun).
  all: case_decide; [apply bind_Ok in Hrun as (lastPath & _ & Hrun)|].
  all: inversion Hrun; subst s'; exact Hdl1.
Qed.

Lemma scanFrames_allDims_ge1 frames fieldName groupByField s :
  scanFrames frames fieldName groupByField = Ok s →
  Forall (λ d, 1 ≤ d) (atLeastOne (sc_dimsList s)).
Proof.
  unfold scanFrames. destruct (fieldIndices _ _ _) as [targetFieldIdx groupByFieldIdx].
  intros Hrun. apply bind_Ok in Hrun as (s0 & Hs0 & Hrun).
  assert (Forall (λ d, 0 ≤ d) (sc_dimsList s0)) as Hs0'.
  { destruct frames; [by inversion Hs0|].
    apply bind_Ok in Hs0 as (frame0 & _ & Hs0).
    apply bind_Ok in Hs0 as (field & _ & Hs0). by inversion Hs0. }
  eapply (forM_invariant (λ st, Forall (λ d, 0 ≤ d) (sc_dimsList st))) in Hrun;
    [| |exact Hs0'].
  - unfold atLeastOne. apply Forall_fmap. eapply Forall_impl; [exact Hrun|].
    intros d Hd. simpl in *. destruct (decide (d = 0)); lia.
  - intros frame st st' Hst. by eapply scanFrame_nonneg.
Qed.

Lemma mapM_cons {A B} (g : A → result B) x l :
  mapM g (x :: l) = y ← g x; k ← mapM g l; Ok (y :: k).
Proof. reflexivity. Qed.

(** One row read out of the padded block. *)
Lemma mapM_row (output : list double) base m :
  ∀ j0, (base + j0 + m ≤ length output)%nat →
    mapM (M := result) (λ j, at_idx Output_idx output (base + j)) (seq j0 m)
    = Ok (take m (drop (base + j0) output)).
Proof.
  induction m as [|m IH]; intros j0 Hlen.
  - by rewrite take_0.
  - rewrite <- cons_seq, mapM_cons.
    destruct (lookup_lt_is_Some_2 output (base + j0)) as [x Hx]; [lia|].
    rewrite (proj2 (at_idx_Ok Output_idx output (base + j0) x)) by done.
    rewrite bind_Ok_l, IH by lia. rewrite bind_Ok_l.
    rewrite (drop_S _ _ _ Hx). simpl. by rewrite Nat.add_succ_r.
Qed.

(** The rows read out of the padded block, in order. *)
Lemma mapM_rows (output : list double) m :
  ∀ n k, ((k + n) * m ≤ length output)%nat →
    mapM (M := result)
      (λ i, mapM (M := result) (λ j, at_idx Output_idx output (i * m + j)) (seq 0 m))
      (seq k n)
    = Ok ((λ i, take m (drop (i * m) output)) <$> seq k n).
Proof.
  induction n as [|n IH]; intros k Hlen; [done|].
  rewrite <- cons_seq, mapM_cons, mapM_row by lia.
  rewrite bind_Ok_l, IH by lia. rewrite bind_Ok_l, Nat.add_0_r. done.
Qed.

Lemma concat_rows (output : list double) m :
  ∀ n k, concat ((λ i, take m (drop (i * m) output)) <$> seq k n)
         = take (n * m) (drop (k * m) output).
Proof.
  induction n as [|n IH]; intros k.
  - by rewrite take_0.
  - rewrite <- cons_seq, fmap_cons. simpl concat. rewrite IH.
    replace (S k * m)%nat with (k * m + m)%nat by lia.
    rewrite <- drop_drop, take_take_drop. f_equal.
Qed.

Lemma inflateField_length field dims output :
  inflateField field dims = Ok output →
  length output = Z.to_nat (VectorMath.product dims).
Proof.
  unfold inflateField. intros Hrun.
  apply bind_Ok in Hrun as (inserts & _ & Hrun).
  apply bind_Ok in Hrun as (idxs & _ & Hrun).
  apply bind_Ok in Hrun as (output0 & Hmake & Hrun).
  unfold make_vector in Hmake. case_decide; [|discriminate].
  inversion Hmake; subst output0.
  eapply (forM_invariant (λ o, length o = Z.to_nat (VectorMath.product dims))) in Hrun.
  - done.
  - intros [i v] o o' Hset Ho. unfold set_idx in Hset.
    case_decide; [|discriminate]. inversion Hset. by rewrite length_insert.
  - by rewrite length_replicate.
Qed.

(** The rows of a frame when the group-by field is not deeper than the
    target: one row per group instance, each holding the trailing
    dimensions, in the order of the padded block. *)
Lemma getRowsForField_grouped field dims groupbyIdx output :
  inflateField field dims = Ok output →
  0 < groupbyIdx ≤ Z.of_nat (length (seqCounts field)) →
  Z.of_nat (length (seqCounts field)) < 2 ^ 31 →
  (Z.to_nat groupbyIdx ≤ length dims)%nat →
  Forall (λ d, 1 ≤ d) dims →
  VectorMath.product dims < 2 ^ 64 →
  let g := Z.to_nat groupbyIdx in
  ∃ rows,
    getRowsForField field dims groupbyIdx = Ok rows
    ∧ length rows = Z.to_nat (VectorMath.product (take g dims))
    ∧ Forall (λ row, length row = Z.to_nat (VectorMath.product (drop g dims))) rows
    ∧ concat rows = output.
Proof.
  intros Hout Hg Hlen Hgd Hdims Hprod g.
  pose proof (inflateField_length _ _ _ Hout) as Hlo.
  assert (VectorMath.product dims
          = VectorMath.product (take g dims) * VectorMath.product (drop g dims)) as Hsplit
    by (by rewrite <- product_app, take_drop).
  pose proof (product_ge1 _ (Forall_take _ g _ Hdims)) as Hrows.
  pose proof (product_ge1 _ (Forall_drop _ g _ Hdims)) as Hcols.
  set (numRows := Z.to_nat (VectorMath.product (take g dims))).
  set (numsPerRow := Z.to_nat (VectorMath.product (drop g dims))).
  assert (length output = (numRows * numsPerRow)%nat) as Hlo'.
  { rewrite Hlo, Hsplit. unfold numRows, numsPerRow. lia. }
  exists ((λ i, take numsPerRow (drop (i * numsPerRow) output)) <$> seq 0 numRows).
  split; [|split; [|split]].
  - unfold getRowsForField. rewrite Hout, bind_Ok_l.
    rewrite decide_True by lia.
    rewrite decide_False by (rewrite to_int_small; lia).
    unfold VectorMath.product_range. rewrite decide_True by (fold g; lia).
    rewrite bind_Ok_l, Nat.sub_0_r, drop_0. fold g.
    rewrite !to_size_t_small by nia.
    fold numRows numsPerRow. apply mapM_rows. lia.
  - by rewrite length_fmap, length_seq.
  - apply Forall_fmap, Forall_forall. intros i [_ Hi]%elem_of_seq. simpl.
    rewrite length_take, length_drop. nia.
  - rewrite concat_rows. simpl. rewrite drop_0, take_ge; [done|lia].
Qed.

(** The shape of one frame under a group-by field that is not deeper than
    the target: the leading dimensions up to the group-by depth are
    multiplied into the row axis, the trailing dimensions follow. *)
Lemma exportShape_grouped frames fieldName groupByField s :
  scanFrames frames fieldName groupByField = Ok s →
  0 < sc_groupbyIdx s ≤ Z.of_nat (length (sc_dimsList s)) →
  Z.of_nat (length (sc_dimsList s)) < 2 ^ 31 →
  let g := Z.to_nat (sc_groupbyIdx s) in
  let allDims := atLeastOne (sc_dimsList s) in
  exportShape frames fieldName groupByField
  = Ok (mkFrameShape (VectorMath.product (take g allDims) :: drop g allDims) allDims
          (groupedExportDims (sc_exportDims s) (sc_groupbyIdx s)) (sc_dimPaths s)
          (sc_groupbyIdx s)).
Proof.
  intros Hscan Hg Hlen g allDims. unfold exportShape.
  rewrite Hscan, bind_Ok_l. cbv zeta.
  rewrite decide_True by lia.
  rewrite decide_False by (rewrite to_int_small; lia).
  rewrite to_size_t_small by lia.
  assert (length allDims = length (sc_dimsList s)) as Hall
    by (unfold allDims, atLeastOne; by rewrite length_fmap).
  replace (Z.to_nat (Z.of_nat (length (sc_dimsList s)) - sc_groupbyIdx s + 1))
    with (S (length allDims - g)) by (unfold g; lia).
  rewrite resize_nil, replicate_S. fold g allDims.
  rewrite groupby_rows_loop by lia. rewrite bind_Ok_l, Z.mul_1_l.
  rewrite groupby_elements_loop by lia. rewrite bind_Ok_l.
  replace (length allDims - g - (length allDims - g))%nat with 0%nat by lia.
  simpl replicate. rewrite app_nil_r.
  rewrite (take_ge (drop g allDims)); [reflexivity|]. rewrite length_drop. lia.
Qed.

(** C6. When a group-by field is given and its depth is not greater than
    the depth of the target field, the shape of one frame is the product of
    the leading dimensions up to the group-by depth (the row axis, one row
    per group instance) followed by the trailing dimensions (the element
    axes of a row), and the rows of a frame are its padded block cut into
    that many rows of that many elements, in order.  In particular two
    frames whose target field has the counts [2] and [2; 2] under a
    group-by field with count 2 at depth 1 give 2 rows of 2 elements per
    frame.  The general part is stated within the range of [int]: the
    product of all dimensions is below 2^31 and the counts of the field
    lie within the dimensions, so that none of the [int] products of
    [getRawValues] and [getRowsForField] overflows. *)
Theorem getRawValues_groupby_collapse :
  (∀ frames fieldName groupByField s,
     scanFrames frames fieldName groupByField = Ok s →
     0 < sc_groupbyIdx s ≤ Z.of_nat (length (sc_dimsList s)) →
     Z.of_nat (length (sc_dimsList s)) < 2 ^ 31 →
     VectorMath.product (atLeastOne (sc_dimsList s)) < 2 ^ 31 →
     let g := Z.to_nat (sc_groupbyIdx s) in
     let allDims := atLeastOne (sc_dimsList s) in
     ∃ sh,
       exportShape frames fieldName groupByField = Ok sh
       ∧ sh_dims sh = VectorMath.product (take g allDims) :: drop g allDims
       ∧ ∀ field output,
           inflateField field (sh_allDims sh) = Ok output →
           countsWithin (seqCounts field) (sh_allDims sh) →
           (g ≤ length (seqCounts field))%nat →
           Z.of_nat (length (seqCounts field)) < 2 ^ 31 →
           ∃ rows,
             getRowsForField field (sh_allDims sh) (sh_groupbyIdx sh) = Ok rows
             ∧ length rows = Z.to_nat (VectorMath.product (take g allDims))
             ∧ Forall (λ row, length row
                              = Z.to_nat (VectorMath.product (drop g allDims))) rows
             ∧ concat rows = output)
  ∧ ((∀ frame, fieldIndexForNodeNamed frame "temperature" = 0) →
     (∀ frame, fieldIndexForNodeNamed frame "groupId" = 1) →
     ∀ v0 v1 v2 v3 v4 v5 v6 v7 : double,
       let frames := [Scenarios.groupedFrame [v0; v1; v2; v3];
                      Scenarios.groupedFrame [v4; v5; v6; v7]] in
       (sh_dims <$> exportShape frames "temperature" "groupId") = Ok [2; 2]
       ∧ (field ← fieldAtIdx (Scenarios.groupedFrame [v0; v1; v2; v3]) 0;
          getRowsForField field [1; 2; 2] 2) = Ok [[v0; v1]; [v2; v3]]
       ∧ (field ← fieldAtIdx (Scenarios.groupedFrame [v4; v5; v6; v7]) 0;
          getRowsForField field [1; 2; 2] 2) = Ok [[v4; v5]; [v6; v7]]
       ∧ getRawValues frames "temperature" "groupId"
         = Ok ([v0; v1; v2; v3; v4; v5; v6; v7], [4; 2], ["*/SEQA"; "*/SEQA/SEQB"])).
Proof.
  split.
  - intros frames fieldName groupByField s Hscan Hg Hlen Hprod g allDims.
    eexists. split; [by apply exportShape_grouped|]. split; [done|].
    intros field output Hout _ Hfield Hflen. cbn [sh_allDims sh_groupbyIdx] in *.
    apply getRowsForField_grouped; try done.
    + unfold g in Hfield. lia.
    + unfold allDims, atLeastOne. rewrite length_fmap. lia.
    + by eapply scanFrames_allDims_ge1.
    + unfold allDims. lia.
  - intros Htarget Hgroup v0 v1 v2 v3 v4 v5 v6 v7 frames.
    unfold getRawValues, exportShape, scanFrames, fieldIndices, frames.
    rewrite !Htarget, !Hgroup. clear Htarget Hgroup.
    repeat split; vm_compute; reflexivity.
Qed.

End GroupBy.

Section ElementType.

Context `{Constants} `{Headers}.

Lemma objectTypeFor_classifyUnit u : objectTypeFor u = elementTypeOf (classifyUnit u).
Proof.
  unfold objectTypeFor, classifyUnit.
  case_bool_decide as Htext; [done|].
  destruct (bool_decide (u = "CODE TABLE")) eqn:Ecode.
  { apply bool_decide_eq_true in Ecode as ->. done. }
  destruct (bool_decide (u = "FLAG TABLE")) eqn:Eflag.
  { apply bool_decide_eq_true in Eflag as ->. done. }
  destruct (bool_decide (u = "NUMERIC")) eqn:Enum.
  { apply bool_decide_eq_true in Enum as ->. done. }
  apply bool_decide_eq_false in Ecode, Eflag, Enum.
  rewrite bool_decide_eq_false_2; [done|].
  rewrite !elem_of_cons, elem_of_nil. intros [?|[?|[?|[]]]]; done.
Qed.

(** C8. The element type of the object [get] returns is the one of the
    unit classification of the field: a text unit gives strings, a coded
    unit (code table, flag table, numeric) gives 32-bit integers, any other
    unit gives floats.  The unit is read from the field of the first
    frame; no value of any message enters the choice, so two result sets
    whose fields carry the same unit give the same element type. *)
Theorem get_elementType_by_unit dataFrames_ fieldName groupByFieldName object :
  get dataFrames_ fieldName groupByFieldName = Ok object →
  (∃ frame0 rest field,
     dataFrames_ = frame0 :: rest
     ∧ fieldAtIdx frame0 (fieldIndexForNodeNamed frame0 fieldName) = Ok field
     ∧ elementType object = elementTypeOf (classifyUnit (f_unit field)))
  ∧ ∀ dataFrames' fieldName' groupBy' object' u,
      get dataFrames' fieldName' groupBy' = Ok object' →
      unit dataFrames_ fieldName = Ok u →
      unit dataFrames' fieldName' = Ok u →
      elementType object' = elementType object.
Proof.
  assert (∀ frames name groupBy obj,
            get frames name groupBy = Ok obj →
            ∃ u, unit frames name = Ok u
                 ∧ elementType obj = elementTypeOf (classifyUnit u)) as Hget.
  { intros frames name groupBy obj Hrun. unfold get in Hrun.
    apply bind_Ok in Hrun as ([[data dims] dimPaths] & _ & Hrun).
    apply bind_Ok in Hrun as (u & Hu & Hrun).
    apply bind_Ok in Hrun as (paths & _ & Hret).
    inversion Hret; subst obj; simpl.
    exists u. by rewrite objectTypeFor_classifyUnit. }
  intros Hrun. split.
  - destruct (Hget _ _ _ _ Hrun) as (u & Hu & Htype). unfold unit in Hu.
    apply bind_Ok in Hu as (frame0 & Hfront & Hu).
    apply bind_Ok in Hu as (field & Hfield & Hret).
    destruct dataFrames_ as [|fr rest]; [discriminate|].
    inversion Hfront; subst fr. inversion Hret; subst u. eauto 6.
  - intros frames' name' groupBy' obj' u Hrun' Hu Hu'.
    destruct (Hget _ _ _ _ Hrun) as (u1 & Hu1 & ->).
    destruct (Hget _ _ _ _ Hrun') as (u2 & Hu2 & ->).
    congruence.
Qed.

End ElementType.

Import Scenarios.

Lemma getRawValues_padding_3_5_2_witness :
  (sh_dims <$> exportShape [frameOf [1; 2; 3]%float [[3]];
                            frameOf [4; 5; 6; 7; 8]%float [[5]];
                            frameOf [9; 10]%float [[2]]] "temperature" "") = Ok [1; 5]
  ∧ getRawValues [frameOf [1; 2; 3]%float [[3]];
                  frameOf [4; 5; 6; 7; 8]%float [[5]];
                  frameOf [9; 10]%float [[2]]] "temperature" ""
    = Ok ([1; 2; 3; 1e11; 1e11; 4; 5; 6; 7; 8; 9; 10; 1e11; 1e11; 1e11]%float,
          [3; 5], ["*"; "*/SEQA"])
  ∧ (sh_dims <$> exportShape [bareFrameOf [1; 2; 3]%float [[3]];
                              bareFrameOf [4; 5; 6; 7; 8]%float [[5]];
                              bareFrameOf [9; 10]%float [[2]]] "temperature" "") = Ok [5]
  ∧ getRawValues [bareFrameOf [1; 2; 3]%float [[3]];
                  bareFrameOf [4; 5; 6; 7; 8]%float [[5]];
                  bareFrameOf [9; 10]%float [[2]]] "temperature" ""
    = Ok ([1; 2; 3; 1e11; 1e11; 4; 5; 6; 7; 8; 9; 10; 1e11; 1e11; 1e11]%float,
          [15], ["*/SEQA"]).
Proof.
  apply (@getRawValues_padding_3_5_2 constants frameHeaders
           1 2 3 4 5 6 7 8 9 10)%float.
  - reflexivity.
  - intros frame. reflexivity.
Defined.

(** The frames with 3, 5 and 2 occurrences are exported with the shape
    [1; 5]. *)
Lemma exportShape_observed_maximum_witness :
  ∃ sh, exportShape paddedFrames "temperature" "" = Ok sh ∧ sh_dims sh = [1; 5].
Proof.
  destruct (@exportShape_observed_maximum frameHeaders
              (frameOf [1; 2; 3]%float [[3]])
              [frameOf [4; 5; 6; 7; 8]%float [[5]]; frameOf [9; 10]%float [[2]]]
              "temperature"
              [fieldOf [1; 2; 3]%float [[3]]; fieldOf [4; 5; 6; 7; 8]%float [[5]];
               fieldOf [9; 10]%float [[2]]])
    as (sh & Hsh & Hdims & _).
  - repeat (constructor; [reflexivity|]). constructor.
  - exists sh. split; [exact Hsh|]. rewrite Hdims. reflexivity.
Defined.



(** The two grouped frames: the scan finds the dimensions [1; 2; 2] and the
    group-by depth 2, so a frame has the shape [2; 2] and its four values
    are cut into two rows of two. *)
Lemma getRawValues_groupby_collapse_witness :
  ∃ sh,
    exportShape groupedFrames "temperature" "groupId" = Ok sh
    ∧ sh_dims sh = [2; 2]
    ∧ ∃ rows,
        getRowsForField
          (mkDataField [1; 2; 3; 4]%float [[1]; [2]; [2; 2]]
             ["*"; "*/SEQA"; "*/SEQA/SEQB"] [0; 1; 2] false "K")
          (sh_allDims sh) (sh_groupbyIdx sh) = Ok rows
        ∧ length rows = 2%nat
        ∧ Forall (λ row, length row = 2%nat) rows
        ∧ concat rows = [1; 2; 3; 4]%float.
Proof.
  destruct (proj1 (@getRawValues_groupby_collapse constants frameHeaders)
              groupedFrames "temperature" "groupId" groupedScan)
    as (sh & Hsh & Hdims & Hrows).
  - vm_compute; reflexivity.
  - vm_compute. split; [reflexivity | discriminate].
  - vm_compute; reflexivity.
  - vm_compute; reflexivity.
  - exists sh. split; [exact Hsh|]. split; [rewrite Hdims; vm_compute; reflexivity|].
    assert (sh_allDims sh = [1; 2; 2]) as Hall.
    { vm_compute in Hsh. by inversion Hsh. }
    apply (Hrows _ [1; 2; 3; 4]%float).
    + rewrite Hall. vm_compute; reflexivity.
    + rewrite Hall. repeat constructor; simpl; lia.
    + vm_compute. lia.
    + vm_compute; reflexivity.
Defined.

(** The three padded frames hold numbers with the unit K: the object is a
    float array. *)
Lemma get_elementType_by_unit_witness :
  get paddedFrames "temperature" "" = Ok paddedObject
  ∧ elementType paddedObject = FloatElements.
Proof.
  assert (get paddedFrames "temperature" "" = Ok paddedObject) as Hget
    by (vm_compute; reflexivity).
  split; [exact Hget|].
  destruct (@get_elementType_by_unit constants frameHeaders _ _ _ _ Hget)
    as [(frame0 & rest & field & Hframes & Hfield & Htype) _].
  inversion Hframes; subst frame0 rest.
  vm_compute in Hfield. inversion Hfield; subst field. exact Htype.
Defined.

End ResultSetProofs.

(** ** The coefficient converter *)

Module GsiAircraftBiasConverterProofs.
Import GsiAircraftBiasConverter.

Section Proofs.

Context `{ReaderHeader}.

(** C10. Once the predictor names are read from the [output] entry of the
    YAML file, [main] throws [eckit::BadValue] exactly when their number
    differs from [gsi_npredictors]; when the numbers agree it goes on to
    create the output file and to build the bias object, and its outcome
    is theirs. *)
Theorem main_BadValue_iff_predictors w argc argv configfile config coeffile tailIds
    lastCycleUpdatedYYYYMM configs config0 output_filename predictors :
  2 ≤ argc →
  argv !! 1%nat = Some configfile →
  YAMLConfiguration_open w configfile = Returned config →
  getString_input_coeff_file config = Returned coeffile →
  findTailIds w coeffile = Returned tailIds →
  findDatetimes w coeffile = Returned lastCycleUpdatedYYYYMM →
  getSubConfigurations_output config = Returned configs →
  configs !! 0%nat = Some config0 →
  getString_output_file config0 = Returned output_filename →
  getStringVector_predictors config0 = Returned predictors →
  ((∃ msg, main w argc argv = Fault (Exception (BadValue msg)))
     ↔ length predictors ≠ gsi_npredictors)
  ∧ (length predictors ≠ gsi_npredictors →
       main w argc argv = Fault (Exception (BadValue predictorsError)))
  ∧ (length predictors = gsi_npredictors →
       main w argc argv =
         (group ← call (createFile w output_filename);
          _ ← call (makeObsBiasObject w group coeffile tailIds
                      lastCycleUpdatedYYYYMM predictors);
          Ok 0)).
Proof.
  intros Hargc Hargv Hopen Hcoeff Htail Hdate Hsub Hconf Hout Hpred.
  assert (main w argc argv =
          checkAndWrite w coeffile tailIds lastCycleUpdatedYYYYMM output_filename
            predictors) as Hmain.
  { unfold main, at_idx. rewrite decide_True by done.
    rewrite Hargv; simpl. rewrite Hopen; simpl. rewrite Hcoeff; simpl.
    rewrite Htail; simpl. rewrite Hdate; simpl. rewrite Hsub; simpl.
    rewrite Hconf; simpl. rewrite Hout; simpl. rewrite Hpred; simpl. done. }
  rewrite Hmain. unfold checkAndWrite.
  destruct (decide (length predictors ≠ gsi_npredictors)) as [Hne|Heq].
  - split; [|split]; [split; eauto | done | done].
  - split; [|split]; [split | done | done].
    + intros [msg Hthrow]. exfalso.
      destruct (createFile w output_filename) as [group|what]; [|discriminate].
      simpl in Hthrow.
      destruct (makeObsBiasObject w group coeffile tailIds lastCycleUpdatedYYYYMM
                  predictors); discriminate.
    + done.
Qed.

End Proofs.

Import Scenarios.

(** With five predictor names in the YAML file [main] throws; with six it
    writes the file and returns 0. *)
Lemma main_BadValue_iff_predictors_witness :
  main (world ["constant"; "ascent"]) 2 ["converter"; "abias.yaml"]
    = Fault (Exception (BadValue predictorsError))
  ∧ main (world sixPredictors) 2 ["converter"; "abias.yaml"] = Ok 0.
Proof.
  split.
  - apply (@main_BadValue_iff_predictors reader (world ["constant"; "ascent"]) 2
             ["converter"; "abias.yaml"] "abias.yaml" (yaml ["constant"; "ascent"])
             "abias_air" ["TAIL0001"; "TAIL0002"] [202301; 202302]
             [outputConfig ["constant"; "ascent"]] (outputConfig ["constant"; "ascent"])
             "abias.nc4" ["constant"; "ascent"]);
      first [reflexivity | lia | (vm_compute; lia)].
  - apply (@main_BadValue_iff_predictors reader (world sixPredictors) 2
             ["converter"; "abias.yaml"] "abias.yaml" (yaml sixPredictors)
             "abias_air" ["TAIL0001"; "TAIL0002"] [202301; 202302]
             [outputConfig sixPredictors] (outputConfig sixPredictors)
             "abias.nc4" sixPredictors);
      first [reflexivity | lia].
Defined.

End GsiAircraftBiasConverterProofs.

(** ** Collection: the filtered walk, the path loop and the resolution *)

Module CollectionProofs.
Import QueryRunner Filtering PathLoop Resolution.

Section Walk.

Context `{Constants} `{Headers}.

(** Below the last layer the walk is at a leaf. *)
Lemma _makeFilteredData_leaf fuel srcData (origCounts : SeqCounts) filters st depth skip :
  Z.of_nat (length origCounts) < 2 ^ 64 →
  (length origCounts ≤ depth)%nat → origCounts ≠ [] →
  _makeFilteredData (S fuel) srcData origCounts filters st depth skip
  = leaf srcData st skip.
Proof.
  intros Hlen Hd Hne. rewrite QueryRunnerProofs._makeFilteredData_S.
  rewrite decide_True; [done|].
  destruct origCounts; [done|]. simpl length in *.
  unfold to_size_t. rewrite Z.mod_small; lia.
Qed.

(** Above the last layer the walk descends. *)
Lemma _makeFilteredData_inner fuel srcData (origCounts : SeqCounts) filters st depth skip :
  Z.of_nat (length origCounts) < 2 ^ 64 →
  (depth < length origCounts)%nat →
  _makeFilteredData (S fuel) srcData origCounts filters st depth skip =
    layerCounts ← at_idx OrigCounts_depth origCounts depth;
    layerFilter ← at_idx Filters_depth filters depth;
    match layerFilter with
    | [] =>
        forM layerCounts
          (λ _ st, _makeFilteredData fuel srcData origCounts filters st
                     (depth + 1) skip) st
    | _ :: _ =>
        forM layerCounts
          (λ c st,
             occ ← occurrences c;
             forM occ
               (λ count st,
                  let skip' :=
                    if negb skip then bool_decide (count ∉ layerFilter) else skip in
                  _makeFilteredData fuel srcData origCounts filters st
                    (depth + 1) skip') st) st
    end.
Proof.
  intros Hlen Hd. rewrite QueryRunnerProofs._makeFilteredData_S.
  rewrite decide_False; [done|].
  unfold to_size_t. rewrite Z.mod_small; lia.
Qed.

(** The occurrences of one entry of the filtered last layer: the values at
    the kept positions are appended, the offset moves past all of them. *)
Lemma walk_occurrence srcData (origCounts : SeqCounts) filters (flt : list nat)
    (vs : list double) :
  Z.of_nat (length origCounts) < 2 ^ 64 → origCounts ≠ [] →
  srcData = Doubles vs →
  ∀ m a d off,
    (off + m ≤ length vs)%nat →
    forM (seq a m)
      (λ count st,
         _makeFilteredData 1 srcData origCounts filters st (length origCounts)
           (bool_decide (count ∉ flt))) (Doubles d, off)
    = Ok (Doubles (d ++ (snd <$> base.filter (λ p, p.1 ∈ flt)
                                   (zip (seq a m) (take m (drop off vs))))),
          (off + m)%nat).
Proof.
  intros Hlen Hne ->. induction m as [|m IH]; intros a d off Hoff.
  - simpl. rewrite app_nil_r, Nat.add_0_r. done.
  - rewrite <- cons_seq, forM_cons, _makeFilteredData_leaf by done.
    destruct (lookup_lt_is_Some_2 vs off) as [x Hx]; [lia|].
    rewrite (drop_S _ _ _ Hx). simpl take. simpl zip.
    rewrite filter_cons. unfold leaf.
    case_bool_decide as Hin; simpl negb; cbn [fst].
    + rewrite decide_False by done. cbv iota. rewrite !bind_Ok_l.
      rewrite IH by lia. rewrite Nat.add_succ_r. done.
    + rewrite decide_True by done. cbv iota.
      rewrite (proj2 (at_idx_Ok SrcData_offset vs off x)) by done.
      rewrite !bind_Ok_l, IH by lia. rewrite fmap_cons, <- app_assoc, Nat.add_succ_r. done.
Qed.

Lemma occurrences_Ok c :
  0 ≤ c < SIZE_MAX → occurrences c = Ok (seq 1 (Z.to_nat c)).
Proof.
  intros Hc. unfold occurrences, SIZE_MAX in *.
  rewrite (ResultSetProofs.to_size_t_small c) by lia.
  rewrite decide_False by lia. done.
Qed.

(** The filtered last layer: occurrence by occurrence, the values at the
    kept positions are appended and the offset moves past the occurrence. *)
Lemma walk_last_layer (origCounts : SeqCounts) filters (flt : list nat)
    (vs : list double) i0 :
  Z.of_nat (length origCounts) < 2 ^ 64 → origCounts ≠ [] →
  ∀ (cs : list Z) d off,
    Forall (λ c, 0 ≤ c < SIZE_MAX) cs →
    (off + sum_list (Z.to_nat <$> cs) ≤ length vs)%nat →
    forM cs
      (λ c st,
         occ ← occurrences c;
         forM occ
           (λ count st,
              let skip' :=
                if negb false then bool_decide (count ∉ i0 :: flt) else false in
              _makeFilteredData 1 (Doubles vs) origCounts filters st
                (length origCounts) skip') st) (Doubles d, off)
    = Ok (Doubles (d ++ keptValues (i0 :: flt) (Z.to_nat <$> cs) (drop off vs)),
          (off + sum_list (Z.to_nat <$> cs))%nat).
Proof.
  intros Hlen Hne. induction cs as [|c cs IH]; intros d off Hcs Hoff.
  - simpl. rewrite app_nil_r, Nat.add_0_r. done.
  - apply Forall_cons in Hcs as [Hc Hcs]. rewrite fmap_cons in *. simpl in Hoff.
    rewrite forM_cons, occurrences_Ok, bind_Ok_l by done. simpl negb. cbv iota zeta.
    rewrite (walk_occurrence _ _ _ _ vs) by (done || lia).
    rewrite bind_Ok_l, IH by (done || lia).
    simpl keptValues. unfold keptOfOccurrence.
    rewrite length_take, length_drop, Nat.min_l by lia.
    rewrite drop_drop, <- app_assoc. simpl sum_list. by rewrite Nat.add_assoc.
Qed.

(** The layers above the filtered one hold the single count 1 and carry no
    filter: the walk passes through them once. *)
Lemma walk_descent k (cs : list Z) (i0 : nat) (flt : list nat) (vs : list double) :
  Z.of_nat k + 1 < 2 ^ 64 →
  Forall (λ c, 0 ≤ c < SIZE_MAX) cs →
  ∀ j depth d off,
    (depth + j = k)%nat →
    (off + sum_list (Z.to_nat <$> cs) ≤ length vs)%nat →
    _makeFilteredData (S (S j)) (Doubles vs) (replicate k [1] ++ [cs])
      (replicate k [] ++ [i0 :: flt]) (Doubles d, off) depth false
    = Ok (Doubles (d ++ keptValues (i0 :: flt) (Z.to_nat <$> cs) (drop off vs)),
          (off + sum_list (Z.to_nat <$> cs))%nat).
Proof.
  intros Hk Hcs.
  assert (length (replicate k [1] ++ [cs]) = S k) as Hlen
    by (rewrite length_app, length_replicate; simpl; lia).
  assert (replicate k [1] ++ [cs] ≠ []) as Hne by (by destruct k).
  induction j as [|j IH]; intros depth d off Hd Hoff.
  - assert (depth = k) as -> by lia.
    rewrite _makeFilteredData_inner by (rewrite Hlen; lia).
    rewrite (proj2 (at_idx_Ok _ _ k cs)), bind_Ok_l
      by (rewrite lookup_app_r, length_replicate, Nat.sub_diag by
            (rewrite length_replicate; lia); done).
    rewrite (proj2 (at_idx_Ok _ _ k (i0 :: flt))), bind_Ok_l
      by (rewrite lookup_app_r, length_replicate, Nat.sub_diag by
            (rewrite length_replicate; lia); done).
    replace (k + 1)%nat with (length (replicate k [1] ++ [cs])) by (rewrite Hlen; lia).
    apply walk_last_layer; (done || rewrite ?Hlen; lia).
  - rewrite _makeFilteredData_inner by (rewrite Hlen; lia).
    rewrite (proj2 (at_idx_Ok _ _ depth [1])), bind_Ok_l
      by (rewrite lookup_app_l by (rewrite length_replicate; lia);
          apply lookup_replicate_2; lia).
    rewrite (proj2 (at_idx_Ok _ _ depth [])), bind_Ok_l
      by (rewrite lookup_app_l by (rewrite length_replicate; lia);
          apply lookup_replicate_2; lia).
    rewrite forM_cons, IH by lia. done.
Qed.

(** Counts that are not negative let the result reserve its capacity. *)
Lemma reserve_counts (cs : list Z) :
  Forall (λ c, 0 ≤ c < SIZE_MAX) cs → reserve (VectorMath.sum cs) = Ok ().
Proof.
  intros Hcs. unfold reserve. rewrite decide_False; [done|].
  apply Z.le_ngt. induction Hcs as [|c cs Hc _ IH]; [done|].
  change (VectorMath.sum (c :: cs)) with (c + VectorMath.sum cs). lia.
Qed.

(** The walk with a filter on the deepest sequence alone. *)
Lemma walk_deepest_filter k (cs : list Z) (flt : list nat) (vs : list double) :
  flt ≠ [] →
  Z.of_nat k + 1 < 2 ^ 64 →
  Forall (λ c, 0 ≤ c < SIZE_MAX) cs →
  (sum_list (Z.to_nat <$> cs) ≤ length vs)%nat →
  DataVector_default = Doubles [] →
  makeFilteredData_walk (Doubles vs) (replicate k [1] ++ [cs]) (replicate k [] ++ [flt])
  = Ok (Doubles (keptValues flt (Z.to_nat <$> cs) vs), sum_list (Z.to_nat <$> cs)).
Proof.
  intros Hflt Hk Hcs Hvs Hdef. destruct flt as [|i0 flt]; [done|].
  unfold makeFilteredData_walk.
  rewrite decide_False by (by destruct k). rewrite bind_Ok_l, Hdef.
  rewrite last_snoc. simpl default. rewrite reserve_counts, bind_Ok_l by done.
  rewrite length_app, length_replicate. simpl length.
  replace (S (k + 1)) with (S (S k)) by lia.
  rewrite (walk_descent k cs i0 flt vs Hk Hcs k 0 [] 0) by (done || lia).
  by rewrite drop_0.
Qed.

(** X1. With a filter on the deepest sequence alone, as [collectData] passes
    it (the layers above hold the count 1 and no filter), the result
    holds, occurrence by occurrence, the source values whose 1-based
    position in the occurrence is kept. *)
Theorem makeFilteredData_deepest_filter k (cs : list Z) (flt : list nat)
    (vs : list double) :
  flt ≠ [] →
  Z.of_nat k + 1 < 2 ^ 64 →
  Forall (λ c, 0 ≤ c < SIZE_MAX) cs →
  (sum_list (Z.to_nat <$> cs) ≤ length vs)%nat →
  DataVector_default = Doubles [] →
  makeFilteredData (Doubles vs) (replicate k [1] ++ [cs]) (replicate k [] ++ [flt])
  = Ok (Doubles (keptValues flt (Z.to_nat <$> cs) vs)).
Proof.
  intros Hflt Hk Hcs Hvs Hdef. unfold makeFilteredData.
  by rewrite walk_deepest_filter.
Qed.

(** Filtering the positions of one occurrence. *)
Lemma kept_positions {A} (flt : list nat) (l : list nat) :
  ∀ block : list A, length l = length block →
    length (base.filter (λ p, p.1 ∈ flt) (zip l block))
    = length (base.filter (λ i, i ∈ flt) l).
Proof.
  induction l as [|i l IH]; intros [|x block] Hlen; try done.
  simpl zip. rewrite !filter_cons. simpl fst.
  destruct (decide (i ∈ flt)); simpl; rewrite IH by (simpl in Hlen; lia); done.
Qed.

Lemma keptOfOccurrence_all {A} (flt : list nat) (block : list A) :
  NoDup flt → Forall (λ i, 1 ≤ i ≤ length block)%nat flt →
  length (keptOfOccurrence flt block) = length flt.
Proof.
  intros Hnd Hin. unfold keptOfOccurrence.
  rewrite length_fmap, kept_positions by (by rewrite length_seq).
  apply Permutation_length, NoDup_Permutation; [|done|].
  - apply NoDup_filter, NoDup_seq.
  - intros i. rewrite list_elem_of_filter, elem_of_seq. split; [tauto|].
    intros Hi. split; [done|]. rewrite Forall_forall in Hin.
    specialize (Hin i Hi). lia.
Qed.

Lemma filter_none {A} (P : A → Prop) `{∀ x, Decision (P x)} (l : list A) :
  Forall (λ x, ¬ P x) l → base.filter P l = [].
Proof.
  induction 1 as [|x l Hx _ IH]; [done|].
  by rewrite filter_cons, decide_False.
Qed.

Lemma keptOfOccurrence_none {A} (flt : list nat) (block : list A) :
  Forall (λ i, length block < i)%nat flt →
  keptOfOccurrence flt block = [].
Proof.
  intros Hout. unfold keptOfOccurrence.
  assert (length (base.filter (λ p : nat * A, p.1 ∈ flt)
                    (zip (seq 1 (length block)) block)) = 0%nat) as Hnil.
  { rewrite kept_positions by (by rewrite length_seq).
    rewrite filter_none; [done|]. apply Forall_forall.
    intros i [? ?]%elem_of_seq Hi. rewrite Forall_forall in Hout.
    specialize (Hout i Hi). lia. }
  apply length_zero_iff_nil in Hnil. by rewrite Hnil.
Qed.

(** X2. When the indices of the filter are distinct and lie within every
    occurrence, the result holds as many values per occurrence as the
    filter has indices: the count [collectData] records for the
    occurrences of a filtered sequence. *)
Theorem makeFilteredData_kept_count k (cs : list Z) (flt : list nat) (vs : list double) :
  flt ≠ [] →
  Z.of_nat k + 1 < 2 ^ 64 →
  Forall (λ c, 0 ≤ c < SIZE_MAX) cs →
  (sum_list (Z.to_nat <$> cs) ≤ length vs)%nat →
  DataVector_default = Doubles [] →
  NoDup flt →
  Forall (λ c, Forall (λ i, 1 ≤ i ≤ Z.to_nat c)%nat flt) cs →
  ∃ values,
    makeFilteredData (Doubles vs) (replicate k [1] ++ [cs]) (replicate k [] ++ [flt])
    = Ok (Doubles values)
    ∧ length values = (length cs * length flt)%nat.
Proof.
  intros Hflt Hk Hcs Hvs Hdef Hnd Hin. eexists. split.
  - unfold makeFilteredData. by rewrite walk_deepest_filter.
  - clear Hk Hcs Hdef Hflt. revert vs Hvs.
    induction Hin as [|c cs Hc _ IH]; intros vs Hvs; [done|].
    rewrite fmap_cons in Hvs. simpl in Hvs.
    rewrite fmap_cons. simpl keptValues. rewrite length_app, IH
      by (rewrite length_drop; lia).
    rewrite keptOfOccurrence_all; [simpl; lia|done|].
    rewrite length_take. eapply Forall_impl; [exact Hc|]. simpl. intros i ?. lia.
Qed.

(** X3. When every index of the filter lies beyond every occurrence, the
    result holds no value at all, whatever the counts are. *)
Theorem makeFilteredData_index_beyond k (cs : list Z) (flt : list nat) (vs : list double) :
  flt ≠ [] →
  Z.of_nat k + 1 < 2 ^ 64 →
  Forall (λ c, 0 ≤ c < SIZE_MAX) cs →
  (sum_list (Z.to_nat <$> cs) ≤ length vs)%nat →
  DataVector_default = Doubles [] →
  Forall (λ c, Forall (λ i, Z.to_nat c < i)%nat flt) cs →
  makeFilteredData (Doubles vs) (replicate k [1] ++ [cs]) (replicate k [] ++ [flt])
  = Ok (Doubles []).
Proof.
  intros Hflt Hk Hcs Hvs Hdef Hout. unfold makeFilteredData.
  rewrite walk_deepest_filter by done. rewrite bind_Ok_l. simpl fst. do 2 f_equal.
  clear Hk Hcs Hdef Hflt Hvs. revert vs.
  induction Hout as [|c cs Hc _ IH]; intros vs; [done|].
  rewrite fmap_cons. simpl keptValues. rewrite IH, app_nil_r.
  apply keptOfOccurrence_none.
  eapply Forall_impl; [exact Hc|]. simpl. intros i ?.
  rewrite length_take. lia.
Qed.

(** X4. The source offset the walk ends at is the number of leaves it visits:
    it depends on the counts and on which layers carry a filter, not on
    the indices the filters keep nor on the values. *)
Theorem makeFilteredData_walk_offset srcData (origCounts : SeqCounts) filters d off :
  makeFilteredData_walk srcData origCounts filters = Ok (d, off) →
  off = leafVisits (S (length origCounts)) origCounts filters 0.
Proof.
  unfold makeFilteredData_walk. intros Hrun.
  apply bind_Ok in Hrun as (u & _ & Hrun).
  apply bind_Ok in Hrun as (u' & _ & Hrun).
  by apply QueryRunnerProofs._makeFilteredData_offset in Hrun.
Qed.

End Walk.

Section Loop.
Context `{Constants} `{Headers}.

Lemma hasFilter_snoc cs c :
  hasFilter (cs ++ [c])
  = hasFilter cs || negb (bool_decide (filter (queryComponent c) = [])).
Proof.
  unfold hasFilter. apply eq_true_iff_eq. 
  rewrite orb_true_iff, negb_true_iff, !bool_decide_eq_true, bool_decide_eq_false.
  rewrite Exists_app, Exists_cons, Exists_nil. tauto.
Qed.

(** One iteration of the loop, in terms of the component it reads. *)
Lemma pathStep_component lookupTable (targ : Target TypeInfo) pathIdx s c :
  tpath targ !! (pathIdx + 1)%nat = Some c →
  pathStep lookupTable targ pathIdx s
  = Ok {| ps_seqCounts :=
            <[(pathIdx + 1)%nat := recordedCounts lookupTable c]> (ps_seqCounts s);
          ps_counts :=
            match filter (queryComponent c) with
            | [] => ps_counts s
            | _ => <[(pathIdx + 1)%nat := walkCounts lookupTable c]>
                     match ps_counts s with
                     | [] => replicate (length (seqPath targ) + 1) [1]
                     | _ => ps_counts s
                     end
            end;
          ps_hasFilter :=
            ps_hasFilter s || negb (bool_decide (filter (queryComponent c) = []));
          ps_filters :=
            match filter (queryComponent c) with
            | [] => ps_filters s
            | flt => <[(pathIdx + 1)%nat := flt]>
                       match ps_filters s with
                       | [] => replicate (length (seqPath targ) + 1) []
                       | _ => ps_filters s
                       end
            end |}.
Proof.
  intros Hc. unfold pathStep, recordedCounts, walkCounts.
  rewrite (proj2 (at_idx_Ok _ _ _ _) Hc), bind_Ok_l.
  destruct (filter (queryComponent c)) as [|i flt].
  - rewrite bool_decide_eq_true_2 by done. simpl. by rewrite orb_false_r.
  - rewrite bool_decide_eq_false_2 by done. simpl negb. rewrite orb_true_r.
    by rewrite fmap_replicate.
Qed.

Lemma insert_after {A} (x y : A) (l rest : list A) :
  rest ≠ [] →
  <[(length l + 1)%nat := x]> (y :: l ++ rest) = y :: (l ++ [x]) ++ drop 1 rest.
Proof.
  intros Hrest. rewrite Nat.add_1_r. simpl. f_equal.
  rewrite <- (Nat.add_0_r (length l)), insert_app_r.
  destruct rest; [done|]. simpl. by rewrite <- app_assoc, drop_0.
Qed.

Lemma hasFilter_false lookupTable cs :
  hasFilter cs = false →
  walkCounts lookupTable <$> cs = (λ _, [1]) <$> cs
  ∧ (λ c, filter (queryComponent c)) <$> cs = (λ _, []) <$> cs.
Proof.
  unfold hasFilter. rewrite bool_decide_eq_false. intros Hno.
  induction cs as [|c cs IH]; [done|].
  rewrite Exists_cons in Hno.
  destruct IH as [IH1 IH2]; [tauto|].
  rewrite !fmap_cons, IH1, IH2. unfold walkCounts at 1.
  destruct (filter (queryComponent c)) eqn:E; [done|].
  exfalso. apply Hno. left. done.
Qed.

Lemma replicate_split {A} (x : A) n k :
  (k < n)%nat →
  replicate (n + 1) x = x :: replicate k x ++ replicate (S (n - S k)) x.
Proof.
  intros Hk. rewrite <- replicate_add, Nat.add_1_r.
  replace (k + S (n - S k))%nat with n by lia. done.
Qed.

(** The state of the loop over the sequence path after [k] components. *)
Lemma pathStep_loop lookupTable (targ : Target TypeInfo) (base : SeqCounts) k :
  let n := length (seqPath targ) in
  (n < length (tpath targ))%nat → length base = S n → (k ≤ n)%nat →
  let seen := take k (seqComponents targ) in
  forM (seq 0 k) (pathStep lookupTable targ)
    {| ps_seqCounts := <[0%nat := [1]]> base; ps_counts := [];
       ps_hasFilter := false; ps_filters := [] |}
  = Ok {| ps_seqCounts :=
            [1] :: (recordedCounts lookupTable <$> seen) ++ drop (S k) base;
          ps_counts :=
            if hasFilter seen
            then [1] :: (walkCounts lookupTable <$> seen) ++ replicate (n - k) [1]
            else [];
          ps_hasFilter := hasFilter seen;
          ps_filters :=
            if hasFilter seen
            then [] :: ((λ c, filter (queryComponent c)) <$> seen) ++ replicate (n - k) []
            else [] |}.
Proof.
  intros n Hpath Hbase. induction k as [|k IH]; intros Hk seen.
  - subst seen. rewrite take_0. simpl. f_equal. f_equal.
    destruct base; [done|]. done.
  - rewrite seq_S, forM_app, IH by lia. rewrite bind_Ok_l, Nat.add_0_l, forM_cons.
    assert (length (seqComponents targ) = n) as Hcomps.
    { unfold seqComponents. rewrite length_take, length_drop. fold n. lia. }
    destruct (lookup_lt_is_Some_2 (seqComponents targ) k) as [c Hc]; [lia|].
    assert (tpath targ !! (k + 1)%nat = Some c) as Hc'.
    { unfold seqComponents in Hc. rewrite lookup_take_lt in Hc by (fold n; lia).
      rewrite lookup_drop in Hc. by rewrite Nat.add_comm. }
    subst seen. rewrite (take_S_r _ _ _ Hc).
    set (seen := take k (seqComponents targ)) in *.
    assert (length seen = k) as Hseen by (unfold seen; rewrite length_take; lia).
    rewrite (pathStep_component _ _ _ _ c Hc'), bind_Ok_l.
    cbn [ps_seqCounts ps_counts ps_hasFilter ps_filters forM].
    rewrite !fmap_app, hasFilter_snoc. simpl fmap. fold n.
    replace (n - k)%nat with (S (n - S k)) by lia.
    assert (drop (S k) base ≠ []) as Hrest.
    { intros E. apply (f_equal length) in E. rewrite length_drop in E. simpl in E. lia. }
    f_equal. f_equal.
    + rewrite <- Hseen at 1. rewrite <- (length_fmap (recordedCounts lookupTable)).
      rewrite insert_after by done. by rewrite drop_drop, Nat.add_1_r.
    + destruct (filter (queryComponent c)) as [|i flt] eqn:Ef.
      * rewrite bool_decide_eq_true_2 by done. simpl negb. rewrite orb_false_r.
        destruct (hasFilter seen); [|done].
        assert (walkCounts lookupTable c = [1]) as -> by (unfold walkCounts; by rewrite Ef).
        by rewrite replicate_S, <- app_assoc.
      * rewrite bool_decide_eq_false_2 by done. simpl negb. rewrite orb_true_r.
        destruct (hasFilter seen) eqn:Eh.
        -- rewrite <- Hseen at 1. rewrite <- (length_fmap (walkCounts lookupTable)).
           by rewrite insert_after.
        -- destruct (hasFilter_false lookupTable _ Eh) as [-> _]. rewrite (const_fmap _ _ [1]), Hseen by done.
           rewrite (replicate_split _ n k) by lia.
           rewrite <- (length_replicate k [1]) at 1. by rewrite insert_after.
    + destruct (filter (queryComponent c)) as [|i flt] eqn:Ef.
      * rewrite bool_decide_eq_true_2 by done. simpl negb. rewrite orb_false_r.
        destruct (hasFilter seen); [|done].
        by rewrite replicate_S, <- app_assoc.
      * rewrite bool_decide_eq_false_2 by done. simpl negb. rewrite orb_true_r.
        destruct (hasFilter seen) eqn:Eh.
        -- rewrite <- Hseen at 1.
           rewrite <- (length_fmap (λ c, filter (queryComponent c))).
           by rewrite insert_after.
        -- destruct (hasFilter_false lookupTable _ Eh) as [_ ->]. rewrite (const_fmap _ _ ([] : list nat)), Hseen by done.
           rewrite (replicate_split _ n k) by lia.
           rewrite <- (length_replicate k ([] : list nat)) at 1. by rewrite insert_after.
Qed.

(** [collectField] on a resolved target, with the loop over the sequence
    path replaced by its result. *)
Lemma collectField_resolved lookupTable (targ : Target TypeInfo) (dataField : DataField) :
  nodeIdx targ ≠ 0%nat →
  (length (seqPath targ) < length (tpath targ))%nat →
  let comps := seqComponents targ in
  collectField lookupTable targ dataField
  = (leafComponent ← path_back (tpath targ);
     let srcData := data (lookupTable (nodeId leafComponent)) in
     data' ← (if negb (hasFilter comps) then Ok srcData
              else makeFilteredData srcData
                     ([1] :: (walkCounts lookupTable <$> comps))
                     ([] :: ((λ c, filter (queryComponent c)) <$> comps)));
     Ok {| target := Some targ; fdata := data';
           seqCounts := [1] :: (recordedCounts lookupTable <$> comps) |}).
Proof.
  intros Hnode Hpath comps. unfold collectField.
  destruct (decide (nodeIdx targ = 0%nat)) as [|_]; [done|]. cbv zeta.
  assert (length (seqComponents targ) = length (seqPath targ)) as Hcomps.
  { unfold seqComponents. rewrite length_take, length_drop. lia. }
  rewrite (pathStep_loop lookupTable targ _ (length (seqPath targ)) Hpath).
  2: { rewrite length_resize. lia. }
  2: done.
  rewrite bind_Ok_l. cbn [ps_seqCounts ps_counts ps_hasFilter ps_filters].
  rewrite <- Hcomps. rewrite firstn_all. fold comps.
  rewrite Nat.sub_diag. simpl replicate. rewrite !app_nil_r.
  rewrite (drop_ge (resize _ _ _)) by (rewrite length_resize; lia).
  rewrite app_nil_r.
  destruct (path_back (tpath targ)) as [leafComponent|e]; [|done].
  rewrite !bind_Ok_l. destruct (hasFilter comps); done.
Qed.

(** The loop over the sequence path only succeeds on a path longer than
    the sequence path. *)
Lemma pathStep_loop_Ok lookupTable (targ : Target TypeInfo) s0 s :
  forM (seq 0 (length (seqPath targ))) (pathStep lookupTable targ) s0 = Ok s →
  tpath targ ≠ [] →
  (length (seqPath targ) < length (tpath targ))%nat.
Proof.
  destruct (length (seqPath targ)) as [|n]; intros Hrun Hne.
  - destruct (tpath targ); [done|simpl; lia].
  - rewrite seq_S, forM_app in Hrun.
    apply bind_Ok in Hrun as (s1 & _ & Hrun). rewrite forM_cons in Hrun.
    apply bind_Ok in Hrun as (s2 & Hstep & _). unfold pathStep in Hstep.
    apply bind_Ok in Hstep as (c & Hc%at_idx_Ok & _).
    apply lookup_lt_Some in Hc. lia.
Qed.

(** X5. Without a filter on the path, the field of a resolved target holds the
    leaf node's values as they are, and the count tree is the root level
    [[1]] followed by the counts of the sequences of the path, whatever
    the field held before. *)
Theorem collectField_unfiltered lookupTable (targ : Target TypeInfo) dataField leafComponent :
  nodeIdx targ ≠ 0%nat →
  (length (seqPath targ) < length (tpath targ))%nat →
  Forall (λ c, filter (queryComponent c) = []) (seqComponents targ) →
  last (tpath targ) = Some leafComponent →
  collectField lookupTable targ dataField
  = Ok {| target := Some targ;
          fdata := data (lookupTable (nodeId leafComponent));
          seqCounts :=
            [1] :: ((λ c, counts (lookupTable (nodeId c))) <$> seqComponents targ) |}.
Proof.
  intros Hnode Hpath Hflt Hleaf. rewrite collectField_resolved by done.
  unfold path_back. rewrite Hleaf, bind_Ok_l. cbv zeta.
  assert (hasFilter (seqComponents targ) = false) as ->.
  { unfold hasFilter. apply bool_decide_eq_false. rewrite Exists_exists.
    intros (c & Hc & Hf). rewrite Forall_forall in Hflt. by apply Hf, Hflt. }
  simpl negb. cbv iota. rewrite bind_Ok_l. do 3 f_equal.
  apply Forall_fmap_ext_1. apply (Forall_impl _ _ _ Hflt).
  intros c Hc. unfold recordedCounts. by rewrite Hc.
Qed.

(** X6. The count tree of a collected field of a resolved target: the root
    level [[1]], then one level per sequence of the path, with as many
    entries as the sequence's node has counts; under a filter each entry
    is the filter's size, whatever the occurrence holds. *)
Theorem collectField_seqCounts lookupTable (targ : Target TypeInfo) dataField field :
  nodeIdx targ ≠ 0%nat →
  collectField lookupTable targ dataField = Ok field →
  target field = Some targ
  ∧ seqCounts field = [1] :: (recordedCounts lookupTable <$> seqComponents targ)
  ∧ length (seqCounts field) = S (length (seqPath targ)).
Proof.
  intros Hnode Hrun.
  assert (length (seqPath targ) < length (tpath targ))%nat as Hpath.
  { unfold collectField in Hrun. rewrite decide_False in Hrun by done.
    apply bind_Ok in Hrun as (s & Hloop & Hrun).
    apply bind_Ok in Hrun as (c & Hback & _).
    eapply pathStep_loop_Ok; [done|].
    unfold path_back in Hback. by destruct (tpath targ). }
  rewrite collectField_resolved in Hrun by done.
  apply bind_Ok in Hrun as (c & _ & Hrun).
  apply bind_Ok in Hrun as (d & _ & Hret). inversion Hret; subst field; simpl.
  split; [done|]. split; [done|].
  rewrite length_fmap. unfold seqComponents.
  rewrite length_take, length_drop. lia.
Qed.

(** X7. With a filter on the deepest sequence of the path alone, the field
    holds the values of the leaf at the kept positions of each occurrence,
    and the count tree records the filter's size for every occurrence. *)
Theorem collectField_deepest_filter lookupTable (targ : Target TypeInfo) dataField
    (pre : list TargetComponent) c leafComponent (vs : list double) :
  let flt := filter (queryComponent c) in
  let cs := counts (lookupTable (nodeId c)) in
  nodeIdx targ ≠ 0%nat →
  (length (seqPath targ) < length (tpath targ))%nat →
  seqComponents targ = pre ++ [c] →
  Forall (λ c, filter (queryComponent c) = []) pre →
  flt ≠ [] →
  last (tpath targ) = Some leafComponent →
  data (lookupTable (nodeId leafComponent)) = Doubles vs →
  Forall (λ c, 0 ≤ c < SIZE_MAX) cs →
  (sum_list (Z.to_nat <$> cs) ≤ length vs)%nat →
  Z.of_nat (length pre) + 2 < 2 ^ 64 →
  DataVector_default = Doubles [] →
  collectField lookupTable targ dataField
  = Ok {| target := Some targ;
          fdata := Doubles (keptValues flt (Z.to_nat <$> cs) vs);
          seqCounts :=
            [1] :: ((λ c, counts (lookupTable (nodeId c))) <$> pre)
              ++ [replicate (length cs) (Z.max (to_int (Z.of_nat (length flt))) 1)] |}.
Proof.
  intros flt cs Hnode Hpath Hcomps Hpre Hflt Hleaf Hdata Hcs Hsum Hlen Hdef.
  rewrite collectField_resolved by done.
  unfold path_back. rewrite Hleaf, bind_Ok_l. cbv zeta. rewrite Hcomps, Hdata.
  assert (hasFilter pre = false) as Hno.
  { unfold hasFilter. apply bool_decide_eq_false. rewrite Exists_exists.
    intros (c' & Hc' & Hf). rewrite Forall_forall in Hpre. by apply Hf, Hpre. }
  rewrite hasFilter_snoc, Hno. fold flt.
  rewrite bool_decide_eq_false_2 by done. simpl negb. cbv iota.
  destruct (hasFilter_false lookupTable _ Hno) as [Hw Hf].
  rewrite !fmap_app, Hw, Hf.
  rewrite (const_fmap (λ _, [1]) pre [1]), (const_fmap (λ _, []) pre ([] : list nat)) by done.
  simpl fmap. fold flt.
  assert (walkCounts lookupTable c = cs) as ->.
  { unfold walkCounts. fold flt. by destruct flt. }
  assert (recordedCounts lookupTable c
          = replicate (length cs) (Z.max (to_int (Z.of_nat (length flt))) 1)) as ->.
  { unfold recordedCounts. fold flt cs. by destruct flt. }
  change ([1] :: replicate (length pre) [1] ++ [cs])
    with (replicate (S (length pre)) [1] ++ [cs]).
  change ([] :: replicate (length pre) [] ++ [flt])
    with (replicate (S (length pre)) [] ++ [flt]).
  unfold makeFilteredData.
  rewrite walk_deepest_filter by (done || lia). rewrite !bind_Ok_l. simpl fst.
  do 4 f_equal.
  apply Forall_fmap_ext_1. apply (Forall_impl _ _ _ Hpre).
  intros c' Hc'. unfold recordedCounts. by rewrite Hc'.
Qed.

(** X8. A message that is accumulated adds exactly one frame to the result
    set, with one field per name, and leaves the names as they are. *)
Theorem accumulate_appends_one_frame querySet_ dataProvider_ r r' :
  accumulate querySet_ dataProvider_ r = Ok r' →
  names_ r' = names_ r
  ∧ ∃ frame, dataFrames_ r' = dataFrames_ r ++ [frame]
             ∧ length frame = length (names_ r).
Proof.
  unfold accumulate. intros Hrun.
  apply bind_Ok in Hrun as ([r1 targets] & Hfind & Hrun).
  apply bind_Ok in Hrun as (frames & Hcollect & Hret).
  inversion Hret; subst r'; simpl.
  assert (names_ r1 = names_ r ∧ dataFrames_ r1 = dataFrames_ r) as [Hn Hf].
  { unfold findTargets in Hfind.
    destruct (targetCache_ r !! getSubsetVariant dataProvider_).
    - by inversion Hfind; subst.
    - apply bind_Ok in Hfind as ([t l] & _ & Hret'). by inversion Hret'; subst. }
  apply QueryRunnerProofs.collectData_frame in Hcollect as (frame & -> & Hlen & _).
  rewrite Hn, Hf in *. eauto.
Qed.

End Loop.

Section Resolve.
Context `{Constants} `{Headers}.

(** X9. The loop over the sub-queries stops at the first one that applies to
    the variant and resolves in the table: later sub-queries are not
    looked at. *)
Theorem findQuery_first_match table variant (pre post : list Query) query node found :
  Forall (λ q, resolves table variant q = false) pre →
  matchesVariant variant query = true →
  getNodeForPath table (path query) = Some node →
  findQuery table variant (pre ++ query :: post) found = (query, Some node).
Proof.
  intros Hpre Hm Hnode. revert found.
  induction Hpre as [|q pre Hq _ IH]; intros found; simpl.
  - unfold matchesVariant in Hm. by rewrite Hm, Hnode.
  - unfold resolves, matchesVariant in Hq.
    destruct (isAnySubset (subset q)
              || bool_decide (qc_name (subset q) = variant.1)
                 && bool_decide (qc_index (subset q) = variant.2)); [|apply IH].
    destruct (getNodeForPath table (path q)) as [n|]; [|apply IH].
    exfalso. revert Hq. simpl. rewrite ?bool_decide_eq_true_2 by eauto. done.
Qed.

(** When no sub-query resolves, the loop ends without a node. *)
Lemma findQuery_none table variant (queries : list Query) found :
  Forall (λ q, resolves table variant q = false) queries →
  found.2 = None →
  (findQuery table variant queries found).2 = None.
Proof.
  intros Hall. revert found.
  induction Hall as [|q queries Hq _ IH]; intros found Hfound; simpl; [done|].
  unfold resolves, matchesVariant in Hq.
  destruct (isAnySubset (subset q)
            || bool_decide (qc_name (subset q) = variant.1)
               && bool_decide (qc_index (subset q) = variant.2)); [|by apply IH].
  destruct (getNodeForPath table (path q)) as [n|]; [|by apply IH].
  exfalso. revert Hq. simpl. rewrite ?bool_decide_eq_true_2 by eauto. done.
Qed.

Lemma findTarget_unresolved querySet_ dataProvider_ fieldName targets log q0 :
  Forall (λ q, resolves (subsetTable dataProvider_) (getSubsetVariant dataProvider_) q = false)
    (queriesFor querySet_ fieldName) →
  head (queriesFor querySet_ fieldName) = Some q0 →
  findTarget querySet_ dataProvider_ (subsetTable dataProvider_) fieldName (targets, log)
  = Ok (targets ++ [unresolvedTarget querySet_ fieldName],
        log ++ [(str q0, getSubsetVariant dataProvider_)]).
Proof.
  intros Hall Hq0. unfold findTarget.
  pose proof (findQuery_none (subsetTable dataProvider_) (getSubsetVariant dataProvider_)
                _ (Query_default, None) Hall eq_refl) as Hnone.
  destruct (findQuery _ _ _ _) as [foundQuery tableNode]. simpl in Hnone. subst tableNode.
  rewrite (proj2 (at_idx_Ok _ _ 0%nat q0)), bind_Ok_l
    by (by rewrite <- head_lookup).
  unfold unresolvedTarget. rewrite Hq0. done.
Qed.

(** X10. For a variant not yet in the cache and a query set none of whose
    sub-queries resolves in the message's table, [findTargets] makes one
    target with node id 0 per name, in the order of the names, and logs
    one warning per name, with the string of the name's first sub-query. *)
Theorem findTargets_unresolved querySet_ dataProvider_ r :
  let variant := getSubsetVariant dataProvider_ in
  targetCache_ r !! variant = None →
  Forall (λ n, queriesFor querySet_ n ≠ []
               ∧ Forall (λ q, resolves (subsetTable dataProvider_) variant q = false)
                   (queriesFor querySet_ n))
    (names querySet_) →
  let found := unresolvedTarget querySet_ <$> names querySet_ in
  findTargets querySet_ dataProvider_ r []
  = Ok ({| targetCache_ := <[variant := found]> (targetCache_ r);
           names_ := names_ r;
           dataFrames_ := dataFrames_ r;
           warnings := warnings r
             ++ ((λ n, (queryStr (unresolvedTarget querySet_ n), variant))
                   <$> names querySet_) |}, found).
Proof.
  intros variant Hmiss Hall found. unfold findTargets. fold variant. rewrite Hmiss.
  assert (∀ (ns : list string) targets log,
            Forall (λ n, queriesFor querySet_ n ≠ []
                         ∧ Forall (λ q, resolves (subsetTable dataProvider_) variant q = false)
                             (queriesFor querySet_ n)) ns →
            forM ns (findTarget querySet_ dataProvider_ (subsetTable dataProvider_))
              (targets, log)
            = Ok (targets ++ (unresolvedTarget querySet_ <$> ns),
                  log ++ ((λ n, (queryStr (unresolvedTarget querySet_ n), variant))
                            <$> ns))) as Hloop.
  { clear. induction ns as [|n ns IH]; intros targets log Hall.
    - simpl. by rewrite !app_nil_r.
    - apply Forall_cons in Hall as [[Hne Hn] Hall]. rewrite forM_cons.
      destruct (queriesFor querySet_ n) as [|q0 qs] eqn:Eq; [done|].
      rewrite (findTarget_unresolved _ _ _ _ _ q0) by (by rewrite Eq).
      rewrite bind_Ok_l, IH by done. rewrite !fmap_cons.
      rewrite <- !app_assoc. unfold unresolvedTarget. cbn [queryStr].
      rewrite Eq. reflexivity. }
  rewrite Hloop by done. by rewrite bind_Ok_l.
Qed.

(** The loop over the nodes of the path after [k] of them. *)
Lemma makePath_loop table (foundQuery : Query) (nodes : list BufrNode) k :
  (k ≤ length (path foundQuery))%nat → (S k ≤ length nodes)%nat →
  forM (seq 1 k)
    (λ nodeIdx pth,
       qc ← at_idx Path_idx (path foundQuery) (nodeIdx - 1);
       node ← at_idx Path_idx nodes nodeIdx;
       set_idx Path_idx pth nodeIdx
         {| queryComponent := qc;
            nodeId := bn_nodeIdx node;
            parentNodeId := bn_parentNodeIdx node;
            parentDimensionNodeId := bn_dimensionParentNodeIdx node;
            type := bn_type node;
            fixedRepeatCount := bn_fixedRepCount node |})
    (subsetComponent table foundQuery
       :: replicate (length (path foundQuery)) TargetComponent_default)
  = Ok (subsetComponent table foundQuery
          :: zip_with nodeComponent (take k (path foundQuery)) (take k (drop 1 nodes))
          ++ replicate (length (path foundQuery) - k) TargetComponent_default).
Proof.
  induction k as [|k IH]; intros Hk Hn.
  - simpl. by rewrite Nat.sub_0_r.
  - rewrite seq_S, forM_app, IH by lia. rewrite bind_Ok_l, forM_cons.
    destruct (lookup_lt_is_Some_2 (path foundQuery) k) as [qc Hqc]; [lia|].
    destruct (lookup_lt_is_Some_2 nodes (1 + k)) as [node Hnode]; [lia|].
    replace (1 + k - 1)%nat with k by lia.
    rewrite (proj2 (at_idx_Ok _ _ _ _) Hqc), bind_Ok_l.
    rewrite (proj2 (at_idx_Ok _ _ _ _) Hnode), bind_Ok_l.
    assert (length (zip_with nodeComponent (take k (path foundQuery))
                      (take k (drop 1 nodes))) = k) as Hzw.
    { rewrite length_zip_with, !length_take, length_drop. lia. }
    unfold set_idx. rewrite decide_True.
    2: { simpl. rewrite length_app, Hzw, length_replicate. lia. }
    rewrite bind_Ok_l. simpl forM. f_equal.
    replace (length (path foundQuery) - k)%nat
      with (S (length (path foundQuery) - S k)) by lia.
    fold (nodeComponent qc node).
    rewrite (take_S_r _ _ _ Hqc).
    rewrite (take_S_r (drop 1 nodes) k node) by (by rewrite lookup_drop).
    rewrite zip_with_app by (rewrite !length_take, length_drop; lia).
    rewrite <- app_assoc.
    set (zw := zip_with nodeComponent (take k (path foundQuery))
                 (take k (drop 1 nodes))) in *.
    f_equal. rewrite <- Hzw at 1.
    rewrite <- (Nat.add_0_r (length zw)), insert_app_r. done.
Qed.

(** X11. The path of a resolved target: the subset component with the node id
    of the table's root, then one component per node on the way to the
    found node, pairing the components of the query with the nodes after
    the root in order. *)
Theorem makePath_components table (foundQuery : Query) (tableNode : BufrNode) :
  length (getPathNodes table tableNode) = S (length (path foundQuery)) →
  makePath table foundQuery tableNode
  = Ok (subsetComponent table foundQuery
          :: zip_with nodeComponent (path foundQuery)
               (drop 1 (getPathNodes table tableNode))).
Proof.
  intros Hlen. unfold makePath. cbv zeta.
  unfold set_idx. rewrite decide_True by (rewrite length_replicate; lia).
  rewrite bind_Ok_l, Nat.add_1_r. simpl insert.
  rewrite Hlen. simpl Nat.sub. rewrite Nat.sub_0_r.
  fold (subsetComponent table foundQuery).
  rewrite makePath_loop by lia.
  rewrite Nat.sub_diag, firstn_all. simpl replicate. rewrite app_nil_r.
  rewrite take_ge by (rewrite length_drop; lia). done.
Qed.

(** X12. Path nodes beyond the components of the query make the loop read
    past the end of the query's path. *)
Theorem makePath_more_nodes table (foundQuery : Query) (tableNode : BufrNode) :
  (S (length (path foundQuery)) < length (getPathNodes table tableNode))%nat →
  makePath table foundQuery tableNode = Fault (OutOfRange Path_idx).
Proof.
  intros Hlen. unfold makePath. cbv zeta.
  unfold set_idx. rewrite decide_True by (rewrite length_replicate; lia).
  rewrite bind_Ok_l, Nat.add_1_r. simpl insert.
  fold (subsetComponent table foundQuery).
  replace (length (getPathNodes table tableNode) - 1)%nat
    with (length (path foundQuery)
          + S (length (getPathNodes table tableNode) - 2 - length (path foundQuery)))%nat
    by lia.
  rewrite seq_app, forM_app, makePath_loop by lia.
  rewrite bind_Ok_l, <- cons_seq, forM_cons.
  assert (at_idx Path_idx (path foundQuery) (1 + length (path foundQuery) - 1)
          = Fault (OutOfRange Path_idx)) as ->; [|done].
  unfold at_idx. by rewrite lookup_ge_None_2 by lia.
Qed.

End Resolve.

Import Scenarios Examples.

Lemma makeFilteredData_deepest_filter_witness :
  makeFilteredData (Doubles [10; 11; 12; 20; 21; 22]%float) [[1]; [1]; [3; 3]]
    [[]; []; [2%nat]]
  = Ok (Doubles [11; 21]%float).
Proof.
  apply (@makeFilteredData_deepest_filter headers 2 [3; 3] [2%nat]
           [10; 11; 12; 20; 21; 22]%float).
  - discriminate.
  - vm_compute. reflexivity.
  - repeat constructor; vm_compute; congruence.
  - vm_compute. lia.
  - reflexivity.
Defined.

Lemma makeFilteredData_kept_count_witness :
  ∃ values,
    makeFilteredData (Doubles [10; 11; 12; 20; 21; 22]%float) [[1]; [1]; [3; 3]]
      [[]; []; [3%nat; 1%nat]]
    = Ok (Doubles values)
    ∧ length values = 4%nat.
Proof.
  apply (@makeFilteredData_kept_count headers 2 [3; 3] [3%nat; 1%nat]
           [10; 11; 12; 20; 21; 22]%float).
  - discriminate.
  - vm_compute. reflexivity.
  - repeat constructor; vm_compute; congruence.
  - vm_compute. lia.
  - reflexivity.
  - apply NoDup_cons. split; [|apply NoDup_singleton].
    intros Hin%list_elem_of_singleton. discriminate.
  - repeat constructor; vm_compute; lia.
Defined.

Lemma makeFilteredData_index_beyond_witness :
  makeFilteredData (Doubles [10; 11; 12; 20; 21; 22]%float) [[1]; [1]; [3; 3]]
    [[]; []; [5%nat]]
  = Ok (Doubles []).
Proof.
  apply (@makeFilteredData_index_beyond headers 2 [3; 3] [5%nat]
           [10; 11; 12; 20; 21; 22]%float).
  - discriminate.
  - vm_compute. reflexivity.
  - repeat constructor; vm_compute; congruence.
  - vm_compute. lia.
  - reflexivity.
  - repeat constructor; vm_compute; lia.
Defined.

Lemma makeFilteredData_walk_offset_witness :
  6%nat = leafVisits 4 [[1]; [1]; [3; 3]] [[]; []; [2%nat]] 0.
Proof.
  apply (@makeFilteredData_walk_offset headers (Doubles [10; 11; 12; 20; 21; 22]%float)
           [[1]; [1]; [3; 3]] [[]; []; [2%nat]] (Doubles [11; 21]%float) 6).
  vm_compute. reflexivity.
Defined.

Lemma collectField_unfiltered_witness :
  collectField message_2x3 (nested [] [] []) DataField_new
  = Ok {| target := Some (nested [] [] []);
          fdata := Doubles [10; 11; 12; 20; 21; 22]%float;
          seqCounts := [[1]; [2]; [3; 3]] |}.
Proof.
  apply (@collectField_unfiltered constants headers message_2x3 (nested [] [] [])
           DataField_new (leafTMDB [])).
  - discriminate.
  - vm_compute. lia.
  - repeat constructor.
  - reflexivity.
Defined.

Lemma collectField_seqCounts_witness :
  target secondOfSEQB = Some (nested [] [2%nat] [])
  ∧ seqCounts secondOfSEQB
    = [1] :: (recordedCounts message_2x3 <$> seqComponents (nested [] [2%nat] []))
  ∧ length (seqCounts secondOfSEQB) = 3%nat.
Proof.
  apply (@collectField_seqCounts constants headers message_2x3 (nested [] [2%nat] [])
           DataField_new secondOfSEQB).
  - discriminate.
  - vm_compute. reflexivity.
Defined.

Lemma collectField_deepest_filter_witness :
  collectField message_2x3 (nested [] [2%nat] []) DataField_new
  = Ok {| target := Some (nested [] [2%nat] []);
          fdata := Doubles [11; 21]%float;
          seqCounts := [[1]; [2]; [1; 1]] |}.
Proof.
  apply (@collectField_deepest_filter constants headers message_2x3
           (nested [] [2%nat] []) DataField_new [seqA []] (seqB [2%nat]) (leafTMDB [])
           [10; 11; 12; 20; 21; 22]%float).
  - discriminate.
  - vm_compute. lia.
  - reflexivity.
  - repeat constructor.
  - discriminate.
  - reflexivity.
  - reflexivity.
  - repeat constructor; vm_compute; congruence.
  - vm_compute. lia.
  - vm_compute. reflexivity.
  - reflexivity.
Defined.

Lemma accumulate_appends_one_frame_witness :
  names_ laterRunner = names_ resolvedRunner
  ∧ ∃ frame, dataFrames_ laterRunner = dataFrames_ resolvedRunner ++ [frame]
             ∧ length frame = length (names_ resolvedRunner).
Proof.
  apply (@accumulate_appends_one_frame constants headers querySet message3
           resolvedRunner laterRunner).
  vm_compute. reflexivity.
Defined.

Lemma findQuery_first_match_witness :
  findQuery table ("NC001001", 0%nat) [pressureQuery; temperatureQuery; pressureQuery]
    (noQuery, None)
  = (temperatureQuery, Some (node 4 3 Number "TMDB")).
Proof.
  apply (@findQuery_first_match headers table ("NC001001", 0%nat) [pressureQuery]
           [pressureQuery] temperatureQuery (node 4 3 Number "TMDB") (noQuery, None)).
  - repeat constructor.
  - reflexivity.
  - reflexivity.
Defined.

Lemma findTargets_unresolved_witness :
  findTargets pressureOnly message1 runner0 []
  = Ok ({| targetCache_ :=
             <[("NC001001", 0%nat) := [unresolvedTarget pressureOnly "pressure"]]> ∅;
           names_ := ["temperature"; "pressure"];
           dataFrames_ := [];
           warnings := [("*/PRLC", ("NC001001", 0%nat))] |},
        [unresolvedTarget pressureOnly "pressure"]).
Proof.
  apply (@findTargets_unresolved headers pressureOnly message1 runner0).
  - reflexivity.
  - repeat constructor. discriminate.
Defined.

Lemma makePath_components_witness :
  makePath table temperatureQuery (node 4 3 Number "TMDB")
  = Ok (subsetComponent table temperatureQuery
          :: zip_with nodeComponent (path temperatureQuery)
               (drop 1 (getPathNodes table (node 4 3 Number "TMDB")))).
Proof.
  apply (@makePath_components headers table temperatureQuery (node 4 3 Number "TMDB")).
  reflexivity.
Defined.

Lemma makePath_more_nodes_witness :
  makePath table pressureQuery (node 4 3 Number "TMDB") = Fault (OutOfRange Path_idx).
Proof.
  apply (@makePath_more_nodes headers table pressureQuery (node 4 3 Number "TMDB")).
  vm_compute. lia.
Defined.

End CollectionProofs.

(** ** Export: rows, dense array and dimension paths *)

Module ExportProofs.
Import ResultSet Trimming.

Section Rows.
Context `{Constants} `{Headers}.

(** X13. Without a group-by field a frame gives one row, the padded block,
    whose length is the product of the dimensions.  The statement is for
    calls within the range of [int] ([withinInt]: dimensions at least 1,
    their product below 2^31, counts within the dimensions), on which
    the [int] products of the code are the exact products; the row is
    then not empty and shorter than 2^31. *)
Theorem getRowsForField_ungrouped field dims groupbyIdx rows :
  groupbyIdx ≤ 0 →
  withinInt (seqCounts field) dims →
  getRowsForField field dims groupbyIdx = Ok rows →
  ∃ output, inflateField field dims = Ok output
            ∧ rows = [output]
            ∧ length output = Z.to_nat (VectorMath.product dims)
            ∧ 1 ≤ Z.of_nat (length output) < 2 ^ 31.
Proof.
  intros Hg (Hdims & Hprod & _) Hrun. unfold getRowsForField in Hrun.
  apply bind_Ok in Hrun as (output & Hout & Hrun).
  rewrite decide_False in Hrun by lia. inversion Hrun; subst rows.
  exists output. split; [done|]. split; [done|].
  pose proof (ResultSetProofs.inflateField_length _ _ _ Hout) as Hlen.
  pose proof (ResultSetProofs.product_ge1 _ Hdims) as Hge.
  split; [done|]. rewrite Hlen. lia.
Qed.

Lemma deeper_rows_loop (o0 : double) N :
  ∀ k, (k ≤ N)%nat →
    forM (seq 0 k)
      (λ i dataRows,
         row ← at_idx DataRows_idx dataRows i;
         row' ← set_idx DataRows_idx row 0 o0;
         Ok (<[i := row']> dataRows)) (replicate N [MissingValue])
    = Ok (replicate k [o0] ++ replicate (N - k) [MissingValue]).
Proof.
  induction k as [|k IH]; intros Hk.
  - simpl. by rewrite Nat.sub_0_r.
  - rewrite seq_S, forM_app, IH by lia. rewrite bind_Ok_l, Nat.add_0_l, forM_cons.
    replace (N - k)%nat with (S (N - S k)) by lia.
    rewrite (proj2 (at_idx_Ok _ _ k [MissingValue])), bind_Ok_l
      by (rewrite lookup_app_r, length_replicate, Nat.sub_diag
            by (rewrite length_replicate; lia); done).
    unfold set_idx. rewrite decide_True by (simpl; lia). rewrite bind_Ok_l.
    simpl forM. f_equal.
    rewrite <- (length_replicate k [o0]) at 1.
    rewrite <- (Nat.add_0_r (length (replicate k [o0]))), insert_app_r.
    rewrite bind_Ok_l, (replicate_S_end k), <- app_assoc. done.
Qed.

(** X14. When the group-by field lies deeper than the target field, the first
    [product(dims)] rows of the frame each hold the first value of the
    padded block; the rows after them, up to [product(dims) * maxCounts],
    hold the missing value.  The statement is for calls within the range
    of [int] ([withinInt]) and a number of rows,
    [product(dims) * maxCounts], within the range of [size_t]. *)
Theorem getRowsForField_groupby_deeper field dims groupbyIdx o0 tl :
  inflateField field dims = Ok (o0 :: tl) →
  to_int (Z.of_nat (length (seqCounts field))) < groupbyIdx →
  0 < groupbyIdx →
  withinInt (seqCounts field) dims →
  (1 ≤ maxCounts (seqCounts field))%nat →
  let numRows := Z.to_nat (VectorMath.product dims) in
  Z.of_nat (numRows * maxCounts (seqCounts field)) < 2 ^ 64 →
  getRowsForField field dims groupbyIdx
  = Ok (replicate numRows [o0]
        ++ replicate (numRows * (maxCounts (seqCounts field) - 1)) [MissingValue]).
Proof.
  intros Hout Hdeep Hg (Hdims & Hprod & _) Hmax numRows _. unfold getRowsForField.
  rewrite Hout, bind_Ok_l. rewrite !decide_True by done. cbv zeta.
  pose proof (ResultSetProofs.inflateField_length _ _ _ Hout) as Hlen.
  simpl length in Hlen.
  rewrite ResultSetProofs.to_size_t_small by lia. fold numRows.
  set (mc := maxCounts (seqCounts field)) in *.
  assert (numRows * 1 ≤ numRows * mc)%nat as Hle by (apply Nat.mul_le_mono_l; lia).
  rewrite Nat.mul_1_r in Hle.
  rewrite deeper_rows_loop by exact Hle. do 2 f_equal.
  by rewrite Nat.mul_sub_distr_l, Nat.mul_1_r.
Qed.

(** X15. The export dimensions left after a group-by start at dimension 0 and
    hold no negative index. *)
Theorem groupedExportDims_head exportDims groupbyIdx :
  ∃ rest, groupedExportDims exportDims groupbyIdx = 0 :: rest
          ∧ Forall (λ d, 0 ≤ d) rest.
Proof.
  unfold groupedExportDims. cbv zeta.
  assert (Forall (λ d, 0 ≤ d)
            (base.filter (λ d, 0 ≤ d)
               (VectorMath.minus_scalar exportDims (groupbyIdx - 1)))) as Hall.
  { apply Forall_forall. by intros d [Hd _]%list_elem_of_filter. }
  destruct (base.filter _ _) as [|d rest]; [by exists []|].
  apply Forall_cons in Hall as [Hd Hrest].
  destruct (decide (d ≠ 0)) as [Hne|Heq].
  - exists (d :: rest). split; [done|]. by constructor.
  - apply dec_stable in Heq. subst d. by exists rest.
Qed.

End Rows.

Section Array.
Context `{Constants} `{Headers}.

Lemma forM_invariant_in {A S} (P : S → Prop) (l : list A) (body : A → S → result S) :
  (∀ x s s', x ∈ l → body x s = Ok s' → P s → P s') →
  ∀ s s', forM l body s = Ok s' → P s → P s'.
Proof.
  induction l as [|x l IH]; intros Hbody s s' Hrun Hs.
  - by inversion Hrun; subst.
  - rewrite forM_cons in Hrun. apply bind_Ok in Hrun as (s1 & Hx & Hrun).
    eapply IH; [|done|].
    + intros y t t' Hy. apply Hbody. by right.
    + eapply Hbody; [by left|done|done].
Qed.

(** Copying the rows of a frame leaves the length of the dense array. *)
Lemma storeRows_length rowLength dataRowIdx frameData (data data' : list double) :
  storeRows rowLength dataRowIdx frameData data = Ok data' →
  length data' = length data.
Proof.
  unfold storeRows. intros Hrun.
  eapply (ResultSetProofs.forM_invariant (λ d, length d = length data)) in Hrun; [done| |done].
  intros [rowIdx row] d d' Hrow Hd.
  eapply (ResultSetProofs.forM_invariant (λ d, length d = length data)) in Hrow; [done| |done].
  intros [colIdx v] e e' Hset He. unfold set_idx in Hset.
  case_decide; [|discriminate]. inversion Hset. by rewrite length_insert.
Qed.

(** X16. Without a group-by field, the dense array [getRawValues] returns
    has the length it was given at the start, the rows of all frames
    times the length of a row: the frames are written into it, none
    extends it.  The statement is for runs within the range of [int]: the
    dimensions of a frame are at least 1 with a product below 2^31, which
    bounds the [int] row length, and the counts of every field that is
    copied lie within the dimensions, which bounds the [int] products of
    [getRowsForField]; without a group-by field the shape itself is made
    of maxima only. *)
Theorem getRawValues_length dataFrames_ fieldName sh data dims dimPaths :
  exportShape dataFrames_ fieldName EmptyString = Ok sh →
  Forall (λ d, 1 ≤ d) (sh_dims sh) →
  VectorMath.product (sh_dims sh) < 2 ^ 31 →
  Forall (λ frame, ∀ field,
            fieldAtIdx frame (fieldIndices dataFrames_ fieldName EmptyString).1 = Ok field →
            missing field = false →
            withinInt (seqCounts field) (sh_allDims sh)) dataFrames_ →
  getRawValues dataFrames_ fieldName EmptyString = Ok (data, dims, dimPaths) →
  ∃ d0,
    sh_dims sh !! 0%nat = Some d0
    ∧ 1 ≤ d0 * VectorMath.product (drop 1 (sh_dims sh)) < 2 ^ 31
    ∧ dimPaths = sh_dimPaths sh
    ∧ length data
      = Z.to_nat (to_size_t (to_size_t (d0 * Z.of_nat (length dataFrames_))
                             * VectorMath.product (drop 1 (sh_dims sh)))).
Proof.
  unfold getRawValues. intros Hsh Hdims Hprod _ Hrun. rewrite Hsh, bind_Ok_l in Hrun.
  destruct (fieldIndices dataFrames_ fieldName EmptyString) as [targetFieldIdx g].
  apply bind_Ok in Hrun as (d0 & Hd0%at_idx_Ok & Hrun).
  apply bind_Ok in Hrun as (data' & Hloop & Hrun).
  apply bind_Ok in Hrun as (dims' & _ & Hret). inversion Hret; subst.
  exists d0. split; [done|]. split.
  { destruct (sh_dims sh) as [|d rest]; [done|]. inversion Hd0; subst d.
    pose proof (ResultSetProofs.product_ge1 _ Hdims) as Hge.
    unfold VectorMath.product in *. simpl in *. rewrite drop_0. lia. }
  split; [done|].
  match type of Hloop with
  | forM _ _ ?d0 = _ =>
      eapply (ResultSetProofs.forM_invariant (λ d, length d = length d0)) in Hloop
  end.
  - rewrite Hloop. by rewrite length_resize.
  - intros [frameIdx frame] d d' Hbody Hd.
    apply bind_Ok in Hbody as (field & _ & Hbody).
    destruct (missing field); simpl in Hbody.
    + by inversion Hbody; subst.
    + apply bind_Ok in Hbody as (rows & _ & Hstore).
      apply storeRows_length in Hstore. congruence.
  - done.
Qed.

(** X17. When the target field is marked missing in every frame, every entry
    of the dense array is the missing value. *)
Theorem getRawValues_all_missing dataFrames_ fieldName groupByField data dims dimPaths :
  getRawValues dataFrames_ fieldName groupByField = Ok (data, dims, dimPaths) →
  Forall (λ frame, ∀ field,
            fieldAtIdx frame (fieldIndices dataFrames_ fieldName groupByField).1 = Ok field →
            missing field = true) dataFrames_ →
  Forall (λ v, v = MissingValue) data.
Proof.
  unfold getRawValues. intros Hrun Hmissing.
  apply bind_Ok in Hrun as (sh & Hsh & Hrun).
  destruct (fieldIndices dataFrames_ fieldName groupByField) as [targetFieldIdx g].
  apply bind_Ok in Hrun as (d0 & Hd0%at_idx_Ok & Hrun).
  apply bind_Ok in Hrun as (data' & Hloop & Hrun).
  apply bind_Ok in Hrun as (dims' & _ & Hret). inversion Hret; subst.
  eapply (forM_invariant_in (λ d, Forall (λ v, v = MissingValue) d)) in Hloop; [done| |].
  - intros [frameIdx frame] d d' Hin Hbody Hd.
    apply bind_Ok in Hbody as (field & Hfield & Hbody).
    apply list_elem_of_lookup in Hin as [i Hi].
    rewrite list_lookup_imap in Hi.
    destruct (dataFrames_ !! i) as [fr|] eqn:Efr; [|done].
    simpl in Hi. inversion Hi; subst.
    rewrite Forall_forall in Hmissing.
    rewrite (Hmissing frame (list_elem_of_lookup_2 _ _ _ Efr) field Hfield) in Hbody.
    simpl in Hbody. by inversion Hbody; subst.
  - rewrite resize_nil. apply Forall_replicate. done.
Qed.

Lemma mapM_Ok {A B} (g : A → result B) (l : list A) (k : list B) :
  mapM g l = Ok k → Forall2 (λ x y, g x = Ok y) l k.
Proof.
  revert k. induction l as [|x l IH]; intros k Hrun.
  - inversion Hrun. constructor.
  - rewrite ResultSetProofs.mapM_cons in Hrun.
    apply bind_Ok in Hrun as (y & Hy & Hrun).
    apply bind_Ok in Hrun as (k' & Hk' & Hret). inversion Hret; subst.
    constructor; [done|]. by apply IH.
Qed.

Lemma trim_right_suffix s :
  ∃ t, s = trim_right s +:+ t ∧ all_ws t = true.
Proof.
  induction s as [|c s (t & Hs & Ht)]; [by exists EmptyString|]. simpl.
  destruct (trim_right s) as [|a b] eqn:Er.
  - change (EmptyString +:+ t) with t in Hs. subst t. destruct (is_ws c) eqn:Ec.
    + exists (String c s). split; [done|]. simpl. by rewrite Ec, Ht.
    + exists s. done.
  - exists t. split; [|done].
    change (String c (String a b) +:+ t) with (String c (String a b +:+ t)).
    by rewrite <- Hs.
Qed.

Lemma trim_right_ends s : ends_ws (trim_right s) = false.
Proof.
  induction s as [|c s IH]; [done|]. simpl.
  destruct (trim_right s) as [|a b] eqn:Er.
  - destruct (is_ws c) eqn:Ec; [done|]. simpl. done.
  - done.
Qed.

(** X18. The object [get] returns carries one dimension path per dimension,
    each the path [getRawValues] gave for the dimension with the
    whitespace at its end cut off and nothing else changed. *)
Theorem get_dimPaths dataFrames_ fieldName groupByFieldName object :
  get dataFrames_ fieldName groupByFieldName = Ok object →
  ∃ data dimPaths,
    getRawValues dataFrames_ fieldName groupByFieldName
    = Ok (data, o_dims object, dimPaths)
    ∧ o_data object = data
    ∧ length (o_dimPaths object) = length (o_dims object)
    ∧ ∀ i p, o_dimPaths object !! i = Some p →
        ends_ws p = false
        ∧ ∃ raw t, dimPaths !! i = Some raw ∧ raw = p +:+ t ∧ all_ws t = true.
Proof.
  unfold get. intros Hrun.
  apply bind_Ok in Hrun as ([[data dims] dimPaths] & Hraw & Hrun).
  apply bind_Ok in Hrun as (u & _ & Hrun).
  apply bind_Ok in Hrun as (paths & Hpaths & Hret).
  inversion Hret; subst object; simpl. clear Hret.
  apply mapM_Ok in Hpaths.
  exists data, dimPaths. split; [done|]. split; [done|].
  pose proof (Forall2_length _ _ _ Hpaths) as Hlen. rewrite length_seq in Hlen.
  split; [done|]. intros i p Hp.
  destruct (Forall2_lookup_r _ _ _ _ _ Hpaths Hp) as (j & Hj & Hg).
  apply lookup_seq in Hj as [-> _]. simpl in Hg.
  apply bind_Ok in Hg as (raw & Hraw'%at_idx_Ok & Hret). inversion Hret; subst p.
  split; [apply trim_right_ends|].
  destruct (trim_right_suffix raw) as (t & Ht & Hws). eauto.
Qed.

End Array.

Import Scenarios DenseExamples.

Lemma getRowsForField_ungrouped_witness :
  ∃ output, inflateField (fieldOf [1; 2; 3]%float [[3]]) [1; 5] = Ok output
            ∧ [[1; 2; 3; 1e11; 1e11]%float] = [output]
            ∧ length output = Z.to_nat (VectorMath.product [1; 5])
            ∧ 1 ≤ Z.of_nat (length output) < 2 ^ 31.
Proof.
  apply (@getRowsForField_ungrouped constants (fieldOf [1; 2; 3]%float [[3]]) [1; 5] 0
           [[1; 2; 3; 1e11; 1e11]%float]).
  - lia.
  - split; [|split].
    + repeat constructor; lia.
    + vm_compute. reflexivity.
    + repeat constructor; simpl; lia.
  - vm_compute. reflexivity.
Defined.

Lemma getRowsForField_groupby_deeper_witness :
  getRowsForField (fieldOf [7%float] []) [2] 2 = Ok [[7%float]; [7%float]].
Proof.
  apply (@getRowsForField_groupby_deeper constants (fieldOf [7%float] []) [2] 2
           7%float [1e11%float]).
  - vm_compute. reflexivity.
  - vm_compute. reflexivity.
  - lia.
  - split; [|split].
    + repeat constructor; lia.
    + vm_compute. reflexivity.
    + repeat constructor; simpl; lia.
  - vm_compute. lia.
  - vm_compute. reflexivity.
Defined.

Lemma getRawValues_length_witness :
  ∃ d0,
    sh_dims paddedShape !! 0%nat = Some d0
    ∧ 1 ≤ d0 * VectorMath.product (drop 1 (sh_dims paddedShape)) < 2 ^ 31
    ∧ ["*"; "*/SEQA"] = sh_dimPaths paddedShape
    ∧ length [1; 2; 3; 1e11; 1e11; 4; 5; 6; 7; 8; 9; 10; 1e11; 1e11; 1e11]%float
      = Z.to_nat (to_size_t (to_size_t (d0 * Z.of_nat (length paddedFrames))
                             * VectorMath.product (drop 1 (sh_dims paddedShape)))).
Proof.
  apply (@getRawValues_length constants frameHeaders paddedFrames "temperature"
           paddedShape
           [1; 2; 3; 1e11; 1e11; 4; 5; 6; 7; 8; 9; 10; 1e11; 1e11; 1e11]%float [3; 5]).
  - vm_compute. reflexivity.
  - repeat constructor; lia.
  - vm_compute. reflexivity.
  - unfold paddedFrames.
    repeat (apply List.Forall_cons; [|try apply List.Forall_nil]).
    all: intros field Hfield _; vm_compute in Hfield; inversion Hfield; subst field.
    all: split; [repeat constructor; lia|].
    all: split; [vm_compute; reflexivity|].
    all: repeat constructor; simpl; lia.
  - vm_compute. reflexivity.
Defined.

Lemma getRawValues_all_missing_witness :
  Forall (λ v, v = MissingValue) [1e11; 1e11]%float.
Proof.
  apply (@getRawValues_all_missing constants frameHeaders [missingFrame; missingFrame]
           "temperature" "" [1e11; 1e11]%float [2] ["*"]).
  - vm_compute. reflexivity.
  - repeat constructor; intros field Hfield; vm_compute in Hfield;
      inversion Hfield; reflexivity.
Defined.

Lemma get_dimPaths_witness :
  ∃ data dimPaths,
    getRawValues spacedFrames "temperature" "" = Ok (data, o_dims spacedObject, dimPaths)
    ∧ o_data spacedObject = data
    ∧ length (o_dimPaths spacedObject) = length (o_dims spacedObject)
    ∧ ∀ i p, o_dimPaths spacedObject !! i = Some p →
        ends_ws p = false
        ∧ ∃ raw t, dimPaths !! i = Some raw ∧ raw = p +:+ t ∧ all_ws t = true.
Proof.
  apply (@get_dimPaths constants frameHeaders spacedFrames "temperature" "" spacedObject).
  vm_compute. reflexivity.
Defined.

End ExportProofs.

(** ** The padded block of a frame *)

Module RowPaddingProofs.
Import ResultSet RowPadding.

Section Inflate.
Context `{Constants} `{Headers}.

Lemma idxsFrom_bound width base counts :
  Forall (λ c, c ≤ width)%nat counts →
  Forall (λ i, base ≤ i < base + length counts * width)%nat (idxsFrom width base counts).
Proof.
  intros Hc. revert base. induction Hc as [|c counts Hle _ IH]; intros base; simpl.
  - constructor.
  - apply Forall_app. split.
    + apply Forall_forall. intros i [? ?]%elem_of_seq. lia.
    + eapply Forall_impl; [apply IH|]. simpl. intros i ?. lia.
Qed.

(** One insert of the deepest level: the values after the occurrence
    move up to the start of the next row. *)
Lemma applyInsert_row (N M : nat) (c i0 rest : nat) (seen : list nat) :
  (c ≤ M)%nat →
  Z.of_nat (M * i0 + M + rest) < 2 ^ 31 →
  Forall (λ i, i < M * i0)%nat seen →
  applyInsert [1; Z.of_nat N; Z.of_nat M] 2 i0 (Z.of_nat M * 1 - Z.of_nat c * 1)
    (Z.of_nat <$> (seen ++ seq (M * i0) (c + rest)))
  = Ok (Z.of_nat <$> ((seen ++ seq (M * i0) c) ++ seq (M * i0 + M) rest)).
Proof.
  intros Hc Hbound Hseen. unfold applyInsert. cbv zeta.
  rewrite ResultSetProofs.to_size_t_small by lia.
  rewrite seq_app, !fmap_app.
  destruct (decide (0 < Z.of_nat M * 1 - Z.of_nat c * 1)) as [Hpos|Hzero].
  - unfold VectorMath.product_range. rewrite decide_True by (simpl; lia).
    rewrite bind_Ok_l. f_equal.
    change (VectorMath.product (take (length [1; Z.of_nat N; Z.of_nat M] - 2)
                                  (drop 2 [1; Z.of_nat N; Z.of_nat M])))
      with (Z.of_nat M * 1).
    rewrite ResultSetProofs.to_int_small by lia.
    rewrite !fmap_app, <- !list_fmap_compose, <- !(assoc_L (++)).
    f_equal; [|f_equal].
    + apply Forall_fmap_ext_1. eapply Forall_impl; [exact Hseen|].
      intros i Hi. simpl in Hi. simpl. rewrite ResultSetProofs.to_int_small by lia.
      rewrite decide_False by lia. done.
    + apply Forall_fmap_ext_1, Forall_forall. intros i [? ?]%elem_of_seq. simpl.
      rewrite ResultSetProofs.to_int_small by lia.
      rewrite decide_False by lia. done.
    + replace (M * i0 + M)%nat with ((M - c) + (M * i0 + c))%nat by lia.
      rewrite <- (fmap_add_seq (M - c) (M * i0 + c) rest), <- list_fmap_compose.
      apply Forall_fmap_ext_1, Forall_forall. intros i [? ?]%elem_of_seq. simpl.
      rewrite ResultSetProofs.to_int_small by lia.
      rewrite decide_True by lia.
      rewrite ResultSetProofs.to_size_t_small by lia. lia.
  - assert (c = M) as -> by lia. by rewrite <- !(assoc_L (++)).
Qed.

(** The loop over the inserts of the deepest level. *)
Lemma inflate_rows (N M : nat) (cs : list nat) :
  ∀ (i0 : nat) (seen : list nat),
    Forall (λ c, c ≤ M)%nat cs →
    Z.of_nat (M * i0 + length cs * M) < 2 ^ 31 →
    Forall (λ i, i < M * i0)%nat seen →
    forM (imap (λ insert_idx ins, ((i0 + insert_idx)%nat, ins))
            ((λ c, Z.of_nat M * 1 - c * 1) <$> (Z.of_nat <$> cs)))
      (λ '(insert_idx, ins) idxs,
         applyInsert [1; Z.of_nat N; Z.of_nat M] 2 insert_idx ins idxs)
      (Z.of_nat <$> (seen ++ seq (M * i0) (sum_list cs)))
    = Ok (Z.of_nat <$> (seen ++ idxsFrom M (M * i0) cs)).
Proof.
  induction cs as [|c cs IH]; intros i0 seen Hcs Hbound Hseen.
  - simpl. by rewrite !app_nil_r.
  - apply Forall_cons in Hcs as [Hc Hcs]. simpl in Hc. simpl length in Hbound.
    assert (sum_list cs ≤ length cs * M)%nat as Hsum.
    { clear -Hcs. induction Hcs; simpl; lia. }
    rewrite !fmap_cons. simpl imap. rewrite forM_cons, Nat.add_0_r.
    simpl sum_list.
    rewrite (applyInsert_row N M c i0 (sum_list cs) seen) by (done || lia).
    rewrite bind_Ok_l.
    rewrite (imap_ext _ (λ insert_idx ins, ((S i0 + insert_idx)%nat, ins)))
      by (intros; simpl; f_equal; lia).
    replace (M * i0 + M)%nat with (M * S i0)%nat by lia.
    rewrite IH.
    + simpl idxsFrom. rewrite <- (assoc_L (++)).
      by replace (M * i0 + M)%nat with (M * S i0)%nat by lia.
    + done.
    + lia.
    + apply Forall_app. split.
      * eapply Forall_impl; [exact Hseen|]. simpl. intros; lia.
      * apply Forall_forall. intros i [? ?]%elem_of_seq. lia.
Qed.

Lemma set_idx_Ok {A} a (v : list A) i x :
  (i < length v)%nat → set_idx a v i x = Ok (<[i := x]> v).
Proof. intros Hi. unfold set_idx. by rewrite decide_True. Qed.

Lemma forM_nil {A S} (body : A → S → result S) s : forM [] body s = Ok s.
Proof. reflexivity. Qed.

(** An insert of no slot moves nothing. *)
Lemma applyInsert_none dims dim_idx insert_idx ins idxs :
  to_size_t ins = 0 → applyInsert dims dim_idx insert_idx ins idxs = Ok idxs.
Proof. intros Hins. unfold applyInsert. rewrite Hins. by rewrite decide_False by lia. Qed.

(** The insert of the outer level moves no value of the rows the frame
    has. *)
Lemma applyInsert_upper (n N M : nat) (idxs : list nat) :
  (n ≤ N)%nat →
  Z.of_nat (N * M) < 2 ^ 31 →
  Forall (λ i, i < n * M)%nat idxs →
  applyInsert [1; Z.of_nat N; Z.of_nat M] 1 0
    (Z.of_nat N * (Z.of_nat M * 1) - Z.of_nat n * (Z.of_nat M * 1)) (Z.of_nat <$> idxs)
  = Ok (Z.of_nat <$> idxs).
Proof.
  intros HnN Hbound Hall.
  assert (n * M ≤ N * M)%nat as HnM by (apply Nat.mul_le_mono_r; lia).
  unfold applyInsert. cbv zeta.
  rewrite ResultSetProofs.to_size_t_small by nia.
  case_decide as Hpos; [|done].
  unfold VectorMath.product_range. rewrite decide_True by (simpl; lia).
  rewrite bind_Ok_l. f_equal.
  change (VectorMath.product (take (length [1; Z.of_nat N; Z.of_nat M] - 1)
                                (drop 1 [1; Z.of_nat N; Z.of_nat M])))
    with (Z.of_nat N * (Z.of_nat M * 1)).
  rewrite ResultSetProofs.to_int_small by nia.
  rewrite <- list_fmap_compose.
  apply Forall_fmap_ext_1.
  eapply Forall_impl; [exact Hall|]. intros i Hi. simpl in Hi. simpl.
  rewrite ResultSetProofs.to_int_small by nia.
  rewrite decide_False by nia. done.
Qed.

(** Writing the values of one occurrence at consecutive positions. *)
Lemma write_block (blk : list double) :
  ∀ (pre : list double) (R : nat),
    (length blk ≤ R)%nat →
    forM (zip (Z.of_nat <$> seq (length pre) (length blk)) blk)
      (λ '(i, v) output, set_idx Output_idx output (Z.to_nat i) v)
      (pre ++ replicate R fill_10e10)
    = Ok (pre ++ blk ++ replicate (R - length blk) fill_10e10).
Proof.
  induction blk as [|v blk IH]; intros pre R HR.
  - simpl. by rewrite Nat.sub_0_r.
  - simpl length in *. rewrite <- cons_seq, fmap_cons. simpl zip. rewrite forM_cons.
    rewrite Nat2Z.id at 1.
    rewrite set_idx_Ok by (rewrite length_app, length_replicate; lia).
    rewrite bind_Ok_l.
    destruct R as [|R]; [lia|]. simpl replicate.
    rewrite insert_app_r_alt by lia. rewrite Nat.sub_diag. simpl insert.
    rewrite (cons_middle v pre), (assoc_L (++)).
    replace (S (length pre)) with (length (pre ++ [v]))
      by (rewrite length_app; simpl; lia).
    rewrite IH by lia. by rewrite <- (assoc_L (++)).
Qed.

(** Writing the values of all occurrences, each at the start of its row. *)
Lemma write_blocks M (cs : list nat) :
  ∀ (vs pre : list double) (R : nat),
    length vs = sum_list cs →
    Forall (λ c, c ≤ M)%nat cs →
    (length cs * M ≤ R)%nat →
    forM (zip (Z.of_nat <$> idxsFrom M (length pre) cs) vs)
      (λ '(i, v) output, set_idx Output_idx output (Z.to_nat i) v)
      (pre ++ replicate R fill_10e10)
    = Ok (pre ++ padded M fill_10e10 cs vs ++ replicate (R - length cs * M) fill_10e10).
Proof.
  induction cs as [|c cs IH]; intros vs pre R Hvs Hcs HR.
  - simpl. by rewrite Nat.sub_0_r.
  - apply Forall_cons in Hcs as [Hc Hcs]. simpl in Hc, Hvs, HR. simpl idxsFrom.
    rewrite fmap_app. rewrite <- (take_drop c vs) at 1.
    rewrite zip_with_app by (rewrite length_fmap, length_seq, length_take; lia).
    rewrite forM_app.
    assert (length (take c vs) = c) as Htake by (rewrite length_take; lia).
    pose proof (write_block (take c vs) pre R) as Hblock. rewrite Htake in Hblock.
    rewrite Hblock by lia. clear Hblock. rewrite bind_Ok_l.
    replace (R - c)%nat with ((M - c) + (R - M))%nat by lia.
    rewrite replicate_add.
    rewrite !(assoc_L (++) pre), !(assoc_L (++) (pre ++ take c vs)).
    replace (length pre + M)%nat
      with (length ((pre ++ take c vs) ++ replicate (M - c) fill_10e10))
      by (rewrite !length_app, length_replicate, Htake; lia).
    rewrite IH by (rewrite ?length_drop; done || lia).
    simpl padded. rewrite <- !(assoc_L (++)). simpl length.
    by replace (R - S (length cs) * M)%nat with (R - M - length cs * M)%nat by lia.
Qed.

(** X19. The padded block of a field nested two sequences deep: every
    occurrence of the inner sequence is filled up to the row width with
    the fill value, and the rows the frame does not have follow, filled
    throughout; the values keep their order. *)
Theorem inflateField_row_padding (n N M : nat) (cs : list nat) (field : DataField) :
  seqCounts field = [[1]; [Z.of_nat n]; Z.of_nat <$> cs] →
  length cs = n →
  (n ≤ N)%nat →
  Forall (λ c, c ≤ M)%nat cs →
  length (data field) = sum_list cs →
  Z.of_nat (N * M) < 2 ^ 31 →
  inflateField field [1; Z.of_nat N; Z.of_nat M]
  = Ok (padded M fill_10e10 cs (data field)
        ++ replicate ((N - n) * M) fill_10e10).
Proof.
  intros Hcounts Hlen HnN Hcs Hdata Hbound. unfold inflateField.
  rewrite Hcounts, Hdata.
  assert (sum_list cs ≤ n * M)%nat as Hsum.
  { rewrite <- Hlen. clear -Hcs. induction Hcs; simpl; lia. }
  assert (n * M ≤ N * M)%nat as HnM by (apply Nat.mul_le_mono_r; lia).
  change (computeInserts [[1]; [Z.of_nat n]; Z.of_nat <$> cs]
            [1; Z.of_nat N; Z.of_nat M])
    with (Ok (A := list (list Z))
            [[1 * (Z.of_nat N * (Z.of_nat M * 1))
              - 1 * (Z.of_nat N * (Z.of_nat M * 1))];
             [Z.of_nat N * (Z.of_nat M * 1) - Z.of_nat n * (Z.of_nat M * 1)];
             (λ c, Z.of_nat M * 1 - c * 1) <$> (Z.of_nat <$> cs)]).
  rewrite bind_Ok_l. unfold inflate.
  change (reverse (seq 0 (length [1; Z.of_nat N; Z.of_nat M]))) with [2%nat; 1%nat; 0%nat].
  rewrite forM_cons.
  change (?l !!! 2%nat) with ((λ c, Z.of_nat M * 1 - c * 1) <$> (Z.of_nat <$> cs)).
  pose proof (inflate_rows N M cs 0 []) as Hrows.
  rewrite Nat.mul_0_r in Hrows. simpl app in Hrows. simpl Nat.add in Hrows.
  rewrite Hrows by (done || constructor || lia). clear Hrows.
  rewrite bind_Ok_l.
  pose proof (idxsFrom_bound M 0 cs Hcs) as Hidx. simpl in Hidx.
  assert (Forall (λ i, i < n * M)%nat (idxsFrom M 0 cs)) as Hbelow.
  { eapply Forall_impl; [exact Hidx|]. simpl. intros i ?. rewrite <- Hlen. lia. }
  rewrite forM_cons.
  change (?l !!! 1%nat)
    with [Z.of_nat N * (Z.of_nat M * 1) - Z.of_nat n * (Z.of_nat M * 1)].
  simpl imap. rewrite forM_cons, (applyInsert_upper n N M) by (done || lia).
  rewrite bind_Ok_l, forM_nil, bind_Ok_l, forM_cons.
  change (?l !!! 0%nat)
    with [1 * (Z.of_nat N * (Z.of_nat M * 1)) - 1 * (Z.of_nat N * (Z.of_nat M * 1))].
  simpl imap. rewrite forM_cons, applyInsert_none by (by rewrite Z.sub_diag).
  rewrite bind_Ok_l, forM_nil, bind_Ok_l, forM_nil.
  rewrite bind_Ok_l. unfold make_vector.
  change (VectorMath.product [1; Z.of_nat N; Z.of_nat M])
    with (1 * (Z.of_nat N * (Z.of_nat M * 1))).
  rewrite decide_True by lia. rewrite bind_Ok_l.
  replace (Z.to_nat (1 * (Z.of_nat N * (Z.of_nat M * 1)))) with (N * M)%nat by lia.
  pose proof (write_blocks M cs (data field) [] (N * M) Hdata Hcs) as Hwrite.
  simpl in Hwrite. rewrite Hwrite by (rewrite Hlen; lia).
  do 2 f_equal. rewrite Hlen. by rewrite Nat.mul_sub_distr_r.
Qed.

End Inflate.
Import PaddingExamples.

Lemma inflateField_row_padding_witness :
  inflateField raggedField [1; 3; 2] = Ok [1; 2; 3; 1e11; 1e11; 1e11]%float.
Proof.
  apply (@inflateField_row_padding 2 3 2 [2; 1]%nat raggedField).
  - reflexivity.
  - reflexivity.
  - lia.
  - repeat constructor.
  - reflexivity.
  - vm_compute. reflexivity.
Defined.

End RowPaddingProofs.

(** ** The table cache of the data provider *)

Module NcepDataProviderProofs.
Import NcepDataProvider.

Section Proofs.
Context `{Header}.

(** X20. A subset whose table is in the cache is served from the cache: the
    interface is not read, nothing is freed and the cache stays as it is. *)
Theorem updateTable_cached f subset p table :
  tableCache_ p !! subset = Some (Some table) →
  updateTable f subset p
  = Ok {| tableCache_ := tableCache_ p;
          currentTableData_ := Some table;
          deleteData_calls := deleteData_calls p |}.
Proof.
  intros Hc. unfold updateTable. rewrite Hc. simpl.
  by rewrite insert_id.
Qed.

Lemma updateTable_miss f subset p :
  default None (tableCache_ p !! subset) = None →
  updateTable f subset p
  = (table ← loadTable f;
     Ok {| tableCache_ := <[subset := Some table]> (tableCache_ p);
           currentTableData_ := Some table;
           deleteData_calls := S (deleteData_calls p) |}).
Proof.
  intros Hc. unfold updateTable. rewrite Hc. cbv zeta.
  cbn [currentTableData_]. rewrite bool_decide_eq_false_2 by (by intros [? ?]).
  rewrite !orb_true_l. cbn [tableCache_ deleteData_calls].
  destruct (loadTable f) as [table|e]; [|done].
  rewrite !bind_Ok_l. by rewrite insert_insert_eq.
Qed.

(** X21. A subset that is not in the cache is always loaded through the
    interface: the inode and the tag of the condition play no part, since
    [currentTableData_] is null when the condition is reached. *)
Theorem updateTable_loads f subset p table :
  default None (tableCache_ p !! subset) = None →
  loadTable f = Ok table →
  updateTable f subset p
  = Ok {| tableCache_ := <[subset := Some table]> (tableCache_ p);
          currentTableData_ := Some table;
          deleteData_calls := S (deleteData_calls p) |}.
Proof.
  intros Hc Hload. unfold updateTable. rewrite Hc. cbv zeta.
  cbn [currentTableData_]. rewrite bool_decide_eq_false_2 by (by intros [? ?]).
  rewrite !orb_true_l, Hload, bind_Ok_l. cbn [tableCache_ deleteData_calls].
  by rewrite insert_insert_eq.
Qed.

(** Whatever [updateTable] returns leaves the table of the subset in the
    cache and in [currentTableData_]. *)
Lemma updateTable_current f subset p p' :
  updateTable f subset p = Ok p' →
  ∃ table, currentTableData_ p' = Some table
           ∧ tableCache_ p' !! subset = Some (Some table).
Proof.
  destruct (tableCache_ p !! subset) as [[table|]|] eqn:Ec.
  - rewrite (updateTable_cached _ _ _ table) by done.
    intros E. inversion E; subst; simpl. eauto.
  - rewrite updateTable_miss by (by rewrite Ec). intros Hrun.
    apply bind_Ok in Hrun as (table & _ & Hret). inversion Hret; subst; simpl.
    exists table. by rewrite lookup_insert_eq.
  - rewrite updateTable_miss by (by rewrite Ec). intros Hrun.
    apply bind_Ok in Hrun as (table & _ & Hret). inversion Hret; subst; simpl.
    exists table. by rewrite lookup_insert_eq.
Qed.

(** A table in the cache is never replaced. *)
Lemma updateTable_keeps f subset p p' other table :
  updateTable f subset p = Ok p' →
  tableCache_ p !! other = Some (Some table) →
  tableCache_ p' !! other = Some (Some table).
Proof.
  intros Hrun Hother.
  destruct (tableCache_ p !! subset) as [[cached|]|] eqn:Ec.
  - rewrite (updateTable_cached _ _ _ cached) in Hrun by done.
    by inversion Hrun; subst.
  - rewrite updateTable_miss in Hrun by (by rewrite Ec).
    apply bind_Ok in Hrun as (t & _ & Hret). inversion Hret; subst; simpl.
    rewrite lookup_insert_ne; [done|]. intros <-. congruence.
  - rewrite updateTable_miss in Hrun by (by rewrite Ec).
    apply bind_Ok in Hrun as (t & _ & Hret). inversion Hret; subst; simpl.
    rewrite lookup_insert_ne; [done|]. intros <-. congruence.
Qed.

(** X22. Once the table of a subset is loaded, every later call for that
    subset, after any number of calls for any subsets, gives that same
    table, whatever the library's table holds by then. *)
Theorem updateTable_loaded_once f subset p p1 p2 :
  updateTable f subset p = Ok p1 →
  rtc step p1 p2 →
  ∃ table,
    currentTableData_ p1 = Some table
    ∧ ∀ f', updateTable f' subset p2
            = Ok {| tableCache_ := tableCache_ p2;
                    currentTableData_ := Some table;
                    deleteData_calls := deleteData_calls p2 |}.
Proof.
  intros Hfirst Hlater.
  apply updateTable_current in Hfirst as (table & Hcur & Hcache).
  exists table. split; [done|]. intros f'. apply updateTable_cached.
  clear Hcur. induction Hlater as [p1|p1 p1' p2 Hstep _ IH]; [done|].
  apply IH. destruct Hstep as [g s q q' Hq]. by eapply updateTable_keeps.
Qed.

Lemma before_space_prefix w :
  ∃ rest, w = before_space w +:+ rest ∧ at_blank rest = true.
Proof.
  induction w as [|c w (rest & Hw & Hrest)]; [by exists EmptyString|]. simpl.
  destruct (is_blank c) eqn:Ec.
  - by exists (String c w).
  - exists rest. split; [|done].
    change (String c (before_space w) +:+ rest)
      with (String c (before_space w +:+ rest)).
    by rewrite <- Hw.
Qed.

(** The blank-free prefix of a word that ends at a blank or at the end of
    the word is the one [before_space] cuts. *)
Lemma before_space_unique t rest :
  has_space t = false → at_blank rest = true → before_space (t +:+ rest) = t.
Proof.
  intros Ht Hrest. induction t as [|c t IH].
  - change (EmptyString +:+ rest) with rest.
    destruct rest as [|c rest]; [done|]. simpl in *. by rewrite Hrest.
  - change (String c t +:+ rest) with (String c (t +:+ rest)).
    simpl in *. apply orb_false_iff in Ht as [Hc Ht]. rewrite Hc.
    by rewrite IH.
Qed.

Lemma before_space_no_space w : has_space (before_space w) = false.
Proof.
  induction w as [|c w IH]; [done|]. simpl.
  destruct (is_blank c) eqn:Ec; [done|]. simpl. by rewrite Ec.
Qed.

(** X23. The table read through the interface has one type per type word,
    the one [TypMap] gives for the word, and one tag per tag word, the
    word up to its first blank: the tag holds no blank, the word is the
    tag followed by a rest, and the rest is empty or starts with a blank.
    The other arrays are the ones handed out. *)
Theorem loadTable_tags f table :
  loadTable f = Ok table →
  Forall2 (λ t w, TypMap w = Some t) (typ table) (get_typ_f f)
  ∧ Forall2 (λ t w, has_space t = false
                    ∧ ∃ rest, w = t +:+ rest ∧ at_blank rest = true)
      (tag table) (get_tag_f f)
  ∧ isc table = get_isc_f f ∧ link table = get_link_f f
  ∧ itp table = get_itp_f f ∧ jmpb table = get_jmpb_f f.
Proof.
  unfold loadTable. intros Hrun.
  apply bind_Ok in Hrun as (typs & Htyps & Hret). inversion Hret; subst; simpl.
  split; [|split; [|done]].
  - clear Hret. revert typs Htyps.
    induction (get_typ_f f) as [|w ws IH]; intros typs Htyps.
    + inversion Htyps. constructor.
    + rewrite ResultSetProofs.mapM_cons in Htyps.
      apply bind_Ok in Htyps as (t & Ht & Htyps).
      apply bind_Ok in Htyps as (ts & Hts & Hret'). inversion Hret'; subst.
      constructor; [|by apply IH].
      destruct (TypMap w); [by inversion Ht|discriminate].
  - apply Forall2_fmap_l, Forall_Forall2_diag, Forall_forall.
    intros w _. split; [apply before_space_no_space|apply before_space_prefix].
Qed.

(** X24. A type word the map does not know makes a call for a subset that is
    not in the cache throw. *)
Theorem updateTable_unknown_typ f subset p w :
  default None (tableCache_ p !! subset) = None →
  w ∈ get_typ_f f → TypMap w = None →
  updateTable f subset p = Fault StdOutOfRange.
Proof.
  intros Hc Hw Hnone. rewrite updateTable_miss by done.
  assert (loadTable f = Fault StdOutOfRange) as ->; [|done].
  unfold loadTable.
  assert (mapM (M := result)
            (λ w, match TypMap w with
                  | Some t => Ok t
                  | None => Fault StdOutOfRange
                  end) (get_typ_f f) = Fault StdOutOfRange) as ->; [|done].
  induction (get_typ_f f) as [|x ws IH]; [by apply elem_of_nil in Hw|].
  rewrite ResultSetProofs.mapM_cons.
  destruct (TypMap x) as [t|] eqn:Ex; [|done].
  rewrite bind_Ok_l. apply elem_of_cons in Hw as [->|Hw]; [congruence|].
  by rewrite IH.
Qed.

End Proofs.

Import ProviderExamples.

Lemma updateTable_cached_witness :
  updateTable otherTable "NC001001" provider2
  = Ok {| tableCache_ := tableCache_ provider2;
          currentTableData_ := Some loaded;
          deleteData_calls := 2 |}.
Proof.
  apply (@updateTable_cached ncepHeader otherTable "NC001001" provider2 loaded).
  vm_compute. reflexivity.
Defined.

Lemma updateTable_loads_witness :
  updateTable libraryTable "NC001001" provider0 = Ok provider1.
Proof.
  apply (@updateTable_loads ncepHeader libraryTable "NC001001" provider0 loaded).
  - vm_compute. reflexivity.
  - vm_compute. reflexivity.
Defined.

Lemma updateTable_loaded_once_witness :
  ∃ table,
    currentTableData_ provider1 = Some table
    ∧ ∀ f', updateTable f' "NC001001" provider2
            = Ok {| tableCache_ := tableCache_ provider2;
                    currentTableData_ := Some table;
                    deleteData_calls := deleteData_calls provider2 |}.
Proof.
  apply (@updateTable_loaded_once ncepHeader libraryTable "NC001001" provider0
           provider1 provider2).
  - vm_compute. reflexivity.
  - apply rtc_once. apply (step_updateTable otherTable "NC002001").
    vm_compute. reflexivity.
Defined.

Lemma loadTable_tags_witness :
  Forall2 (λ t w, TypMap w = Some t) (typ loaded) (get_typ_f libraryTable)
  ∧ Forall2 (λ t w, has_space t = false
                    ∧ ∃ rest, w = t +:+ rest ∧ at_blank rest = true)
      (tag loaded) (get_tag_f libraryTable)
  ∧ isc loaded = get_isc_f libraryTable ∧ link loaded = get_link_f libraryTable
  ∧ itp loaded = get_itp_f libraryTable ∧ jmpb loaded = get_jmpb_f libraryTable.
Proof.
  apply (@loadTable_tags ncepHeader libraryTable loaded).
  vm_compute. reflexivity.
Defined.

Lemma updateTable_unknown_typ_witness :
  updateTable brokenTable "NC003001" provider1 = Fault StdOutOfRange.
Proof.
  apply (@updateTable_unknown_typ ncepHeader brokenTable "NC003001" provider1 "XYZ").
  - vm_compute. reflexivity.
  - vm_compute. right. left.
  - vm_compute. reflexivity.
Defined.

End NcepDataProviderProofs.

(** ** The bias object *)

Module GsiAircraftBiasObjectProofs.
Import GsiAircraftBiasConverter GsiAircraftBiasObject.

Lemma obind_Done {A B} (a : A) (k : A → outcome B) : Done a ≫= k = k a.
Proof. reflexivity. Qed.

Lemma obind_inv {A B} (m : outcome A) (k : A → outcome B) b :
  m ≫= k = Done b → ∃ a, m = Done a ∧ k a = Done b.
Proof. destruct m as [a| |]; [eauto|discriminate|discriminate]. Qed.

Lemma omapM_cons {A B} (g : A → outcome B) x l :
  mapM g (x :: l) = y ← g x; k ← mapM g l; Done (y :: k).
Proof. reflexivity. Qed.

Lemma omapM_Done {A B} (g : A → outcome B) (h : A → B) l :
  Forall (λ x, g x = Done (h x)) l → mapM g l = Done (h <$> l).
Proof.
  induction 1 as [|x l Hx _ IH]; [done|].
  by rewrite omapM_cons, Hx, obind_Done, IH.
Qed.

Lemma omapM_inv {A B} (g : A → outcome B) (l : list A) (k : list B) :
  mapM g l = Done k → Forall2 (λ x y, g x = Done y) l k.
Proof.
  revert k. induction l as [|x l IH]; intros k Hrun.
  - inversion Hrun. constructor.
  - rewrite omapM_cons in Hrun.
    apply obind_inv in Hrun as (y & Hy & Hrun).
    apply obind_inv in Hrun as (k' & Hk' & Hret). inversion Hret; subst.
    constructor; [done|]. by apply IH.
Qed.

Lemma omapM_OutOfBounds {A B} (g : A → outcome B) (h : A → B) l1 x l2 u :
  Forall (λ x, g x = Done (h x)) l1 → g x = OutOfBounds u →
  mapM g (l1 ++ x :: l2) = OutOfBounds u.
Proof.
  intros Hl1 Hx. induction Hl1 as [|y l1 Hy _ IH]; simpl app.
  - by rewrite omapM_cons, Hx.
  - by rewrite omapM_cons, Hy, obind_Done, IH.
Qed.

Section Proofs.
Variable lib : Library.

(** The dates are read one per tail id, split into year and month by
    division by 100. *)
Lemma dates_loop (dates : list Z) (secs : Z → Z) n :
  (n ≤ length dates)%nat →
  (∀ v, v ∈ dates → secondsSince1970 lib (Z.quot v 100) (Z.rem v 100) = Returned (secs v)) →
  mapM (M := outcome)
    (λ itime,
       v ← elem (Dates_itime itime) dates itime;
       called (secondsSince1970 lib (Z.quot v 100) (Z.rem v 100)))
    (seq 0 n)
  = Done (secs <$> take n dates).
Proof.
  intros Hn Hsecs.
  rewrite (omapM_Done _ (λ i, secs (default 0 (dates !! i)))).
  - f_equal. apply list_eq. intros i.
    rewrite !list_lookup_fmap.
    destruct (decide (i < n)%nat) as [Hi|Hi].
    + rewrite lookup_seq_lt, lookup_take_lt by done. simpl.
      destruct (lookup_lt_is_Some_2 dates i) as [v Hv]; [lia|]. by rewrite Hv.
    + rewrite lookup_seq_ge, lookup_take_ge by lia. done.
  - apply Forall_forall. intros i [_ Hi]%elem_of_seq.
    destruct (lookup_lt_is_Some_2 dates i) as [v Hv]; [lia|].
    unfold elem. rewrite Hv, obind_Done. simpl.
    by rewrite (Hsecs v (list_elem_of_lookup_2 _ _ _ Hv)).
Qed.

(** X25. With at least three predictors, a date for every tail id and a reader
    that keeps the array at three columns per predictor, the function
    ends normally: predictor [i] gets column [i] as its coefficients and
    column [i + 6] as their errors, and the number of observations used is
    column 3. *)
Theorem makeObsBiasObject_columns coeffile tailIds dates predictors
    (secs : Z → Z) (biascoeffs : list (list double)) :
  (3 ≤ length predictors)%nat →
  (length tailIds ≤ length dates)%nat →
  (∀ v, v ∈ dates → secondsSince1970 lib (Z.quot v 100) (Z.rem v 100) = Returned (secs v)) →
  readObsBiasCoefficients lib coeffile (length tailIds) (length predictors * 3)
  = Returned biascoeffs →
  length biascoeffs = (length predictors * 3)%nat →
  makeObsBiasObject lib coeffile tailIds dates predictors
  = Done {| stationIdentification := tailIds;
            Variables := ["airTemperature"];
            lastUpdateTime := secs <$> take (length tailIds) dates;
            BiasCoefficients := zip predictors biascoeffs;
            BiasCoefficientErrors := zip predictors (drop 6 biascoeffs);
            numberObservationsUsed := default [] (biascoeffs !! 3%nat) |}.
Proof.
  intros Hpreds Hdates Hsecs Hread Hcols. unfold makeObsBiasObject. cbv zeta.
  rewrite (dates_loop dates secs) by done. rewrite obind_Done, Hread. simpl called.
  rewrite obind_Done.
  rewrite (omapM_Done _
             (λ i, ((default EmptyString (predictors !! i), default [] (biascoeffs !! i)),
                    (default EmptyString (predictors !! i),
                     default [] (biascoeffs !! (i + 6)%nat))))).
  2: { apply Forall_forall. intros i [_ Hi]%elem_of_seq. unfold elem.
       destruct (lookup_lt_is_Some_2 biascoeffs i) as [c Hc]; [lia|].
       destruct (lookup_lt_is_Some_2 predictors i) as [p Hp]; [lia|].
       destruct (lookup_lt_is_Some_2 biascoeffs (i + 6)) as [e He]; [lia|].
       by rewrite Hc, Hp, He. }
  rewrite obind_Done. unfold elem.
  destruct (lookup_lt_is_Some_2 biascoeffs 3) as [c3 Hc3]; [lia|].
  rewrite Hc3, obind_Done. simpl default. f_equal. f_equal.
  - rewrite <- list_fmap_compose. apply list_eq. intros i.
    rewrite list_lookup_fmap, lookup_zip_with.
    destruct (decide (i < length predictors)%nat) as [Hi|Hi].
    + rewrite lookup_seq_lt by done. simpl.
      destruct (lookup_lt_is_Some_2 biascoeffs i) as [c Hc]; [lia|].
      destruct (lookup_lt_is_Some_2 predictors i) as [p Hp]; [lia|].
      by rewrite Hc, Hp.
    + rewrite lookup_seq_ge by lia. simpl.
      by rewrite (lookup_ge_None_2 predictors) by lia.
  - rewrite <- list_fmap_compose. apply list_eq. intros i.
    rewrite list_lookup_fmap, lookup_zip_with, lookup_drop.
    destruct (decide (i < length predictors)%nat) as [Hi|Hi].
    + rewrite lookup_seq_lt by done. simpl.
      destruct (lookup_lt_is_Some_2 biascoeffs (i + 6)) as [c Hc]; [lia|].
      destruct (lookup_lt_is_Some_2 predictors i) as [p Hp]; [lia|].
      rewrite Hp, Hc. simpl. rewrite (Nat.add_comm i 6) in Hc. simpl in Hc.
      by rewrite Hc.
    + rewrite lookup_seq_ge by lia. simpl.
      by rewrite (lookup_ge_None_2 predictors) by lia.
Qed.


(** X26. The number of observations used is written from column 3, the column
    the fourth predictor's coefficients are written from: whenever the
    function ends normally with at least four predictors, the two
    variables hold the same values. *)
Theorem numberObservationsUsed_fourth_coefficients coeffile tailIds dates predictors
    group p3 :
  predictors !! 3%nat = Some p3 →
  makeObsBiasObject lib coeffile tailIds dates predictors = Done group →
  BiasCoefficients group !! 3%nat = Some (p3, numberObservationsUsed group).
Proof.
  intros Hp3 Hrun. unfold makeObsBiasObject in Hrun. cbv zeta in Hrun.
  apply obind_inv in Hrun as (lastCycleUpdated & _ & Hrun).
  apply obind_inv in Hrun as (biascoeffs & _ & Hrun).
  apply obind_inv in Hrun as (vars & Hvars & Hrun).
  apply obind_inv in Hrun as (numObs & HnumObs & Hret).
  inversion Hret; subst group; simpl. clear Hret.
  apply omapM_inv in Hvars.
  pose proof (lookup_lt_Some _ _ _ Hp3) as Hlen.
  destruct (Forall2_lookup_l _ _ _ 3 3%nat Hvars) as (var & Hvar & Hbody).
  { by apply lookup_seq_lt. }
  apply obind_inv in Hbody as (subVar & HsubVar & Hbody).
  apply obind_inv in Hbody as (predictor & Hpred & Hbody).
  apply obind_inv in Hbody as (subVarBkgError & _ & Hret).
  inversion Hret; subst var; clear Hret.
  unfold elem in HsubVar, Hpred, HnumObs. rewrite Hp3 in Hpred.
  destruct (biascoeffs !! 3%nat) as [c3|]; [|discriminate].
  inversion HsubVar; inversion Hpred; inversion HnumObs; subst.
  by rewrite list_lookup_fmap, Hvar.
Qed.

(** X27. With fewer than three predictors the function reads a column outside
    the array: column 3 when there is no predictor, column 6 (the errors
    of the first predictor) when there are one or two. *)
Theorem makeObsBiasObject_few_predictors coeffile tailIds dates predictors
    (secs : Z → Z) (biascoeffs : list (list double)) :
  (length predictors < 3)%nat →
  (length tailIds ≤ length dates)%nat →
  (∀ v, v ∈ dates → secondsSince1970 lib (Z.quot v 100) (Z.rem v 100) = Returned (secs v)) →
  readObsBiasCoefficients lib coeffile (length tailIds) (length predictors * 3)
  = Returned biascoeffs →
  length biascoeffs = (length predictors * 3)%nat →
  makeObsBiasObject lib coeffile tailIds dates predictors
  = OutOfBounds (Biascoeffs_col (if decide (predictors = []) then 3 else 6)).
Proof.
  intros Hpreds Hdates Hsecs Hread Hcols. unfold makeObsBiasObject. cbv zeta.
  rewrite (dates_loop dates secs) by done. rewrite obind_Done, Hread. simpl called.
  rewrite obind_Done.
  destruct predictors as [|p0 predictors].
  - destruct biascoeffs; [|done]. done.
  - rewrite decide_False by done.
    assert (length biascoeffs ≤ 6)%nat as Hle by (simpl in *; lia).
    destruct biascoeffs as [|c0 biascoeffs]; [done|].
    change (seq 0 (length (p0 :: predictors)))
      with ([] ++ 0%nat :: seq 1 (length predictors)).
    rewrite (omapM_OutOfBounds _ (λ _, ((EmptyString, []), (EmptyString, []))) [] 0%nat _
               (Biascoeffs_col 6)); [done|constructor|].
    unfold elem. simpl.
    by rewrite (lookup_ge_None_2 biascoeffs 5) by (simpl in *; lia).
Qed.

(** X28. With fewer dates than tail ids the loop over the tail ids reads past
    the end of the dates. *)
Theorem makeObsBiasObject_few_dates coeffile tailIds dates predictors (secs : Z → Z) :
  (length dates < length tailIds)%nat →
  (∀ v, v ∈ dates → secondsSince1970 lib (Z.quot v 100) (Z.rem v 100) = Returned (secs v)) →
  makeObsBiasObject lib coeffile tailIds dates predictors
  = OutOfBounds (Dates_itime (length dates)).
Proof.
  intros Hdates Hsecs. unfold makeObsBiasObject. cbv zeta.
  replace (length tailIds) with (length dates + S (length tailIds - S (length dates)))%nat
    by lia.
  rewrite seq_app, <- cons_seq, Nat.add_0_l.
  rewrite (omapM_OutOfBounds _ (λ i, secs (default 0 (dates !! i))) _ _ _
             (Dates_itime (length dates))); [done| |].
  - apply Forall_forall. intros i [_ Hi]%elem_of_seq.
    destruct (lookup_lt_is_Some_2 dates i) as [v Hv]; [lia|].
    unfold elem. rewrite Hv, obind_Done. simpl.
    by rewrite (Hsecs v (list_elem_of_lookup_2 _ _ _ Hv)).
  - unfold elem. by rewrite (lookup_ge_None_2 dates) by lia.
Qed.

End Proofs.

Import BiasExamples.

Lemma makeObsBiasObject_columns_witness :
  makeObsBiasObject library "abias_air" ["TAIL0001"; "TAIL0002"] [202301; 202302]
    fourPredictors
  = Done {| stationIdentification := ["TAIL0001"; "TAIL0002"];
            Variables := ["airTemperature"];
            lastUpdateTime := [1648512000; 1651104000];
            BiasCoefficients := zip fourPredictors (columns 2 12);
            BiasCoefficientErrors := zip fourPredictors (drop 6 (columns 2 12));
            numberObservationsUsed := [3; 3]%float |}.
Proof.
  apply (@makeObsBiasObject_columns library "abias_air" ["TAIL0001"; "TAIL0002"]
           [202301; 202302] fourPredictors secondsOf (columns 2 12)).
  - vm_compute. lia.
  - vm_compute. lia.
  - intros v Hv. reflexivity.
  - reflexivity.
  - reflexivity.
Defined.

Lemma numberObservationsUsed_fourth_coefficients_witness :
  BiasCoefficients fourPredictorGroup !! 3%nat
  = Some ("p4", numberObservationsUsed fourPredictorGroup).
Proof.
  apply (@numberObservationsUsed_fourth_coefficients library "abias_air"
           ["TAIL0001"; "TAIL0002"] [202301; 202302] fourPredictors
           fourPredictorGroup "p4").
  - reflexivity.
  - vm_compute. reflexivity.
Defined.

Lemma makeObsBiasObject_few_predictors_witness :
  makeObsBiasObject library "abias_air" ["TAIL0001"; "TAIL0002"] [202301; 202302]
    ["constant"; "ascent"]
  = OutOfBounds (Biascoeffs_col 6).
Proof.
  apply (@makeObsBiasObject_few_predictors library "abias_air" ["TAIL0001"; "TAIL0002"]
           [202301; 202302] ["constant"; "ascent"] secondsOf (columns 2 6)).
  - vm_compute. lia.
  - vm_compute. lia.
  - intros v Hv. reflexivity.
  - reflexivity.
  - reflexivity.
Defined.

Lemma makeObsBiasObject_few_dates_witness :
  makeObsBiasObject library "abias_air" ["TAIL0001"; "TAIL0002"] [202301]
    fourPredictors
  = OutOfBounds (Dates_itime 1).
Proof.
  apply (@makeObsBiasObject_few_dates library "abias_air" ["TAIL0001"; "TAIL0002"]
           [202301] fourPredictors secondsOf).
  - vm_compute. lia.
  - intros v Hv. reflexivity.
Defined.

End GsiAircraftBiasObjectProofs.
